(** * Complexity-aware NAS drivers: [mnist/search.py] and [kws/fine-tune.py]

    A shallow embedding of the two training drivers: the evaluation loop
    [test], the training loop [train], the fine-tune learning-rate schedule
    [adjust_learning_rate], the list [model_names], and the two [main]
    procedures with their checkpoint bookkeeping.

    Conventions.
    - Python [int] is [Z]; Python [float] is IEEE binary64, i.e. Rocq's
      primitive [float].  Loops that accumulate numbers are written once over
      the interface [Scalar]; [float_scalar] is binary64, [Q_scalar] is exact
      rational arithmetic.
    - A raised exception is the [Raise] branch of [result].
    - The network itself ([models]), the loss kernels of torch (which reduce
      a batch in tensor arithmetic) and the optimizer update live outside
      the two drivers; they enter as the fields of [Network].
    - A [DataLoader] is a loader as one iteration finds it: the dataset and
      the batches that this iteration yields.  A [Loader] is the loader over
      its successive iterations; with [shuffle=True] every iteration draws a
      new order from torch's generator, which enters as the function [draw].
    - The trace of a run lists what it prints, the optimizer steps, the
      dataset download and the checkpoint writes; [st_fs] holds the files
      that [torch.save] writes, by path. *)

From Stdlib Require Import ZArith QArith Qabs Floats Lia.
From stdpp Require Import gmap strings list fin_maps pretty.
From stdpp Require Import sorting.

Set Warnings "-inexact-float".
Local Open Scope Z_scope.

(** ** Python runtime *)

Inductive exn : Type :=
| ZeroDivisionError
| UnboundLocalError (name : string)
| KeyError (key : string)
| TypeError
| AttributeError
| ValueError
| IndexError.

Inductive result (T : Type) : Type :=
| Ok (v : T)
| Raise (e : exn).
Arguments Ok {T} v.
Arguments Raise {T} e.

#[global] Instance result_ret : MRet result := λ T v, Ok v.
#[global] Instance result_bind : MBind result :=
  λ T U f r, match r with Ok v => f v | Raise e => Raise e end.

(** What a call hands back: [None] for a function without [return]. *)
Inductive pyval (T : Type) : Type :=
| PyNone
| PyFloat (x : T).
Arguments PyNone {T}.
Arguments PyFloat {T} x.

(** [str(n)] on an [int]. *)
Definition str (n : Z) : string := pretty n.
Arguments str : simpl never.

(** [d[k]] on a [dict] with string keys. *)
Definition getitem {V : Type} (d : gmap string V) (k : string) : result V :=
  match d !! k with
  | Some v => Ok v
  | None => Raise (KeyError k)
  end.

(** A local variable that is read: bound, or [UnboundLocalError]. *)
Definition read_local {V : Type} (name : string) (slot : option V) : result V :=
  match slot with
  | Some v => Ok v
  | None => Raise (UnboundLocalError name)
  end.

(** ** Scalars *)

Class Scalar (A : Type) : Type := {
  s_of_Z : Z → A;
  s_add : A → A → A;
  s_sub : A → A → A;
  s_mul : A → A → A;
  s_div : A → A → A;
  s_abs : A → A;
  s_leb : A → A → bool
}.

(** [float(n)]: the nearest binary64 value, ties to even. *)
Definition float_of_Z (n : Z) : float :=
  SF2Prim (binary_normalize prec emax n 0 false).

#[global] Instance float_scalar : Scalar float := {|
  s_of_Z := float_of_Z;
  s_add := PrimFloat.add;
  s_sub := PrimFloat.sub;
  s_mul := PrimFloat.mul;
  s_div := PrimFloat.div;
  s_abs := PrimFloat.abs;
  s_leb := PrimFloat.leb
|}.

#[global] Instance Q_scalar : Scalar Q := {|
  s_of_Z := inject_Z;
  s_add := Qplus;
  s_sub := Qminus;
  s_mul := Qmult;
  s_div := Qdiv;
  s_abs := Qabs;
  s_leb := Qle_bool
|}.

(** [x / n] with [n] an [int]: Python raises on a zero divisor. *)
Definition py_div {A : Type} `{Scalar A} (x : A) (n : Z) : result A :=
  if n =? 0 then Raise ZeroDivisionError else Ok (s_div x (s_of_Z n)).

(** [a >= b] on two call results; [None] does not compare. *)
Definition py_ge {A : Type} `{Scalar A} (a b : pyval A) : result bool :=
  match a, b with
  | PyFloat x, PyFloat y => Ok (s_leb y x)
  | _, _ => Raise TypeError
  end.

(** Built-in [sum] over the values of a dict of tensors.  It starts from
    the [int] 0, so the result is a tensor only when the dict is non-empty:
    [None] stands for the bare [int] 0. *)
Definition sum_values {A : Type} `{Scalar A} (d : list (string * A)) : option A :=
  match d.*2 with
  | [] => None
  | v :: vs => Some (fold_left s_add vs (s_add (s_of_Z 0) v))
  end.

(** [pred.eq(target).sum().item()] *)
Fixpoint count_true (hits : list bool) : Z :=
  match hits with
  | [] => 0
  | h :: hits' => (if h then 1 else 0) + count_true hits'
  end.

(** [np.vstack(arrays)]: an empty list of arrays is refused. *)
Definition np_vstack {X : Type} (arrays : list X) : result (list X) :=
  match arrays with
  | [] => Raise ValueError
  | _ => Ok arrays
  end.

(** Number of axes of [data.squeeze(0)] for a batch of [n] samples of three
    axes each (time, coefficient, channel): a batch of one sample loses its
    batch axis. *)
Definition squeeze0_ndim (n : nat) : Z := if (n =? 1)%nat then 3 else 4.

(** [t.transpose(dim0, dim1)] on a tensor of [ndim] axes: both axes must
    exist. *)
Definition transpose (ndim dim0 dim1 : Z) : result Z :=
  if (dim0 <? ndim) && (dim1 <? ndim) then Ok ndim else Raise IndexError.

(** [data.to(device).squeeze(0)] followed by
    [data.transpose(1,3).transpose(2,3)], the input that the fine-tune
    driver hands to the model. *)
Definition model_input {X : Type} (batch : list X) : result (list X) :=
  ndim ← transpose (squeeze0_ndim (length batch)) 1 3;
  _ ← transpose ndim 2 3;
  Ok batch.
#[global] Arguments model_input : simpl never.

(** ** Data, model and optimizer objects *)

Record DataLoader (Input : Type) : Type := {
  dataset : list (Input * Z);
  batches : list (list (Input * Z))
}.
Arguments dataset {Input} d.
Arguments batches {Input} d.

(** A loader over a run: [loader k] is the loader as its iteration number
    [k] finds it. *)
Definition Loader (Input : Type) : Type := Z → DataLoader Input.

Inductive pyarg : Type :=
| PInt (n : Z)
| PBool (b : bool).

(** Consecutive chunks of [n] items, the last one possibly shorter. *)
Fixpoint chunks {X : Type} (fuel n : nat) (l : list X) : list (list X) :=
  match fuel with
  | O => []
  | S fuel' =>
      match l with
      | [] => []
      | _ => take n l :: chunks fuel' n (drop n l)
      end
  end.

(** The loader over [ds] with batches of [n]: every iteration takes the
    samples in the order of the dataset, or with [shuffle] in the order
    [draw k ds] that the sampler draws for iteration [k]. *)
Definition loader_of {Input : Type}
    (draw : Z → list (Input * Z) → list (Input * Z)) (shuffle : bool)
    (ds : list (Input * Z)) (n : Z) : Loader Input :=
  λ k, let order := if shuffle then draw k ds else ds in
       {| dataset := ds; batches := chunks (length order) (Z.to_nat n) order |}.

(** [torch.utils.data.DataLoader(ds, **kwargs)].  With [shuffle=True] the
    sampler is a [RandomSampler], which refuses an empty dataset; the batch
    sampler refuses a batch size that is not a positive [int]. *)
Definition DataLoader_new {Input : Type}
    (draw : Z → list (Input * Z) → list (Input * Z))
    (ds : list (Input * Z)) (kwargs : gmap string pyarg) : result (Loader Input) :=
  let shuffle :=
    match kwargs !! "shuffle" with
    | Some (PBool b) => b
    | Some (PInt n) => negb (n =? 0)
    | None => false
    end in
  if shuffle && (length ds =? 0)%nat then Raise ValueError
  else
    match default (PInt 1) (kwargs !! "batch_size") with
    | PInt n =>
        if n <=? 0 then Raise ValueError
        else Ok (loader_of draw shuffle ds n)
    | PBool _ => Raise ValueError
    end.

Record Model (Params : Type) : Type := {
  params : Params;
  training : bool
}.
Arguments params {Params} m.
Arguments training {Params} m.

(** [model.train()] and [model.eval()] *)
Definition model_train {Params : Type} (m : Model Params) : Model Params :=
  {| params := params m; training := true |}.
Definition model_eval {Params : Type} (m : Model Params) : Model Params :=
  {| params := params m; training := false |}.

Record Optimizer (OptState : Type) : Type := {
  param_groups : list (gmap string float);
  opt_state : OptState
}.
Arguments param_groups {OptState} o.
Arguments opt_state {OptState} o.

(** The collaborators of the drivers: the network of [models], the loss
    kernels of torch and the optimizer update. *)
Record Network (A Params Input Output OptState : Type) : Type := {
  (* [model(data)] in inference mode, row of one sample *)
  forward : Params → Input → Output;
  (* [F.nll_loss(output, target, reduction='sum').item()] and
     [nn.CrossEntropyLoss(reduction='sum')(output, target).item()]: the
     loss of a batch as the tensor kernel sums it, read as a Python number *)
  loss_sum : list Output → list Z → A;
  (* [output.argmax(dim=1)] on the row of one sample *)
  argmax : Output → Z;
  (* mean classification loss of a training-mode forward pass on a batch *)
  batch_loss : Params → list (Input * Z) → A;
  (* [model.size_dict], [model.ops_dict], [model.alive_ch] after a forward pass *)
  size_dict : Params → list (string * A);
  ops_dict : Params → list (string * A);
  alive_ch : Params → list (string * A);
  (* [optimizer.zero_grad(); loss.backward(); optimizer.step()] *)
  backward_step :
    list (gmap string float) → OptState → Params → list (Input * Z) → A →
    Params * OptState
}.
Arguments forward {A Params Input Output OptState} n.
Arguments loss_sum {A Params Input Output OptState} n.
Arguments argmax {A Params Input Output OptState} n.
Arguments batch_loss {A Params Input Output OptState} n.
Arguments size_dict {A Params Input Output OptState} n.
Arguments ops_dict {A Params Input Output OptState} n.
Arguments alive_ch {A Params Input Output OptState} n.
Arguments backward_step {A Params Input Output OptState} n.

(** ** What the drivers emit *)

Record report (A : Type) : Type := {
  r_scope : string;
  r_loss : A;
  r_correct : Z;
  r_total : Z;
  r_accuracy : A
}.
Arguments r_scope {A} r.
Arguments r_loss {A} r.
Arguments r_correct {A} r.
Arguments r_total {A} r.
Arguments r_accuracy {A} r.

Inductive line (A : Type) : Type :=
| TrainLine (epoch seen total : Z) (percent loss : A) (sub_losses : option (A * A))
| EvalLine (r : report A)
| ComplexityLine (size ops : A) (initial : option (A * A))
| AliveLine (layer : string) (alive : A) (initial : option A)
| BestLine (scope : string) (acc : A) (epoch : Z)
| TextLine (s : string).
Arguments TrainLine {A} epoch seen total percent loss sub_losses.
Arguments EvalLine {A} r.
Arguments ComplexityLine {A} size ops initial.
Arguments AliveLine {A} layer alive initial.
Arguments BestLine {A} scope acc epoch.
Arguments TextLine {A} s.

Inductive event (A Params : Type) : Type :=
| Print (l : line A)
| OptimizerStep (epoch batch_idx : Z) (groups : list (gmap string float))
(* the dataset is fetched into the directory [root] when it is not there *)
| Download (root : string)
| Save (path : string) (state_dict : Params).
Arguments Print {A Params} l.
Arguments OptimizerStep {A Params} epoch batch_idx groups.
Arguments Download {A Params} root.
Arguments Save {A Params} path state_dict.

Definition is_step {A Params : Type} (e : event A Params) : bool :=
  match e with OptimizerStep _ _ _ => true | _ => false end.
Definition is_train_line {A Params : Type} (e : event A Params) : bool :=
  match e with Print (TrainLine _ _ _ _ _ _) => true | _ => false end.

(** The [argparse] namespace shared by the two drivers ([found_model] is
    read by the fine-tune driver only). *)
Record Args (A : Type) : Type := {
  arch : string;
  batch_size : Z;
  test_batch_size : Z;
  epochs : Z;
  lr : float;
  cd_size : A;
  cd_ops : A;
  size_target : A;
  gamma : float;
  no_cuda : bool;
  eval_complexity : bool;
  dry_run : bool;
  seed : Z;
  log_interval : Z;
  found_model : option string
}.
Arguments arch {A} a.
Arguments batch_size {A} a.
Arguments test_batch_size {A} a.
Arguments epochs {A} a.
Arguments lr {A} a.
Arguments cd_size {A} a.
Arguments cd_ops {A} a.
Arguments size_target {A} a.
Arguments gamma {A} a.
Arguments no_cuda {A} a.
Arguments eval_complexity {A} a.
Arguments dry_run {A} a.
Arguments seed {A} a.
Arguments log_interval {A} a.
Arguments found_model {A} a.

(** [for x in xs: s = body(s, x)], stopping at the first exception. *)
Fixpoint for_each {S X : Type} (body : S → X → result S) (xs : list X) (s : S)
    : result S :=
  match xs with
  | [] => Ok s
  | x :: xs' => s' ← body s x; for_each body xs' s'
  end.

(** Lookup in a dict kept in insertion order. *)
Fixpoint assoc_get {V : Type} (k : string) (d : list (string * V)) : result V :=
  match d with
  | [] => Raise (KeyError k)
  | (k', v) :: d' => if String.eqb k k' then Ok v else assoc_get k d'
  end.

(** ** The evaluation loop body, common to both [test] functions *)

Section Evaluation.
Context {A Params Input Output OptState : Type} `{Scalar A}.
Context (net : Network A Params Input Output OptState).

(** One iteration of [for data, target in test_loader]. *)
Definition eval_batch (p : Params) (acc : A * Z) (b : list (Input * Z)) : A * Z :=
  let output := (λ s, forward net p s.1) <$> b in
  let target := snd <$> b in
  let loss := loss_sum net output target in
  let pred := argmax net <$> output in
  (s_add acc.1 loss, acc.2 + count_true (zip_with Z.eqb pred target)).

End Evaluation.

(** ** Fine-tune driver, [kws/fine-tune.py] *)

Module FineTune.

Definition adjust_learning_rate {OptState : Type} (optimizer : Optimizer OptState)
    (epoch : Z) : Optimizer OptState :=
  let lr : float :=
    if epoch <? 50 then 1e-2%float
    else if epoch <? 100 then 5e-3%float
    else if epoch <? 150 then 2.5e-3%float
    else 1e-3%float in
  {| param_groups := (λ param_group, <["lr" := lr]> param_group) <$> param_groups optimizer;
     opt_state := opt_state optimizer |}.

Section Driver.
Context {A Params Input Output OptState : Type} `{Scalar A}.
Context (net : Network A Params Input Output OptState).
(* the format specification [:.1e] *)
Context (fmt_1e : A → string).

Fixpoint train_loop (args : Args A) (epoch : Z) (train_loader : DataLoader Input)
    (todo : list (list (Input * Z))) (batch_idx : Z)
    (p : Params) (optimizer : Optimizer OptState) (tr : list (event A Params))
    : result (Params * Optimizer OptState * list (event A Params)) :=
  match todo with
  | [] => Ok (p, optimizer, tr)
  | b :: todo' =>
      b ← model_input b;
      let loss := batch_loss net p b in
      let '(p', os') :=
        backward_step net (param_groups optimizer) (opt_state optimizer) p b loss in
      let optimizer' :=
        {| param_groups := param_groups optimizer; opt_state := os' |} in
      let tr := tr ++ [OptimizerStep epoch batch_idx (param_groups optimizer)] in
      if log_interval args =? 0 then Raise ZeroDivisionError
      else if batch_idx `mod` log_interval args =? 0 then
        percent ← py_div (s_mul (s_of_Z 100) (s_of_Z batch_idx))
                         (Z.of_nat (length (batches train_loader)));
        let tr := tr ++ [Print (TrainLine epoch (batch_idx * Z.of_nat (length b))
                                  (Z.of_nat (length (dataset train_loader)))
                                  percent loss None)] in
        if dry_run args then Ok (p', optimizer', tr)
        else train_loop args epoch train_loader todo' (batch_idx + 1) p' optimizer' tr
      else train_loop args epoch train_loader todo' (batch_idx + 1) p' optimizer' tr
  end.

Definition train (args : Args A) (model : Model Params)
    (train_loader : DataLoader Input) (optimizer : Optimizer OptState) (epoch : Z)
    (tr : list (event A Params))
    : result (Model Params * Optimizer OptState * list (event A Params)) :=
  let model := model_train model in
  '(p, optimizer, tr) ←
    train_loop args epoch train_loader (batches train_loader) 0 (params model) optimizer tr;
  mret ({| params := p; training := training model |}, optimizer, tr).

Definition test (model : Model Params) (test_loader : DataLoader Input)
    (scope : string) : result (Model Params * report A * pyval A) :=
  let model := model_eval model in
  '(test_loss, correct) ←
    for_each (λ acc b, b ← model_input b; Ok (eval_batch net (params model) acc b))
             (batches test_loader) (s_of_Z 0, 0);
  let n := Z.of_nat (length (dataset test_loader)) in
  test_loss ← py_div test_loss n;
  shown ← py_div (s_mul (s_of_Z 100) (s_of_Z correct)) n;
  acc ← py_div (s_mul (s_of_Z 100) (s_of_Z correct)) n;
  mret (model,
        {| r_scope := scope; r_loss := test_loss; r_correct := correct;
           r_total := n; r_accuracy := shown |},
        PyFloat acc).

Definition checkpoint_path (args : Args A) : string :=
  "saved_models/ft_" +:+ arch args +:+ "_target-" +:+ fmt_1e (size_target args)
    +:+ "_cdops-" +:+ fmt_1e (cd_ops args) +:+ ".pth.tar".

Record MainState : Type := {
  st_model : Model Params;
  st_optimizer : Optimizer OptState;
  st_val_acc : gmap string (pyval A);
  st_test_acc : gmap string (pyval A);
  st_best_epoch : Z;
  st_fs : gmap string Params;
  st_trace : list (event A Params)
}.

(** Body of [for epoch in range(1, args.epochs + 1)], on the loaders as
    this epoch iterates them. *)
Definition main_epoch (args : Args A)
    (train_loader val_loader test_loader : DataLoader Input)
    (st : MainState) (epoch : Z) : result MainState :=
  '(model, optimizer, tr) ←
    train args (st_model st) train_loader (st_optimizer st) epoch (st_trace st);
  '(model, r_val, v) ← test model val_loader "Validation";
  let val_acc := <[str epoch := v]> (st_val_acc st) in
  '(model, r_test, t) ← test model test_loader "Test";
  let test_acc := <[str epoch := t]> (st_test_acc st) in
  let tr := tr ++ [Print (EvalLine r_val); Print (EvalLine r_test)] in
  let optimizer := adjust_learning_rate optimizer epoch in
  current ← getitem val_acc (str epoch);
  best ← getitem val_acc (str (st_best_epoch st));
  improved ← py_ge current best;
  if (improved : bool) then
    Ok {| st_model := model; st_optimizer := optimizer;
          st_val_acc := val_acc; st_test_acc := test_acc;
          st_best_epoch := epoch;
          st_fs := <[checkpoint_path args := params model]> (st_fs st);
          st_trace := tr ++ [Save (checkpoint_path args) (params model)] |}
  else
    Ok {| st_model := model; st_optimizer := optimizer;
          st_val_acc := val_acc; st_test_acc := test_acc;
          st_best_epoch := st_best_epoch st;
          st_fs := st_fs st;
          st_trace := tr |}.

(** The state at the [# Training] comment of [main]. *)
Definition main_init (model : Model Params) (optimizer : Optimizer OptState)
    (fs : gmap string Params) (tr : list (event A Params)) : MainState :=
  let best_epoch := 0 in
  {| st_model := model; st_optimizer := optimizer;
     st_val_acc := <[str best_epoch := PyFloat (s_of_Z 0)]> ∅;
     st_test_acc := ∅;
     st_best_epoch := best_epoch;
     st_fs := fs;
     st_trace := tr |}.

(** The epochs [1 .. n] of the loop; every loader is iterated once per
    epoch. *)
Definition run_epochs (args : Args A)
    (train_loader val_loader test_loader : Loader Input)
    (n : Z) (st : MainState) : result MainState :=
  for_each (λ st epoch, main_epoch args (train_loader epoch) (val_loader epoch)
                          (test_loader epoch) st epoch)
           (seqZ 1 n) st.

Definition main_loop (args : Args A)
    (train_loader val_loader test_loader : Loader Input)
    (st : MainState) : result MainState :=
  run_epochs args train_loader val_loader test_loader (epochs args) st.

(** The two [print] calls under [# Log results]. *)
Definition log_results (st : MainState) : result MainState :=
  v ← getitem (st_val_acc st) (str (st_best_epoch st));
  v ← match v with PyFloat x => Ok x | PyNone => Raise TypeError end;
  t ← getitem (st_test_acc st) (str (st_best_epoch st));
  t ← match t with PyFloat x => Ok x | PyNone => Raise TypeError end;
  mret {| st_model := st_model st; st_optimizer := st_optimizer st;
          st_val_acc := st_val_acc st; st_test_acc := st_test_acc st;
          st_best_epoch := st_best_epoch st; st_fs := st_fs st;
          st_trace := st_trace st ++
            [Print (BestLine "Val" v (st_best_epoch st));
             Print (BestLine "Test" t (st_best_epoch st))] |}.

(** What [main] finds outside the driver: the samples of the three splits
    that [kws_data.get_training_data] yields, the orders that the samplers
    of the three loaders draw, the model built by the registry, the
    optimizer's fresh internal state, the checkpoint files already on disk
    and whether CUDA is there. *)
Record Env : Type := {
  cuda_is_available : bool;
  train_set : list (Input * Z);
  val_set : list (Input * Z);
  test_set : list (Input * Z);
  draw_train : Z → list (Input * Z) → list (Input * Z);
  draw_val : Z → list (Input * Z) → list (Input * Z);
  draw_test : Z → list (Input * Z) → list (Input * Z);
  new_model : Params;
  new_opt_state : OptState;
  disk : gmap string Params
}.

Definition main (args : Args A) (env : Env) : result MainState :=
  let use_cuda := negb (no_cuda args) && cuda_is_available env in
  let train_kwargs : gmap string pyarg := {["batch_size" := PInt (batch_size args)]} in
  let test_kwargs : gmap string pyarg := {["batch_size" := PInt (test_batch_size args)]} in
  let cuda_kwargs : option (gmap string pyarg) :=
    if use_cuda
    then Some (<["num_workers" := PInt 4]>
               (<["pin_memory" := PBool true]> {["shuffle" := PBool true]}))
    else None in
  let train_kwargs := from_option (λ kw, kw ∪ train_kwargs) train_kwargs cuda_kwargs in
  let test_kwargs := from_option (λ kw, kw ∪ test_kwargs) test_kwargs cuda_kwargs in
  (* data download and pre-processing *)
  let tr := [Print (TextLine "We will download data to data/");
             Download "data/";
             Print (TextLine "Done getting data")] in
  x_train ← np_vstack (train_set env);
  kw ← read_local "cuda_kwargs" cuda_kwargs;
  train_loader ← DataLoader_new (draw_train env) x_train
                   (<["batch_size" := PInt (batch_size args)]> kw);
  x_val ← np_vstack (val_set env);
  kw ← read_local "cuda_kwargs" cuda_kwargs;
  val_loader ← DataLoader_new (draw_val env) x_val
                 (<["batch_size" := PInt (test_batch_size args)]> kw);
  x_test ← np_vstack (test_set env);
  kw ← read_local "cuda_kwargs" cuda_kwargs;
  test_loader ← DataLoader_new (draw_test env) x_test
                  (<["batch_size" := PInt (test_batch_size args)]> kw);
  let tr := tr ++ [Print (TextLine ("=> creating model '" +:+ arch args +:+ "'"))] in
  let model := {| params := new_model env; training := true |} in
  let optimizer :=
    {| param_groups := [ <["lr" := lr args]> {["weight_decay" := 1e-4%float]} ];
       opt_state := new_opt_state env |} in
  st ← main_loop args train_loader val_loader test_loader
         (main_init model optimizer (disk env) tr);
  log_results st.

End Driver.
End FineTune.

(** ** Search driver, [mnist/search.py] *)

Module Search.
Section Driver.
Context {A Params Input Output OptState : Type} `{Scalar A}.
Context (net : Network A Params Input Output OptState).
(* the format specification [:.1e] *)
Context (fmt_1e : A → string).

(** The loss of one batch: the statements between the forward pass and
    [loss.backward()].  [loss] is the [F.nll_loss] of the batch. *)
Definition train_loss (args : Args A) (p : Params) (loss : A) : result (A * A * A) :=
  size ← match sum_values (size_dict net p) with
         | Some s => Ok s
         | None => Raise TypeError
         end;
  let loss_size := s_abs (s_sub size (size_target args)) in
  let loss_size := s_mul loss_size (cd_size args) in
  let loss_ops := default (s_of_Z 0) (sum_values (ops_dict net p)) in
  let loss_ops := s_mul loss_ops (cd_ops args) in
  let loss := s_add loss (s_add loss_size loss_ops) in
  mret (loss, loss_size, loss_ops).

Fixpoint train_loop (args : Args A) (epoch : Z) (train_loader : DataLoader Input)
    (todo : list (list (Input * Z))) (batch_idx : Z)
    (p : Params) (optimizer : Optimizer OptState) (tr : list (event A Params))
    : result (Params * Optimizer OptState * list (event A Params)) :=
  match todo with
  | [] => Ok (p, optimizer, tr)
  | b :: todo' =>
      '(loss, loss_size, loss_ops) ← train_loss args p (batch_loss net p b);
      let '(p', os') :=
        backward_step net (param_groups optimizer) (opt_state optimizer) p b loss in
      let optimizer' :=
        {| param_groups := param_groups optimizer; opt_state := os' |} in
      let tr := tr ++ [OptimizerStep epoch batch_idx (param_groups optimizer)] in
      if log_interval args =? 0 then Raise ZeroDivisionError
      else if batch_idx `mod` log_interval args =? 0 then
        percent ← py_div (s_mul (s_of_Z 100) (s_of_Z batch_idx))
                         (Z.of_nat (length (batches train_loader)));
        (* [loss_ops.item()]: a bare Python number has no [item] *)
        _ ← match sum_values (ops_dict net p) with
            | Some _ => Ok ()
            | None => Raise AttributeError
            end;
        let tr := tr ++ [Print (TrainLine epoch (batch_idx * Z.of_nat (length b))
                                  (Z.of_nat (length (dataset train_loader)))
                                  percent loss (Some (loss_size, loss_ops)))] in
        if dry_run args then Ok (p', optimizer', tr)
        else train_loop args epoch train_loader todo' (batch_idx + 1) p' optimizer' tr
      else train_loop args epoch train_loader todo' (batch_idx + 1) p' optimizer' tr
  end.

Definition train (args : Args A) (model : Model Params)
    (train_loader : DataLoader Input) (optimizer : Optimizer OptState) (epoch : Z)
    (tr : list (event A Params))
    : result (Model Params * Optimizer OptState * list (event A Params)) :=
  let model := model_train model in
  '(p, optimizer, tr) ←
    train_loop args epoch train_loader (batches train_loader) 0 (params model) optimizer tr;
  mret ({| params := p; training := training model |}, optimizer, tr).

Definition test (model : Model Params) (test_loader : DataLoader Input)
    : result (Model Params * report A * pyval A) :=
  let model := model_eval model in
  let '(test_loss, correct) :=
    fold_left (eval_batch net (params model)) (batches test_loader) (s_of_Z 0, 0) in
  let n := Z.of_nat (length (dataset test_loader)) in
  test_loss ← py_div test_loss n;
  shown ← py_div (s_mul (s_of_Z 100) (s_of_Z correct)) n;
  mret (model,
        {| r_scope := "Test"; r_loss := test_loss; r_correct := correct;
           r_total := n; r_accuracy := shown |},
        PyNone).

Definition checkpoint_path (args : Args A) : string :=
  "saved_models/srch_" +:+ arch args +:+ "_target-" +:+ fmt_1e (size_target args)
    +:+ "_cdops-" +:+ fmt_1e (cd_ops args) +:+ ".pth.tar".

(** [scheduler.step()] of [StepLR(optimizer, step_size=1, gamma)]. *)
Definition scheduler_step {OS : Type} (gamma : float) (optimizer : Optimizer OS)
    : Optimizer OS :=
  {| param_groups :=
       (λ param_group, alter (λ r, PrimFloat.mul r gamma) "lr" param_group)
         <$> param_groups optimizer;
     opt_state := opt_state optimizer |}.

(** [sum(d.values()).clone().detach().cpu().numpy()] for both dicts. *)
Definition complexity (p : Params) : result (A * A) :=
  size ← match sum_values (size_dict net p) with
         | Some s => Ok s
         | None => Raise AttributeError
         end;
  ops ← match sum_values (ops_dict net p) with
        | Some o => Ok o
        | None => Raise AttributeError
        end;
  mret (size, ops).

Record MainState : Type := {
  st_model : Model Params;
  st_optimizer : Optimizer OptState;
  st_fs : gmap string Params;
  st_trace : list (event A Params)
}.

(** Body of [for epoch in range(1, args.epochs + 1)], on the loaders as
    this epoch iterates them. *)
Definition main_epoch (args : Args A) (train_loader test_loader : DataLoader Input)
    (st : MainState) (epoch : Z) : result MainState :=
  '(model, optimizer, tr) ←
    train args (st_model st) train_loader (st_optimizer st) epoch (st_trace st);
  '(model, r, _) ← test model test_loader;
  let optimizer := scheduler_step (gamma args) optimizer in
  Ok {| st_model := model; st_optimizer := optimizer; st_fs := st_fs st;
        st_trace := tr ++ [Print (EvalLine r)] |}.

(** The epochs [1 .. n] of the loop; epoch [e] is the iteration number [e]
    of either loader (iteration 0 of the test loader is the dummy test
    step of [main]). *)
Definition run_epochs (args : Args A) (train_loader test_loader : Loader Input)
    (n : Z) (st : MainState) : result MainState :=
  for_each (λ st epoch, main_epoch args (train_loader epoch) (test_loader epoch) st epoch)
           (seqZ 1 n) st.

Definition main_loop (args : Args A) (train_loader test_loader : Loader Input)
    (st : MainState) : result MainState :=
  run_epochs args train_loader test_loader (epochs args) st.

(** Everything of [main] after the final epoch. *)
Definition main_finish (args : Args A) (size_i ops_i : A)
    (alive_ch_i : list (string * A)) (st : MainState) : result MainState :=
  let p := params (st_model st) in
  '(size_f, ops_f) ← complexity p;
  let tr := st_trace st ++ [Print (ComplexityLine size_f ops_f (Some (size_i, ops_i)))] in
  tr ← for_each (λ tr kv, v0 ← assoc_get kv.1 alive_ch_i;
                          Ok (tr ++ [Print (AliveLine kv.1 kv.2 (Some v0))]))
                (alive_ch net p) tr;
  Ok {| st_model := st_model st; st_optimizer := st_optimizer st;
        st_fs := <[checkpoint_path args := p]> (st_fs st);
        st_trace := tr ++ [Save (checkpoint_path args) p] |}.

(** What [main] finds outside the driver: the two MNIST splits, the orders
    that the samplers of the two loaders draw, the model built by the
    registry, the optimizer's fresh internal state, the checkpoint files
    already on disk and whether CUDA is there. *)
Record Env : Type := {
  cuda_is_available : bool;
  dataset1 : list (Input * Z);
  dataset2 : list (Input * Z);
  draw_train : Z → list (Input * Z) → list (Input * Z);
  draw_test : Z → list (Input * Z) → list (Input * Z);
  new_model : Params;
  new_opt_state : OptState;
  disk : gmap string Params
}.

Definition main (args : Args A) (env : Env) : result MainState :=
  let use_cuda := negb (no_cuda args) && cuda_is_available env in
  let train_kwargs : gmap string pyarg := {["batch_size" := PInt (batch_size args)]} in
  let test_kwargs : gmap string pyarg := {["batch_size" := PInt (test_batch_size args)]} in
  let cuda_kwargs : option (gmap string pyarg) :=
    if use_cuda
    then Some (<["num_workers" := PInt 1]>
               (<["pin_memory" := PBool true]> {["shuffle" := PBool true]}))
    else None in
  let train_kwargs := from_option (λ kw, kw ∪ train_kwargs) train_kwargs cuda_kwargs in
  let test_kwargs := from_option (λ kw, kw ∪ test_kwargs) test_kwargs cuda_kwargs in
  (* [datasets.MNIST('data', train=True, download=True, ...)] *)
  let tr := [Download "data"] in
  train_loader ← DataLoader_new (draw_train env) (dataset1 env) train_kwargs;
  test_loader ← DataLoader_new (draw_test env) (dataset2 env) test_kwargs;
  let tr := tr ++ [Print (TextLine ("=> creating model '" +:+ arch args +:+ "'"))] in
  let model := {| params := new_model env; training := true |} in
  let optimizer :=
    {| param_groups := [ {["lr" := lr args]} ]; opt_state := new_opt_state env |} in
  (* dummy test step *)
  '(model, r, _) ← test model (test_loader 0);
  let tr := tr ++ [Print (EvalLine r)] in
  '(size_i, ops_i) ← complexity (params model);
  let tr := tr ++ [Print (ComplexityLine size_i ops_i None)] in
  let alive_ch_i := alive_ch net (params model) in
  let tr := tr ++ ((λ kv, Print (AliveLine kv.1 kv.2 None)) <$> alive_ch_i) in
  let st := {| st_model := model; st_optimizer := optimizer;
               st_fs := disk env; st_trace := tr |} in
  if eval_complexity args then
    Ok {| st_model := model; st_optimizer := optimizer; st_fs := disk env;
          st_trace := tr ++ [Print (TextLine "Exit...")] |}
  else
    st ← main_loop args train_loader test_loader st;
    main_finish args size_i ops_i alive_ch_i st.

End Driver.
End Search.

(** ** Reference quantities used in the statements *)

(** The learning rates that the parameter groups hold. *)
Definition group_rates {OptState : Type} (optimizer : Optimizer OptState)
    : list (option float) :=
  (λ param_group, param_group !! "lr") <$> param_groups optimizer.

(** Sum of a per-layer dictionary, as [sum(d.values())] computes it. *)
Definition aggregate {A : Type} `{Scalar A} (d : list (string * A)) : A :=
  fold_left s_add d.*2 (s_of_Z 0).

(** Right-nested sum of a list. *)
Definition total {A : Type} `{Scalar A} (l : list A) : A := foldr s_add (s_of_Z 0) l.

Section Reference.
Context {A Params Input Output OptState : Type} `{Scalar A}.
Context (net : Network A Params Input Output OptState).

(** The predicted class of a sample equals its label. *)
Definition sample_correct (p : Params) (s : Input * Z) : bool :=
  argmax net (forward net p s.1) =? s.2.

Definition n_correct (p : Params) (samples : list (Input * Z)) : Z :=
  count_true (sample_correct p <$> samples).

(** Sum-reduced loss of one batch as the kernel computes it, and the running
    total of the batch losses over a pass. *)
Definition batch_sum (p : Params) (b : list (Input * Z)) : A :=
  loss_sum net ((λ s, forward net p s.1) <$> b) (snd <$> b).

Definition accumulated_loss (p : Params) (bs : list (list (Input * Z))) : A :=
  fold_left s_add (batch_sum p <$> bs) (s_of_Z 0).

(** The loss of a single sample: the kernel on a batch of one. *)
Definition sample_loss (p : Params) (s : Input * Z) : A := batch_sum p [s].

(** The kernel adds the losses of the samples of a batch without rounding. *)
Definition additive_loss : Prop :=
  ∀ p b, batch_sum p b = total (sample_loss p <$> b).

End Reference.

(** A loader none of whose batches holds a single sample. *)
Definition no_unit_batch {Input : Type} (ld : DataLoader Input) : Prop :=
  Forall (λ b, length b ≠ 1%nat) (batches ld).

(** A loader whose batches hold every sample of its dataset once. *)
Definition enumerates {Input : Type} (ld : DataLoader Input) : Prop :=
  concat (batches ld) ≡ₚ dataset ld.

Definition nonneg {A : Type} `{Scalar A} (x : A) : Prop :=
  s_leb (s_of_Z 0) x = true.

(** Order laws on the values comparable with zero (for binary64 these are
    the non-negative numbers and +infinity; NaN is excluded). *)
Class ScalarOrder (A : Type) `{Scalar A} : Prop := {
  ord_zero : nonneg (s_of_Z 0);
  ord_refl : ∀ x, nonneg x → s_leb x x = true;
  ord_total : ∀ x y, nonneg x → nonneg y → s_leb x y = false → s_leb y x = true;
  ord_trans : ∀ x y z, nonneg x → nonneg y → nonneg z →
    s_leb x y = true → s_leb y z = true → s_leb x z = true
}.

(** Laws of exact arithmetic. *)
Class ExactArith (A : Type) `{Scalar A} : Prop := {
  ex_add_0_l : ∀ x, s_add (s_of_Z 0) x = x;
  ex_add_comm : ∀ x y, s_add x y = s_add y x;
  ex_add_assoc : ∀ x y z, s_add x (s_add y z) = s_add (s_add x y) z;
  ex_sub_0_r : ∀ x, s_sub x (s_of_Z 0) = x;
  ex_mul_1_r : ∀ x, s_mul x (s_of_Z 1) = x;
  ex_abs_nonneg : ∀ x, nonneg x → s_abs x = x
}.

(** What the size penalty needs of the arithmetic: under the absolute
    value, subtracting zero and multiplying by one change nothing, and the
    absolute value of the sum of a dictionary that is not below zero is
    that sum.  Binary64 has these properties (a sum that starts from the
    integer 0, as [sum(d.values())] does, is never the negative zero). *)
Class PenaltyArith (A : Type) `{Scalar A} : Prop := {
  pen_unit : ∀ x, s_mul (s_abs (s_sub x (s_of_Z 0))) (s_of_Z 1) = s_abs x;
  pen_abs : ∀ d : list (string * A), nonneg (aggregate d) → s_abs (aggregate d) = aggregate d
}.

(** ** A small concrete network

    The parameter state is a counter that every optimizer step increments;
    the predicted class of any sample is the counter, and the loss term of
    a sample is the sample's own input value. *)

(** Left-to-right sum of the terms of a batch. *)
Definition reduce_sum {A : Type} `{Scalar A} (terms : list A) : A :=
  match terms with
  | [] => s_of_Z 0
  | t :: ts => fold_left s_add ts t
  end.

Definition toy_net {A : Type} `{Scalar A} : Network A Z A (Z * A) unit := {|
  forward := λ p x, (p, x);
  loss_sum := λ output _, reduce_sum (snd <$> output);
  argmax := λ out, out.1;
  batch_loss := λ _ _, s_of_Z 1;
  size_dict := λ _, [("conv1", s_of_Z 8); ("fc1", s_of_Z 4)];
  ops_dict := λ _, [("conv1", s_of_Z 16); ("fc1", s_of_Z 4)];
  alive_ch := λ _, [("conv1", s_of_Z 3)];
  backward_step := λ _ os p _ _, (p + 1, os)
|}.

Definition toy_fmt {A : Type} (x : A) : string := "0.0e+00".

Definition toy_args {A : Type} `{Scalar A} (n_epochs : Z) (dry : bool) : Args A := {|
  arch := "plain_cnn"; batch_size := 2; test_batch_size := 2; epochs := n_epochs;
  lr := 0.01%float; cd_size := s_of_Z 1; cd_ops := s_of_Z 0; size_target := s_of_Z 0;
  gamma := 0.7%float; no_cuda := true; eval_complexity := false; dry_run := dry;
  seed := 1; log_interval := 10; found_model := None
|}.

(** Four samples, three of class 1, in two batches. *)
Definition toy_samples {A : Type} `{Scalar A} : list (A * Z) :=
  [(s_of_Z 1, 1); (s_of_Z 2, 1); (s_of_Z 3, 1); (s_of_Z 4, 0)].

Definition toy_loader {A : Type} `{Scalar A} : DataLoader A :=
  {| dataset := toy_samples; batches := [take 2 toy_samples; drop 2 toy_samples] |}.

Definition toy_optimizer : Optimizer unit :=
  {| param_groups := [ <["lr" := 0.01%float]> {["weight_decay" := 1e-4%float]} ];
     opt_state := () |}.

(** A sampler that draws the order of the dataset in the even iterations
    and the reverse order in the odd ones. *)
Definition alternate {X : Type} (k : Z) (l : list X) : list X :=
  if Z.even k then l else reverse l.

(** Six samples whose loss terms are 128, 0, b, 0, b, 0 with
    b = 2^-23 + 2^-46 (binary32 values, and so is the sum of every batch
    below), enumerated in batches of two in two orders. *)
Definition tiny : float := (Z.ldexp 1 (-23) + Z.ldexp 1 (-46))%float.

Definition heavy_samples : list (float * Z) :=
  [(128%float, 0); (0%float, 0); (tiny, 0); (0%float, 0); (tiny, 0); (0%float, 0)].

Definition order_a : DataLoader float :=
  {| dataset := heavy_samples;
     batches := [[(128%float, 0); (0%float, 0)];
                 [(tiny, 0); (0%float, 0)];
                 [(tiny, 0); (0%float, 0)]] |}.

Definition order_b : DataLoader float :=
  {| dataset := heavy_samples;
     batches := [[(tiny, 0); (0%float, 0)];
                 [(tiny, 0); (0%float, 0)];
                 [(128%float, 0); (0%float, 0)]] |}.

(** The keyword arguments of a loader that shuffles, in batches of two. *)
Definition shuffling_kwargs : gmap string pyarg :=
  <["batch_size" := PInt 2]> {["shuffle" := PBool true]}.

(** ** Predicates and quantities used in the statements about the drivers *)

Definition steps_of {A Params : Type} (epoch : Z) (groups : list (gmap string float))
    (new : list (event A Params)) : Prop :=
  ∀ ev, ev ∈ new → is_step ev = true → ∃ i, ev = OptimizerStep epoch i groups.

(** [b] is the last epoch of [lo..hi] whose recorded accuracy is maximal. *)
Definition is_last_max {A : Type} `{Scalar A} (val_acc : gmap string (pyval A))
    (lo hi b : Z) : Prop :=
  lo ≤ b ≤ hi ∧
  ∃ ab, val_acc !! str b = Some (PyFloat ab) ∧
    (∀ e a, lo ≤ e ≤ hi → val_acc !! str e = Some (PyFloat a) → s_leb a ab = true) ∧
    (∀ e a, b < e ≤ hi → val_acc !! str e = Some (PyFloat a) → s_leb ab a = false).

Definition all_nonneg {A : Type} `{Scalar A} (val_acc : gmap string (pyval A))
    (hi : Z) : Prop :=
  ∀ e a, 1 ≤ e ≤ hi → val_acc !! str e = Some (PyFloat a) → nonneg a.

(** The loaders of a fine-tune run are fit for its first [n] epochs: no
    iteration yields a batch of a single sample, and the two evaluation
    splits are not empty. *)
Definition fit_for_epochs {Input : Type} (tl vl tel : Loader Input) (n : Z) : Prop :=
  ∀ e, 1 ≤ e ≤ n →
    no_unit_batch (tl e) ∧
    no_unit_batch (vl e) ∧ dataset (vl e) ≠ [] ∧
    no_unit_batch (tel e) ∧ dataset (tel e) ≠ [].

(** Bookkeeping invariant of the fine-tune epoch loop after [k] epochs of a
    run that started in [init]. *)
Definition ft_inv {A Params Input Output OptState : Type} `{Scalar A}
    (net : Network A Params Input Output OptState) (fmt_1e : A → string)
    (args : Args A) (tl vl tel : Loader Input)
    (init : FineTune.MainState (A:=A) (Params:=Params) (OptState:=OptState))
    (k : Z) (st : FineTune.MainState (A:=A) (Params:=Params) (OptState:=OptState)) : Prop :=
  0 ≤ FineTune.st_best_epoch st ≤ k ∧
  (∀ e, 0 ≤ e ≤ k → ∃ a, FineTune.st_val_acc st !! str e = Some (PyFloat a)) ∧
  (∀ e, 1 ≤ e ≤ k → ∃ t, FineTune.st_test_acc st !! str e = Some (PyFloat t)) ∧
  (FineTune.st_best_epoch st = 0 ∧ FineTune.st_fs st = FineTune.st_fs init ∨
   1 ≤ FineTune.st_best_epoch st ∧
   ∃ stb, FineTune.run_epochs net fmt_1e args tl vl tel (FineTune.st_best_epoch st) init
            = Ok stb ∧
          FineTune.st_fs st !! FineTune.checkpoint_path fmt_1e args
            = Some (params (FineTune.st_model stb))).

(** The accuracy that a run records for epoch [e] is the one that [test]
    returned, in epoch [e], for the validation loader and the model as the
    training of epoch [e] left it. *)
Definition recorded_by_test {A Params Input Output OptState : Type} `{Scalar A}
    (net : Network A Params Input Output OptState) (fmt_1e : A → string)
    (args : Args A) (tl vl tel : Loader Input)
    (init st : FineTune.MainState (A:=A) (Params:=Params) (OptState:=OptState))
    (e : Z) : Prop :=
  ∃ before trained optimizer tr evaluated r a,
    FineTune.run_epochs net fmt_1e args tl vl tel (e - 1) init = Ok before ∧
    FineTune.train net args (FineTune.st_model before) (tl e)
      (FineTune.st_optimizer before) e (FineTune.st_trace before)
      = Ok (trained, optimizer, tr) ∧
    FineTune.test net trained (vl e) "Validation" = Ok (evaluated, r, PyFloat a) ∧
    FineTune.st_val_acc st !! str e = Some (PyFloat a).

(** Contract of the checkpoint selector of the fine-tune driver, for a run
    of the epoch loop from the state [init]. *)
Definition checkpoint_selector_contract
    {A Params Input Output OptState : Type} `{Scalar A}
    (net : Network A Params Input Output OptState) (fmt_1e : A → string)
    (args : Args A) (tl vl tel : Loader Input)
    (init : FineTune.MainState (A:=A) (Params:=Params) (OptState:=OptState)) : Prop :=
  ∃ st,
    (* the loop completes; the sequence of accuracies it has recorded is
       the sequence of the values that [test] returned, epoch by epoch *)
    FineTune.main_loop net fmt_1e args tl vl tel init = Ok st ∧
    (∀ e, 1 ≤ e ≤ epochs args → recorded_by_test net fmt_1e args tl vl tel init st e) ∧
    (* for non-negative accuracies the best epoch is the last maximum, and
       it is the one the two final lines report *)
    (all_nonneg (FineTune.st_val_acc st) (epochs args) →
     let b := FineTune.st_best_epoch st in
     is_last_max (FineTune.st_val_acc st) 1 (epochs args) b ∧
     ∃ st' v t,
       FineTune.log_results st = Ok st' ∧
       FineTune.st_val_acc st !! str b = Some (PyFloat v) ∧
       FineTune.st_test_acc st !! str b = Some (PyFloat t) ∧
       FineTune.st_trace st' =
         FineTune.st_trace st ++ [Print (BestLine "Val" v b); Print (BestLine "Test" t b)]) ∧
    (* epoch 1 with a non-negative accuracy saves the first checkpoint *)
    ∃ st1,
      FineTune.main_epoch net fmt_1e args (tl 1) (vl 1) (tel 1) init 1 = Ok st1 ∧
      ∀ a, FineTune.st_val_acc st1 !! str 1 = Some (PyFloat a) → nonneg a →
        FineTune.st_best_epoch st1 = 1 ∧
        FineTune.st_fs st1 !! FineTune.checkpoint_path fmt_1e args
          = Some (params (FineTune.st_model st1)) ∧
        last (FineTune.st_trace st1)
          = Some (Save (FineTune.checkpoint_path fmt_1e args) (params (FineTune.st_model st1))).

(** The parameter groups with which epoch [e] trains when the run started
    from [optimizer]: the initial groups in epoch 1, afterwards the groups
    as [adjust_learning_rate] left them at the end of epoch [e - 1]. *)
Definition groups_in_epoch {OptState : Type} (optimizer : Optimizer OptState) (e : Z)
    : list (gmap string float) :=
  if e =? 1 then param_groups optimizer
  else param_groups (FineTune.adjust_learning_rate optimizer (e - 1)).

(** The rates carried by the optimizer steps of epoch [e] in a trace. *)
Definition step_rates {A Params : Type} (e : Z) (tr : list (event A Params))
    : list (list (option float)) :=
  omap (λ ev, match ev with
              | OptimizerStep e' _ groups =>
                  if e' =? e then Some ((λ g : gmap string float, g !! "lr") <$> groups)
                  else None
              | _ => None
              end) tr.

Definition rate_contract
    {A Params Input Output OptState : Type} `{Scalar A}
    (net : Network A Params Input Output OptState) (fmt_1e : A → string)
    (args : Args A) (tl vl tel : Loader Input)
    (init : FineTune.MainState (A:=A) (Params:=Params) (OptState:=OptState)) : Prop :=
  ∃ st new,
    FineTune.main_loop net fmt_1e args tl vl tel init = Ok st ∧
    FineTune.st_trace st = FineTune.st_trace init ++ new ∧
    (* every optimizer step of epoch e runs with the groups of epoch e - 1 *)
    (∀ e i groups, OptimizerStep e i groups ∈ new →
       1 ≤ e ≤ epochs args ∧ groups = groups_in_epoch (FineTune.st_optimizer init) e) ∧
    (* and only after the last epoch do the groups hold its scheduled rate *)
    (1 ≤ epochs args →
     param_groups (FineTune.st_optimizer st)
     = param_groups (FineTune.adjust_learning_rate (FineTune.st_optimizer init) (epochs args))).

(** What the checkpoint files hold once a run is over. *)
Definition checkpoint_contract
    {A Params Input Output OptState : Type} `{Scalar A}
    (net : Network A Params Input Output OptState) (fmt_1e : A → string)
    (args : Args A) (tl vl tel : Loader Input)
    (init ft_final : FineTune.MainState (A:=A) (Params:=Params) (OptState:=OptState))
    (env : Search.Env (Params:=Params) (Input:=Input) (OptState:=OptState))
    (search_final : Search.MainState (A:=A) (Params:=Params) (OptState:=OptState)) : Prop :=
  let suffix := arch args +:+ "_target-" +:+ fmt_1e (size_target args)
                  +:+ "_cdops-" +:+ fmt_1e (cd_ops args) +:+ ".pth.tar" in
  (* both paths are functions of (arch, size_target, cd_ops) *)
  FineTune.checkpoint_path fmt_1e args = "saved_models/ft_" +:+ suffix ∧
  Search.checkpoint_path fmt_1e args = "saved_models/srch_" +:+ suffix ∧
  (* fine-tune: the state of the model at the end of the best epoch *)
  (FineTune.main_loop net fmt_1e args tl vl tel init = Ok ft_final →
   0 < epochs args →
   all_nonneg (FineTune.st_val_acc ft_final) (epochs args) →
   let b := FineTune.st_best_epoch ft_final in
   is_last_max (FineTune.st_val_acc ft_final) 1 (epochs args) b ∧
   ∃ at_best,
     FineTune.run_epochs net fmt_1e args tl vl tel b init = Ok at_best ∧
     FineTune.st_fs ft_final !! FineTune.checkpoint_path fmt_1e args
       = Some (params (FineTune.st_model at_best))) ∧
  (* search: the state of the model after the last epoch, written once *)
  (Search.main net fmt_1e args env = Ok search_final →
   if eval_complexity args then Search.st_fs search_final = Search.disk env
   else
     Search.st_fs search_final
       = <[Search.checkpoint_path fmt_1e args := params (Search.st_model search_final)]>
           (Search.disk env) ∧
     ∃ train_loader test_loader st0 after_loop,
       Search.main_loop net args train_loader test_loader st0 = Ok after_loop ∧
       Search.st_fs after_loop = Search.disk env ∧
       Search.st_model after_loop = Search.st_model search_final).

(** ** Concrete runs of the small network *)

Definition result_or {T : Type} (d : T) (r : result T) : T :=
  match r with Ok v => v | Raise _ => d end.

(** The accuracies of the evaluation lines of a trace, in order. *)
Definition eval_accuracies {A Params : Type} (tr : list (event A Params)) : list A :=
  omap (λ ev, match ev with Print (EvalLine r) => Some (r_accuracy r) | _ => None end) tr.

Definition toy_model : Model Z := {| params := 1; training := true |}.

Definition toy_init (p : Z) : FineTune.MainState (A:=float) :=
  FineTune.main_init {| params := p; training := true |} toy_optimizer ∅ [].

Definition toy_search_env : Search.Env (Params:=Z) (Input:=float) (OptState:=unit) :=
  {| Search.cuda_is_available := false; Search.dataset1 := toy_samples;
     Search.dataset2 := toy_samples;
     Search.draw_train := alternate; Search.draw_test := alternate;
     Search.new_model := -1;
     Search.new_opt_state := (); Search.disk := ∅ |}.

Definition toy_ft_env (cuda : bool) : FineTune.Env (Params:=Z) (Input:=float) (OptState:=unit) :=
  {| FineTune.cuda_is_available := cuda; FineTune.train_set := toy_samples;
     FineTune.val_set := toy_samples; FineTune.test_set := toy_samples;
     FineTune.draw_train := alternate; FineTune.draw_val := alternate;
     FineTune.draw_test := alternate;
     FineTune.new_model := -1; FineTune.new_opt_state := (); FineTune.disk := ∅ |}.

Definition toy_search_final : Search.MainState (A:=float) :=
  result_or {| Search.st_model := toy_model; Search.st_optimizer := toy_optimizer;
               Search.st_fs := ∅; Search.st_trace := [] |}
    (Search.main toy_net toy_fmt (toy_args 3 false) toy_search_env).

Definition toy_ft_final : FineTune.MainState (A:=float) :=
  result_or (toy_init (-1))
    (FineTune.main_loop toy_net toy_fmt (toy_args 3 false)
       (λ _, toy_loader) (λ _, toy_loader) (λ _, toy_loader) (toy_init (-1))).

Definition toy_loader_swapped {A : Type} `{Scalar A} : DataLoader A :=
  {| dataset := toy_samples; batches := [drop 2 toy_samples; take 2 toy_samples] |}.

(** ** Further quantities, contracts and concrete inputs *)

(** State of the parameters and of the optimizer after the steps of a list
    of batches, one after the other ([loss_of p b] is the loss that is
    back-propagated for batch [b] at parameters [p]). *)
Definition steps_through {A Params Input Output OptState : Type}
    (net : Network A Params Input Output OptState)
    (groups : list (gmap string float)) (loss_of : Params → list (Input * Z) → A)
    (bs : list (list (Input * Z))) (start : Params * OptState) : Params * OptState :=
  fold_left (λ s b, backward_step net groups s.2 s.1 b (loss_of s.1 b)) bs start.

(** The loss that the search driver back-propagates for batch [b] at
    parameters [p]: classification loss plus the two complexity penalties. *)
Definition search_objective {A Params Input Output OptState : Type} `{Scalar A}
    (net : Network A Params Input Output OptState) (args : Args A)
    (p : Params) (b : list (Input * Z)) : A :=
  s_add (batch_loss net p b)
    (s_add (s_mul (s_abs (s_sub (aggregate (size_dict net p)) (size_target args)))
                  (cd_size args))
           (s_mul (aggregate (ops_dict net p)) (cd_ops args))).

(** Number of batch indices [first, first + n) on which a progress line is due. *)
Definition log_points (log_interval first : Z) (n : nat) : Z :=
  count_true ((λ i, i `mod` log_interval =? 0) <$> seqZ first (Z.of_nat n)).

Definition zero_interval_args : Args float := {|
  arch := "plain_dscnn"; batch_size := 2; test_batch_size := 2; epochs := 1;
  lr := 0.01%float; cd_size := 0%float; cd_ops := 0%float; size_target := 0%float;
  gamma := 0.7%float; no_cuda := false; eval_complexity := false; dry_run := false;
  seed := 1; log_interval := 0; found_model := None
|}.

(** The optimizer after [k] calls of [scheduler.step()]. *)
Definition decayed {OptState : Type} (gamma : float) (k : nat)
    (optimizer : Optimizer OptState) : Optimizer OptState :=
  Nat.iter k (Search.scheduler_step gamma) optimizer.

(** What the search driver's epoch loop does to the learning rate. *)
Definition decay_contract
    {A Params Input Output OptState : Type} `{Scalar A}
    (net : Network A Params Input Output OptState)
    (args : Args A) (tl tel : Loader Input)
    (init : Search.MainState (A:=A) (Params:=Params) (OptState:=OptState)) : Prop :=
  ∃ st new,
    Search.main_loop net args tl tel init = Ok st ∧
    Search.st_trace st = Search.st_trace init ++ new ∧
    (* epoch e trains with the groups after e - 1 scheduler steps *)
    (∀ e i groups, OptimizerStep e i groups ∈ new →
       1 ≤ e ≤ epochs args ∧
       groups = param_groups (decayed (gamma args) (Z.to_nat (e - 1)) (Search.st_optimizer init))) ∧
    (* at the end the scheduler has stepped once per epoch *)
    param_groups (Search.st_optimizer st)
      = param_groups (decayed (gamma args) (Z.to_nat (epochs args)) (Search.st_optimizer init)) ∧
    (* k steps multiply every rate k times by gamma *)
    (∀ k, group_rates (decayed (gamma args) k (Search.st_optimizer init))
          = (λ r : option float, Nat.iter k (λ x, PrimFloat.mul x (gamma args)) <$> r)
              <$> group_rates (Search.st_optimizer init)).

Definition toy_search_init : Search.MainState (A:=float) :=
  {| Search.st_model := toy_model; Search.st_optimizer := toy_optimizer;
     Search.st_fs := ∅; Search.st_trace := [] |}.

Definition is_save {A Params : Type} (e : event A Params) : bool :=
  match e with Save _ _ => true | _ => false end.

Definition is_print {A Params : Type} (e : event A Params) : bool :=
  match e with Print _ => true | _ => false end.

(** Whether a run of either driver uses CUDA. *)
Definition use_cuda {A : Type} (args : Args A) (cuda_is_available : bool) : bool :=
  negb (no_cuda args) && cuda_is_available.

(** A sampler draws the samples of the dataset in some order. *)
Definition draws_orders {X : Type} (draw : Z → list X → list X) : Prop :=
  ∀ k l, draw k l ≡ₚ l.

(** The state in which the fine-tune driver enters its epoch loop. *)
Definition ft_start {A Params Input OptState : Type} `{Scalar A}
    (args : Args A) (env : FineTune.Env (Params:=Params) (Input:=Input) (OptState:=OptState))
    : FineTune.MainState (A:=A) :=
  FineTune.main_init
    {| params := FineTune.new_model env; training := true |}
    {| param_groups := [ <["lr" := lr args]> {["weight_decay" := 1e-4%float]} ];
       opt_state := FineTune.new_opt_state env |}
    (FineTune.disk env)
    [Print (TextLine "We will download data to data/");
     Download "data/";
     Print (TextLine "Done getting data");
     Print (TextLine ("=> creating model '" +:+ arch args +:+ "'"))].

Definition toy_cuda_args {A : Type} `{Scalar A} (n_epochs : Z) (complexity_only : bool)
    : Args A := {|
  arch := "plain_cnn"; batch_size := 2; test_batch_size := 2; epochs := n_epochs;
  lr := 0.01%float; cd_size := s_of_Z 1; cd_ops := s_of_Z 0; size_target := s_of_Z 0;
  gamma := 0.7%float; no_cuda := false; eval_complexity := complexity_only; dry_run := false;
  seed := 1; log_interval := 10; found_model := None
|}.

(** A run with [--batch-size 1]. *)
Definition unit_batch_args {A : Type} `{Scalar A} (n_epochs : Z) : Args A := {|
  arch := "plain_cnn"; batch_size := 1; test_batch_size := 2; epochs := n_epochs;
  lr := 0.01%float; cd_size := s_of_Z 1; cd_ops := s_of_Z 0; size_target := s_of_Z 0;
  gamma := 0.7%float; no_cuda := false; eval_complexity := false; dry_run := false;
  seed := 1; log_interval := 10; found_model := None
|}.

(** A stretch of a trace in which no checkpoint is written. *)
Definition no_saves {A Params : Type} (tr : list (event A Params)) : Prop :=
  Forall (λ ev, is_save ev = false) tr.

(** A stretch of a trace that only prints. *)
Definition only_prints {A Params : Type} (tr : list (event A Params)) : Prop :=
  Forall (λ ev, is_print ev = true) tr.

(** The state in which the search driver enters its epoch loop: the model
    has gone through the dummy test step, whose report is [r]. *)
Definition search_start {A Params Input Output OptState : Type} `{Scalar A}
    (net : Network A Params Input Output OptState) (args : Args A)
    (env : Search.Env (Params:=Params) (Input:=Input) (OptState:=OptState))
    (r : report A) : Search.MainState (A:=A) :=
  let p := Search.new_model env in
  {| Search.st_model := {| params := p; training := false |};
     Search.st_optimizer :=
       {| param_groups := [ {["lr" := lr args]} ]; opt_state := Search.new_opt_state env |};
     Search.st_fs := Search.disk env;
     Search.st_trace :=
       [Download "data";
        Print (TextLine ("=> creating model '" +:+ arch args +:+ "'"));
        Print (EvalLine r);
        Print (ComplexityLine (aggregate (size_dict net p)) (aggregate (ops_dict net p)) None)]
       ++ ((λ kv, Print (AliveLine kv.1 kv.2 None)) <$> alive_ch net p) |}.

(** What a completed run of the search driver (without
    [--eval-complexity]) leaves behind. *)
Definition search_run_contract {A Params Input Output OptState : Type} `{Scalar A}
    (net : Network A Params Input Output OptState) (fmt_1e : A → string) (args : Args A)
    (env : Search.Env (Params:=Params) (Input:=Input) (OptState:=OptState)) : Prop :=
  let shuffle := use_cuda args (Search.cuda_is_available env) in
  ∃ st r after_loop,
    Search.main net fmt_1e args env = Ok st ∧
    (* the epoch loop starts from the freshly built model and completes *)
    Search.main_loop net args
      (loader_of (Search.draw_train env) shuffle (Search.dataset1 env) (batch_size args))
      (loader_of (Search.draw_test env) shuffle (Search.dataset2 env) (test_batch_size args))
      (search_start net args env r) = Ok after_loop ∧
    (* the model is the one the loop produced, left in evaluation mode *)
    Search.st_model st = Search.st_model after_loop ∧
    training (Search.st_model st) = false ∧
    (* the rate has been multiplied by gamma once per epoch *)
    group_rates (Search.st_optimizer st)
      = [Some (Nat.iter (Z.to_nat (epochs args)) (λ x, PrimFloat.mul x (gamma args)) (lr args))] ∧
    (* the checkpoint is written last, after lines that only print *)
    Search.st_fs st
      = <[Search.checkpoint_path fmt_1e args := params (Search.st_model st)]> (Search.disk env) ∧
    ∃ lines,
      Search.st_trace st = Search.st_trace after_loop ++ lines ++
        [Save (Search.checkpoint_path fmt_1e args) (params (Search.st_model st))] ∧
      only_prints lines.

Definition toy_cuda_search_env : Search.Env (Params:=Z) (Input:=float) (OptState:=unit) :=
  {| Search.cuda_is_available := true; Search.dataset1 := toy_samples;
     Search.dataset2 := toy_samples;
     Search.draw_train := alternate; Search.draw_test := alternate;
     Search.new_model := -1;
     Search.new_opt_state := (); Search.disk := {["notes.txt" := 7]} |}.

(** A binary64 value that is not NaN and not below zero. *)
Definition sf_nonneg (v : spec_float) : bool :=
  match v with
  | S754_zero _ => true
  | S754_infinity s | S754_finite s _ _ => negb s
  | S754_nan => false
  end.

(** The percentage of a count among [n < 2^53] items is comparable with,
    and not below, zero. *)
Class PercentageOrder (A : Type) `{Scalar A} : Prop :=
  percent_nonneg : ∀ c n : Z, 0 ≤ c ≤ n → 0 < n < 2 ^ 53 →
    nonneg (s_div (s_mul (s_of_Z 100) (s_of_Z c)) (s_of_Z n)).

(** The splits and batch sizes with which the fine-tune driver gets through
    its data preparation and its epochs: no split is empty, and no batch
    size leaves a last batch of a single sample. *)
Definition well_batched {X : Type} (split : list X) (n : Z) : Prop :=
  split ≠ [] ∧ 1 < n ∧ Z.of_nat (length split) `mod` n ≠ 1.

(** What a completed run of the fine-tune driver leaves behind. *)
Definition fine_tune_run_contract {A Params Input Output OptState : Type} `{Scalar A}
    (net : Network A Params Input Output OptState) (fmt_1e : A → string) (args : Args A)
    (env : FineTune.Env (Params:=Params) (Input:=Input) (OptState:=OptState)) : Prop :=
  let tl := loader_of (FineTune.draw_train env) true (FineTune.train_set env) (batch_size args) in
  let vl := loader_of (FineTune.draw_val env) true (FineTune.val_set env) (test_batch_size args) in
  let tel := loader_of (FineTune.draw_test env) true (FineTune.test_set env) (test_batch_size args) in
  ∃ st after_loop at_best v t,
    FineTune.main net fmt_1e args env = Ok st ∧
    FineTune.main_loop net fmt_1e args tl vl tel (ft_start args env) = Ok after_loop ∧
    let b := FineTune.st_best_epoch st in
    (* the best epoch is the last one of maximal validation accuracy *)
    is_last_max (FineTune.st_val_acc st) 1 (epochs args) b ∧
    (* the two final lines report its accuracies *)
    FineTune.st_val_acc st !! str b = Some (PyFloat v) ∧
    FineTune.st_test_acc st !! str b = Some (PyFloat t) ∧
    FineTune.st_trace st = FineTune.st_trace after_loop ++
      [Print (BestLine "Val" v b); Print (BestLine "Test" t b)] ∧
    (* the checkpoint holds the parameters of the end of the best epoch *)
    FineTune.run_epochs net fmt_1e args tl vl tel b (ft_start args env) = Ok at_best ∧
    FineTune.st_fs st !! FineTune.checkpoint_path fmt_1e args
      = Some (params (FineTune.st_model at_best)) ∧
    (* the optimizer holds the rate scheduled for the last epoch *)
    param_groups (FineTune.st_optimizer st)
      = param_groups (FineTune.adjust_learning_rate
                        (FineTune.st_optimizer (ft_start args env)) (epochs args)).

(** A network like [toy_net] whose model tracks no layer. *)
Definition bare_net {A : Type} `{Scalar A} : Network A Z A (Z * A) unit := {|
  forward := λ p x, (p, x);
  loss_sum := λ output _, reduce_sum (snd <$> output);
  argmax := λ out, out.1;
  batch_loss := λ _ _, s_of_Z 1;
  size_dict := λ _, [];
  ops_dict := λ _, [];
  alive_ch := λ _, [];
  backward_step := λ _ os p _ _, (p + 1, os)
|}.

Definition empty_search_env : Search.Env (Params:=Z) (Input:=float) (OptState:=unit) :=
  {| Search.cuda_is_available := false; Search.dataset1 := toy_samples;
     Search.dataset2 := [];
     Search.draw_train := alternate; Search.draw_test := alternate;
     Search.new_model := -1;
     Search.new_opt_state := (); Search.disk := ∅ |}.

Definition empty_ft_env : FineTune.Env (Params:=Z) (Input:=float) (OptState:=unit) :=
  {| FineTune.cuda_is_available := true; FineTune.train_set := toy_samples;
     FineTune.val_set := []; FineTune.test_set := toy_samples;
     FineTune.draw_train := alternate; FineTune.draw_val := alternate;
     FineTune.draw_test := alternate;
     FineTune.new_model := -1; FineTune.new_opt_state := (); FineTune.disk := ∅ |}.

(** The module dictionary [models.__dict__] is a list of pairs (name, is
    the bound object callable) in insertion order; names are ASCII. *)
Definition is_ascii_upper (c : Ascii.ascii) : bool :=
  ((65 <=? Ascii.N_of_ascii c) && (Ascii.N_of_ascii c <=? 90))%N.

Definition is_ascii_lower (c : Ascii.ascii) : bool :=
  ((97 <=? Ascii.N_of_ascii c) && (Ascii.N_of_ascii c <=? 122))%N.

Fixpoint any_char (f : Ascii.ascii → bool) (s : string) : bool :=
  match s with
  | EmptyString => false
  | String c s' => f c || any_char f s'
  end.

(** [str.islower()]: at least one cased character and no uppercase one. *)
Definition islower (s : string) : bool :=
  any_char is_ascii_lower s && negb (any_char is_ascii_upper s).

(** [s.startswith(prefix)] *)
Definition startswith (s prefix : string) : bool := String.prefix prefix s.

(** The order of [sorted] on [str]: lexicographic on the code points. *)
Definition str_le (a b : string) : Prop := String.leb a b = true.

#[global] Instance str_le_dec (a b : string) : Decision (str_le a b) :=
  decide (String.leb a b = true).

Definition model_names (module_dict : list (string * bool)) : list string :=
  merge_sort str_le
    (filter (λ kv : string * bool,
               Is_true (islower kv.1 && negb (startswith kv.1 "__") && kv.2))
            module_dict).*1.


(** * Lemmas and theorems *)

(** ** The result monad and [for_each] *)

Lemma bind_Ok {T U : Type} (v : T) (k : T → result U) : (Ok v ≫= k) = k v.
Proof. reflexivity. Qed.

Lemma bind_Ok_inv {T U : Type} (r : result T) (k : T → result U) (u : U) :
  (r ≫= k) = Ok u → ∃ v, r = Ok v ∧ k v = Ok u.
Proof. destruct r as [v|e]; simpl; [eauto | discriminate]. Qed.

Lemma for_each_snoc {S X : Type} (body : S → X → result S) (xs : list X) (x : X) (s : S) :
  for_each body (xs ++ [x]) s = (for_each body xs s ≫= λ s', body s' x).
Proof.
  revert s. induction xs as [|y xs IH]; intros s; simpl.
  - destruct (body s x); reflexivity.
  - destruct (body s y) as [s1|e]; simpl; [apply IH | reflexivity].
Qed.

Lemma seqZ_snoc (n : nat) : seqZ 1 (Z.of_nat (S n)) = seqZ 1 (Z.of_nat n) ++ [Z.of_nat (S n)].
Proof.
  replace (Z.of_nat (S n)) with (Z.of_nat n + 1) at 1 by lia.
  rewrite seqZ_app by lia. f_equal.
  replace (1 + Z.of_nat n) with (Z.of_nat (S n)) by lia. reflexivity.
Qed.

(** ** The input of the fine-tune model *)

Lemma model_input_ok {X : Type} (b : list X) : length b ≠ 1%nat → model_input b = Ok b.
Proof.
  intros Hb. unfold model_input, squeeze0_ndim.
  destruct (Nat.eqb_spec (length b) 1%nat) as [|_]; [contradiction | reflexivity].
Qed.

Lemma model_input_unit {X : Type} (b : list X) :
  length b = 1%nat → model_input b = Raise IndexError.
Proof. intros Hb. unfold model_input, squeeze0_ndim. rewrite Hb. reflexivity. Qed.

Lemma model_input_Ok_inv {X : Type} (b b' : list X) :
  model_input b = Ok b' → length b ≠ 1%nat ∧ b' = b.
Proof.
  intros Hb. destruct (Nat.eq_dec (length b) 1%nat) as [H1|H1].
  - rewrite (model_input_unit b H1) in Hb. discriminate.
  - rewrite (model_input_ok b H1) in Hb. split; [exact H1 | congruence].
Qed.

(** ** Counting and summing *)

Lemma count_true_app (l1 l2 : list bool) :
  count_true (l1 ++ l2) = count_true l1 + count_true l2.
Proof. induction l1 as [|h l1 IH]; simpl; [reflexivity | rewrite IH; lia]. Qed.

Lemma count_true_bounds (l : list bool) : 0 ≤ count_true l ≤ Z.of_nat (length l).
Proof. induction l as [|[] l IH]; simpl length; simpl count_true; lia. Qed.

Section EvalLemmas.
Context {A Params Input Output OptState : Type} `{Scalar A}.
Context (net : Network A Params Input Output OptState).

Lemma n_correct_app (p : Params) (l1 l2 : list (Input * Z)) :
  n_correct net p (l1 ++ l2) = n_correct net p l1 + n_correct net p l2.
Proof. unfold n_correct. rewrite fmap_app. apply count_true_app. Qed.

Lemma n_correct_perm (p : Params) (l1 l2 : list (Input * Z)) :
  l1 ≡ₚ l2 → n_correct net p l1 = n_correct net p l2.
Proof.
  unfold n_correct. induction 1 as [|x l l' _ IH|x y l|l l' l'' _ IH1 _ IH2]; csimpl.
  - reflexivity.
  - rewrite IH. reflexivity.
  - lia.
  - congruence.
Qed.

Lemma n_correct_bounds (p : Params) (l : list (Input * Z)) :
  0 ≤ n_correct net p l ≤ Z.of_nat (length l).
Proof.
  unfold n_correct. pose proof (count_true_bounds (sample_correct net p <$> l)) as Hb.
  rewrite length_fmap in Hb. exact Hb.
Qed.

Lemma eval_batch_unfold (p : Params) (acc : A * Z) (b : list (Input * Z)) :
  eval_batch net p acc b = (s_add acc.1 (batch_sum net p b), acc.2 + n_correct net p b).
Proof.
  unfold eval_batch, batch_sum, n_correct. f_equal. f_equal. f_equal.
  induction b as [|s b IH]; simpl; [reflexivity | f_equal; exact IH].
Qed.

Lemma fold_eval_batch (p : Params) (bs : list (list (Input * Z))) (acc : A * Z) :
  fold_left (eval_batch net p) bs acc =
  (fold_left s_add (batch_sum net p <$> bs) acc.1, acc.2 + n_correct net p (concat bs)).
Proof.
  revert acc. induction bs as [|b bs IH]; intros [l c]; simpl.
  - unfold n_correct. simpl. f_equal. lia.
  - rewrite IH, eval_batch_unfold. simpl. rewrite n_correct_app. f_equal. lia.
Qed.

(** The loop of the fine-tune [test]: it gets through the batches when none
    of them holds a single sample, and stops with [IndexError] at the first
    one that does. *)
Lemma ft_eval_loop_ok (p : Params) (bs : list (list (Input * Z))) (acc : A * Z) :
  Forall (λ b, length b ≠ 1%nat) bs →
  for_each (λ acc b, b ← model_input b; Ok (eval_batch net p acc b)) bs acc
  = Ok (fold_left (eval_batch net p) bs acc).
Proof.
  intros Hbs. revert acc. induction Hbs as [|b bs Hb _ IH]; intros acc; simpl.
  - reflexivity.
  - rewrite (model_input_ok b Hb). simpl. apply IH.
Qed.

Lemma ft_eval_loop_unit (p : Params) (bs : list (list (Input * Z))) (acc : A * Z) :
  Exists (λ b, length b = 1%nat) bs →
  for_each (λ acc b, b ← model_input b; Ok (eval_batch net p acc b)) bs acc
  = Raise IndexError.
Proof.
  revert acc. induction bs as [|b bs IH]; intros acc Hex.
  - inversion Hex.
  - simpl. destruct (Nat.eq_dec (length b) 1%nat) as [H1|H1].
    + rewrite (model_input_unit b H1). reflexivity.
    + rewrite (model_input_ok b H1). simpl. apply IH.
      inversion Hex; subst; [contradiction | assumption].
Qed.

Lemma ft_eval_loop_Ok_inv (p : Params) (bs : list (list (Input * Z))) (acc acc' : A * Z) :
  for_each (λ acc b, b ← model_input b; Ok (eval_batch net p acc b)) bs acc = Ok acc' →
  Forall (λ b, length b ≠ 1%nat) bs.
Proof.
  intros Hok. apply Forall_forall. intros b Hb Hlen.
  rewrite ft_eval_loop_unit in Hok; [discriminate|].
  apply Exists_exists. exists b. split; [exact Hb | exact Hlen].
Qed.

(** Closed form of the two [test] functions. *)
Lemma ft_test_unfold (m : Model Params) (ld : DataLoader Input) (scope : string) :
  no_unit_batch ld →
  FineTune.test net m ld scope =
  let n := Z.of_nat (length (dataset ld)) in
  let correct := n_correct net (params m) (concat (batches ld)) in
  if n =? 0 then Raise ZeroDivisionError
  else Ok (model_eval m,
           {| r_scope := scope;
              r_loss := s_div (accumulated_loss net (params m) (batches ld)) (s_of_Z n);
              r_correct := correct; r_total := n;
              r_accuracy := s_div (s_mul (s_of_Z 100) (s_of_Z correct)) (s_of_Z n) |},
           PyFloat (s_div (s_mul (s_of_Z 100) (s_of_Z correct)) (s_of_Z n))).
Proof.
  intros Hbs. unfold FineTune.test. cbn [params model_eval].
  rewrite (ft_eval_loop_ok _ _ _ Hbs), fold_eval_batch. simpl.
  unfold py_div. destruct (Z.of_nat (length (dataset ld)) =? 0); reflexivity.
Qed.

Lemma ft_test_unit_batch (m : Model Params) (ld : DataLoader Input) (scope : string) :
  Exists (λ b, length b = 1%nat) (batches ld) →
  FineTune.test net m ld scope = Raise IndexError.
Proof.
  intros Hex. unfold FineTune.test. cbn [params model_eval].
  rewrite (ft_eval_loop_unit _ _ _ Hex). reflexivity.
Qed.

Lemma ft_test_Ok_no_unit (m m' : Model Params) (ld : DataLoader Input) (scope : string)
    (r : report A) (v : pyval A) :
  FineTune.test net m ld scope = Ok (m', r, v) → no_unit_batch ld.
Proof.
  intros Hok. unfold FineTune.test in Hok. apply bind_Ok_inv in Hok as (acc & Hloop & _).
  eapply ft_eval_loop_Ok_inv, Hloop.
Qed.

Lemma search_test_unfold (m : Model Params) (ld : DataLoader Input) :
  Search.test net m ld =
  let n := Z.of_nat (length (dataset ld)) in
  let correct := n_correct net (params m) (concat (batches ld)) in
  if n =? 0 then Raise ZeroDivisionError
  else Ok (model_eval m,
           {| r_scope := "Test";
              r_loss := s_div (accumulated_loss net (params m) (batches ld)) (s_of_Z n);
              r_correct := correct; r_total := n;
              r_accuracy := s_div (s_mul (s_of_Z 100) (s_of_Z correct)) (s_of_Z n) |},
           PyNone).
Proof.
  unfold Search.test. rewrite fold_eval_batch. simpl.
  unfold py_div. destruct (Z.of_nat (length (dataset ld)) =? 0); reflexivity.
Qed.

End EvalLemmas.

(** ** Exact rational arithmetic satisfies the laws *)

#[global] Instance Q_exact : ExactArith Q.
Proof.
  split; simpl.
  - intros [n d]. unfold Qplus. simpl. f_equal. lia.
  - intros [n1 d1] [n2 d2]. unfold Qplus. simpl. f_equal; lia.
  - intros [n1 d1] [n2 d2] [n3 d3]. unfold Qplus. simpl. f_equal; [|lia].
    rewrite !Pos2Z.inj_mul. ring.
  - intros [n d]. unfold Qminus, Qplus. simpl. f_equal; lia.
  - intros [n d]. unfold Qmult. simpl. f_equal; lia.
  - intros [n d]. unfold nonneg. simpl. unfold Qle_bool. simpl.
    intros Hn. unfold Qabs. f_equal. apply Z.abs_eq. lia.
Qed.

#[global] Instance Q_order : ScalarOrder Q.
Proof.
  split; unfold nonneg; simpl.
  - reflexivity.
  - intros x _. apply Qle_bool_iff. apply Qle_refl.
  - intros x y _ _ Hxy. apply Qle_bool_iff.
    destruct (Qlt_le_dec y x) as [Hlt|Hle].
    + apply Qlt_le_weak, Hlt.
    + apply Qle_bool_iff in Hle. congruence.
  - intros x y z _ _ _ Hxy Hyz. apply Qle_bool_iff.
    apply Qle_bool_iff in Hxy, Hyz. eapply Qle_trans; eauto.
Qed.

(** ** Binary64 comparison is a total preorder away from NaN *)

Ltac cases_compare :=
  repeat match goal with
  | H : context [Z.compare ?a ?b] |- _ => destruct (Z.compare_spec a b)
  | |- context [Z.compare ?a ?b] => destruct (Z.compare_spec a b)
  | H : context [Pos.compare ?a ?b] |- _ => destruct (Pos.compare_spec a b)
  | |- context [Pos.compare ?a ?b] => destruct (Pos.compare_spec a b)
  end.

Lemma SFleb_refl (x : spec_float) : x ≠ S754_nan → SFleb x x = true.
Proof.
  intros Hx. unfold SFleb, SFcompare.
  destruct x as [s|s| |s m e]; try destruct s; try reflexivity; try congruence;
    change (Pos.compare_cont Eq m m) with (Pos.compare m m);
    rewrite Z.compare_refl, Pos.compare_refl; reflexivity.
Qed.

Lemma SFleb_total (x y : spec_float) :
  x ≠ S754_nan → y ≠ S754_nan → SFleb x y = false → SFleb y x = true.
Proof.
  intros Hx Hy. unfold SFleb, SFcompare.
  destruct x as [sx|sx| |sx mx ex], y as [sy|sy| |sy my ey];
    try congruence; try destruct sx; try destruct sy; simpl;
    try reflexivity; try discriminate;
    change (Pos.compare_cont Eq mx my) with (Pos.compare mx my);
    change (Pos.compare_cont Eq my mx) with (Pos.compare my mx);
    cases_compare; simpl; intros; try reflexivity; try discriminate; lia.
Qed.

Lemma SFleb_trans (x y z : spec_float) :
  SFleb x y = true → SFleb y z = true → SFleb x z = true.
Proof.
  unfold SFleb, SFcompare.
  destruct x as [sx|sx| |sx mx ex], y as [sy|sy| |sy my ey], z as [sz|sz| |sz mz ez];
    try destruct sx; try destruct sy; try destruct sz; simpl;
    try reflexivity; try discriminate;
    change (Pos.compare_cont Eq mx my) with (Pos.compare mx my);
    change (Pos.compare_cont Eq my mz) with (Pos.compare my mz);
    change (Pos.compare_cont Eq mx mz) with (Pos.compare mx mz);
    cases_compare; simpl; intros; try reflexivity; try discriminate; lia.
Qed.

Lemma float_zero_spec : Prim2SF (float_of_Z 0) = S754_zero false.
Proof. reflexivity. Qed.

Lemma float_nonneg_not_nan (x : float) : nonneg x → Prim2SF x ≠ S754_nan.
Proof.
  unfold nonneg. simpl. rewrite leb_spec, float_zero_spec. intros Hle Hnan.
  rewrite Hnan in Hle. discriminate.
Qed.

#[global] Instance float_order : ScalarOrder float.
Proof.
  split.
  - reflexivity.
  - intros x Hx. simpl. rewrite leb_spec. apply SFleb_refl, float_nonneg_not_nan, Hx.
  - intros x y Hx Hy. simpl. rewrite !leb_spec.
    apply SFleb_total; apply float_nonneg_not_nan; assumption.
  - intros x y z _ _ _. simpl. rewrite !leb_spec. apply SFleb_trans.
Qed.

(** ** Sums under exact arithmetic *)

Section ExactSums.
Context {A : Type} `{ExactArith A}.

Lemma ex_add_0_r (x : A) : s_add x (s_of_Z 0) = x.
Proof. rewrite ex_add_comm. apply ex_add_0_l. Qed.

Lemma fold_left_total (l : list A) (a : A) : fold_left s_add l a = s_add a (total l).
Proof.
  revert a. induction l as [|x l IH]; intros a; simpl.
  - symmetry. apply ex_add_0_r.
  - rewrite IH. symmetry. apply ex_add_assoc.
Qed.

Lemma reduce_sum_total (l : list A) : reduce_sum l = total l.
Proof. destruct l as [|x l]; simpl; [reflexivity | apply fold_left_total]. Qed.

Lemma total_app (l1 l2 : list A) : total (l1 ++ l2) = s_add (total l1) (total l2).
Proof.
  induction l1 as [|x l1 IH]; simpl.
  - symmetry. apply ex_add_0_l.
  - rewrite IH. apply ex_add_assoc.
Qed.

Lemma total_perm (l1 l2 : list A) : l1 ≡ₚ l2 → total l1 = total l2.
Proof.
  induction 1 as [|x l l' _ IH|x y l|l l' l'' _ IH1 _ IH2]; simpl.
  - reflexivity.
  - rewrite IH. reflexivity.
  - rewrite !ex_add_assoc. f_equal. apply ex_add_comm.
  - congruence.
Qed.

(** The kernel of the small network adds without rounding when the
    arithmetic is exact. *)
Lemma toy_net_additive : additive_loss (toy_net (A:=A)).
Proof.
  intros p b. unfold batch_sum, sample_loss, batch_sum. cbn [loss_sum toy_net forward].
  rewrite reduce_sum_total. induction b as [|s b IH]; [reflexivity|].
  csimpl. rewrite IH. reflexivity.
Qed.

End ExactSums.

Section ExactLoss.
Context {A Params Input Output OptState : Type} `{ExactArith A}.
Context (net : Network A Params Input Output OptState).
Context (Hadd : additive_loss net).

Lemma accumulated_loss_total (p : Params) (bs : list (list (Input * Z))) :
  accumulated_loss net p bs = total (sample_loss net p <$> concat bs).
Proof.
  unfold accumulated_loss. rewrite fold_left_total, ex_add_0_l.
  induction bs as [|b bs IH]; [reflexivity|].
  rewrite fmap_cons. change (concat (b :: bs)) with (b ++ concat bs).
  rewrite fmap_app, total_app, <- IH. simpl. f_equal. apply Hadd.
Qed.

Lemma accumulated_loss_perm (p : Params) (bs1 bs2 : list (list (Input * Z))) :
  concat bs1 ≡ₚ concat bs2 → accumulated_loss net p bs1 = accumulated_loss net p bs2.
Proof.
  intros Hp. rewrite !accumulated_loss_total. apply total_perm.
  apply fmap_Permutation, Hp.
Qed.

End ExactLoss.

Lemma length_nonzero {X : Type} (l : list X) : l ≠ [] → (Z.of_nat (length l) =? 0) = false.
Proof. intros Hl. apply Z.eqb_neq. destruct l; [congruence | simpl; lia]. Qed.

Section EvalTheorems.
Context {A Params Input Output OptState : Type} `{Scalar A}.
Context (net : Network A Params Input Output OptState).

(** C8 (amended).  For a loader that enumerates a non-empty dataset of N
    samples, both evaluation loops report the mean loss (the running total
    of the sum-reduced batch losses divided by N), the number of correct
    predictions (samples whose argmax equals the label) and the accuracy
    100 * correct / N.  The search driver's [test] has no return statement
    and hands back [None].  The fine-tune driver's [test] returns the
    accuracy when no batch holds a single sample, and raises [IndexError]
    when one does.  When the kernel and the running total add without
    rounding, the accumulated loss is the sum of the losses of the
    samples. *)
Theorem test_reports_mean_loss_and_accuracy
    (m : Model Params) (ld : DataLoader Input) (scope : string) :
  dataset ld ≠ [] →
  enumerates ld →
  let n := Z.of_nat (length (dataset ld)) in
  let correct := n_correct net (params m) (dataset ld) in
  let acc := s_div (s_mul (s_of_Z 100) (s_of_Z correct)) (s_of_Z n) in
  let mean_loss := s_div (accumulated_loss net (params m) (batches ld)) (s_of_Z n) in
  Search.test net m ld =
    Ok (model_eval m,
        {| r_scope := "Test"; r_loss := mean_loss; r_correct := correct;
           r_total := n; r_accuracy := acc |},
        PyNone) ∧
  (no_unit_batch ld →
   FineTune.test net m ld scope =
     Ok (model_eval m,
         {| r_scope := scope; r_loss := mean_loss; r_correct := correct;
            r_total := n; r_accuracy := acc |},
         PyFloat acc)) ∧
  (¬ no_unit_batch ld → FineTune.test net m ld scope = Raise IndexError) ∧
  (ExactArith A → additive_loss net →
   accumulated_loss net (params m) (batches ld)
   = total (sample_loss net (params m) <$> dataset ld)).
Proof.
  intros Hne Hperm n correct acc mean_loss.
  assert (Hn : (n =? 0) = false) by (apply length_nonzero, Hne).
  assert (Hc : n_correct net (params m) (concat (batches ld)) = correct)
    by (apply n_correct_perm, Hperm).
  split; [|split; [|split]].
  - rewrite search_test_unfold. cbv zeta. fold n. rewrite Hn, Hc. reflexivity.
  - intros Hbs. rewrite ft_test_unfold by exact Hbs. cbv zeta. fold n.
    rewrite Hn, Hc. reflexivity.
  - intros Hbs. apply ft_test_unit_batch. apply not_Forall_Exists in Hbs; [|solve_decision].
    eapply Exists_impl; [exact Hbs|]. simpl. intros b Hb. lia.
  - intros Hex Hadd. rewrite (accumulated_loss_total net Hadd).
    apply total_perm, fmap_Permutation, Hperm.
Qed.

(** C9 (amended).  Evaluation leaves the parameters alone.  Of two calls in
    succession on two iterations of a loader over a non-empty dataset, each
    iteration yielding every sample once, the second one reports the same
    number of correct predictions and the same accuracy and returns the
    same value as the first; it reports the same mean loss when both
    iterations yield the same batches, or when the additions are exact.
    For the fine-tune driver no batch may hold a single sample. *)
Theorem test_is_idempotent
    (m : Model Params) (first second : DataLoader Input) (scope : string) :
  dataset first = dataset second →
  dataset first ≠ [] →
  enumerates first →
  enumerates second →
  params (model_eval m) = params m ∧
  (∃ q1 q2 w,
     Search.test net m first = Ok (model_eval m, q1, w) ∧
     Search.test net (model_eval m) second = Ok (model_eval m, q2, w) ∧
     r_correct q1 = r_correct q2 ∧ r_total q1 = r_total q2 ∧
     r_accuracy q1 = r_accuracy q2 ∧
     (batches first = batches second → q1 = q2) ∧
     (ExactArith A → additive_loss net → q1 = q2)) ∧
  (no_unit_batch first → no_unit_batch second →
   ∃ r1 r2 v,
     FineTune.test net m first scope = Ok (model_eval m, r1, v) ∧
     FineTune.test net (model_eval m) second scope = Ok (model_eval m, r2, v) ∧
     r_correct r1 = r_correct r2 ∧ r_total r1 = r_total r2 ∧
     r_accuracy r1 = r_accuracy r2 ∧
     (batches first = batches second → r1 = r2) ∧
     (ExactArith A → additive_loss net → r1 = r2)).
Proof.
  intros Hds Hne Hp1 Hp2.
  assert (Hn : (Z.of_nat (length (dataset first)) =? 0) = false)
    by (apply length_nonzero, Hne).
  assert (Hc : n_correct net (params m) (concat (batches second))
               = n_correct net (params m) (concat (batches first))).
  { apply n_correct_perm. unfold enumerates in *. rewrite Hp1, Hp2, Hds. reflexivity. }
  assert (Hpp : concat (batches first) ≡ₚ concat (batches second)).
  { unfold enumerates in *. rewrite Hp1, Hp2, Hds. reflexivity. }
  split; [reflexivity|]. split.
  - rewrite !search_test_unfold. cbv zeta. cbn [params model_eval].
    rewrite <- Hds, Hn, Hc.
    do 3 eexists. split; [reflexivity|]. split; [reflexivity|].
    cbn [r_correct r_total r_accuracy].
    split; [reflexivity|]. split; [reflexivity|]. split; [reflexivity|]. split.
    + intros Hb. rewrite Hb. reflexivity.
    + intros Hex Hadd. f_equal. f_equal. apply (accumulated_loss_perm net Hadd), Hpp.
  - intros Hu1 Hu2. rewrite !ft_test_unfold by assumption. cbv zeta.
    cbn [params model_eval]. rewrite <- Hds, Hn, Hc.
    do 3 eexists. split; [reflexivity|]. split; [reflexivity|].
    cbn [r_correct r_total r_accuracy].
    split; [reflexivity|]. split; [reflexivity|]. split; [reflexivity|]. split.
    + intros Hb. rewrite Hb. reflexivity.
    + intros Hex Hadd. f_equal. f_equal. apply (accumulated_loss_perm net Hadd), Hpp.
Qed.

(** C10 (amended).  Two loaders that enumerate the same samples, in any
    batching and order, over datasets of the same non-zero size give the
    same count of correct predictions, the same accuracy and the same
    return value, in both drivers (for the fine-tune driver, when no batch
    holds a single sample); the mean loss is the same as well when the
    additions of the kernel and of the running total are exact. *)
Theorem evaluation_is_batching_invariant
    (m : Model Params) (ld1 ld2 : DataLoader Input) (scope : string) :
  concat (batches ld1) ≡ₚ concat (batches ld2) →
  length (dataset ld1) = length (dataset ld2) →
  dataset ld1 ≠ [] →
  (∃ q1 q2 w,
     Search.test net m ld1 = Ok (model_eval m, q1, w) ∧
     Search.test net m ld2 = Ok (model_eval m, q2, w) ∧
     r_correct q1 = r_correct q2 ∧ r_accuracy q1 = r_accuracy q2 ∧
     (ExactArith A → additive_loss net → r_loss q1 = r_loss q2)) ∧
  (no_unit_batch ld1 → no_unit_batch ld2 →
   ∃ r1 r2 v,
     FineTune.test net m ld1 scope = Ok (model_eval m, r1, v) ∧
     FineTune.test net m ld2 scope = Ok (model_eval m, r2, v) ∧
     r_correct r1 = r_correct r2 ∧ r_accuracy r1 = r_accuracy r2 ∧
     (ExactArith A → additive_loss net → r_loss r1 = r_loss r2)).
Proof.
  intros Hperm Hlen Hne.
  assert (Hn : (Z.of_nat (length (dataset ld1)) =? 0) = false)
    by (apply length_nonzero, Hne).
  split.
  - rewrite !search_test_unfold. cbv zeta. rewrite <- Hlen, Hn.
    rewrite <- (n_correct_perm net (params m) _ _ Hperm).
    do 3 eexists. repeat split; try reflexivity.
    intros Hex Hadd. simpl. f_equal. apply (accumulated_loss_perm net Hadd), Hperm.
  - intros Hu1 Hu2. rewrite !ft_test_unfold by assumption. cbv zeta. rewrite <- Hlen, Hn.
    rewrite <- (n_correct_perm net (params m) _ _ Hperm).
    do 3 eexists. repeat split; try reflexivity.
    intros Hex Hadd. simpl. f_equal. apply (accumulated_loss_perm net Hadd), Hperm.
Qed.

End EvalTheorems.

Lemma toy_loader_no_unit_batch {A : Type} `{Scalar A} : no_unit_batch (toy_loader (A:=A)).
Proof. repeat constructor; simpl; lia. Qed.

Lemma toy_loader_swapped_no_unit_batch {A : Type} `{Scalar A} :
  no_unit_batch (toy_loader_swapped (A:=A)).
Proof. repeat constructor; simpl; lia. Qed.

Lemma toy_loader_enumerates {A : Type} `{Scalar A} : enumerates (toy_loader (A:=A)).
Proof. unfold enumerates. reflexivity. Qed.

Lemma toy_loader_swapped_enumerates {A : Type} `{Scalar A} :
  enumerates (toy_loader_swapped (A:=A)).
Proof.
  unfold enumerates.
  exact (Permutation_app_comm (drop 2 (toy_samples (A:=A))) (take 2 (toy_samples (A:=A)))).
Qed.

Lemma test_reports_mean_loss_and_accuracy_witness :
  dataset (toy_loader (A:=float)) ≠ [] ∧
  enumerates (toy_loader (A:=float)) ∧
  no_unit_batch (toy_loader (A:=float)) ∧
  Search.test (A:=float) toy_net toy_model toy_loader =
    Ok (model_eval toy_model,
        {| r_scope := "Test"; r_loss := 2.5%float; r_correct := 3;
           r_total := 4; r_accuracy := 75%float |},
        PyNone) ∧
  FineTune.test (A:=float) toy_net toy_model toy_loader "Validation" =
    Ok (model_eval toy_model,
        {| r_scope := "Validation"; r_loss := 2.5%float; r_correct := 3;
           r_total := 4; r_accuracy := 75%float |},
        PyFloat 75%float).
Proof.
  assert (H1 : dataset (toy_loader (A:=float)) ≠ []) by discriminate.
  assert (H2 : enumerates (toy_loader (A:=float))) by exact toy_loader_enumerates.
  split; [exact H1 | split; [exact H2 | split; [exact toy_loader_no_unit_batch|]]].
  destruct (test_reports_mean_loss_and_accuracy toy_net toy_model toy_loader
              "Validation" H1 H2) as (Hs & Hf & _).
  split; [exact Hs | exact (Hf toy_loader_no_unit_batch)].
Defined.

(** C8, as stated, fails for the search driver: its [test] returns [None],
    not the accuracy 100 * 3 / 4 = 75 it has just reported. *)
Lemma search_test_returns_none :
  ¬ ∃ m r, Search.test (A:=float) toy_net toy_model toy_loader = Ok (m, r, PyFloat 75%float).
Proof. intros (m & r & Heq). vm_compute in Heq. discriminate. Qed.

Lemma float_neq (x y : float) :
  PrimFloat.eqb x y = false → PrimFloat.eqb y y = true → x ≠ y.
Proof. intros Hxy Hyy Heq. subst y. congruence. Qed.

Lemma test_is_idempotent_witness :
  dataset (toy_loader (A:=float)) = dataset toy_loader_swapped ∧
  dataset (toy_loader (A:=float)) ≠ [] ∧
  enumerates (toy_loader (A:=float)) ∧
  enumerates (toy_loader_swapped (A:=float)) ∧
  no_unit_batch (toy_loader (A:=float)) ∧
  no_unit_batch (toy_loader_swapped (A:=float)) ∧
  (∃ q1 q2 w,
     Search.test (A:=float) toy_net toy_model toy_loader = Ok (model_eval toy_model, q1, w) ∧
     Search.test (A:=float) toy_net (model_eval toy_model) toy_loader_swapped
       = Ok (model_eval toy_model, q2, w) ∧
     r_correct q1 = r_correct q2 ∧ r_accuracy q1 = r_accuracy q2) ∧
  (∃ r1 r2 v,
     FineTune.test (A:=float) toy_net toy_model toy_loader "Validation"
       = Ok (model_eval toy_model, r1, v) ∧
     FineTune.test (A:=float) toy_net (model_eval toy_model) toy_loader_swapped "Validation"
       = Ok (model_eval toy_model, r2, v) ∧
     r_correct r1 = r_correct r2 ∧ r_accuracy r1 = r_accuracy r2) ∧
  (∃ q1 q2 w,
     Search.test (A:=Q) toy_net toy_model toy_loader = Ok (model_eval toy_model, q1, w) ∧
     Search.test (A:=Q) toy_net (model_eval toy_model) toy_loader_swapped
       = Ok (model_eval toy_model, q2, w) ∧
     q1 = q2).
Proof.
  assert (H1 : dataset (toy_loader (A:=float)) ≠ []) by discriminate.
  assert (H1q : dataset (toy_loader (A:=Q)) ≠ []) by discriminate.
  split; [reflexivity | split; [exact H1 |]].
  split; [exact toy_loader_enumerates | split; [exact toy_loader_swapped_enumerates|]].
  split; [exact toy_loader_no_unit_batch | split; [exact toy_loader_swapped_no_unit_batch|]].
  destruct (test_is_idempotent (A:=float) toy_net toy_model toy_loader toy_loader_swapped
              "Validation" eq_refl H1 toy_loader_enumerates toy_loader_swapped_enumerates)
    as (_ & (q1 & q2 & w & Ha & Hb & Hc & _ & Hd & _) & Hft).
  destruct (Hft toy_loader_no_unit_batch toy_loader_swapped_no_unit_batch)
    as (r1 & r2 & v & Ha' & Hb' & Hc' & _ & Hd' & _).
  split; [exists q1, q2, w; auto|]. split; [exists r1, r2, v; auto|].
  destruct (test_is_idempotent (A:=Q) toy_net toy_model toy_loader toy_loader_swapped
              "Validation" eq_refl H1q toy_loader_enumerates toy_loader_swapped_enumerates)
    as (_ & (x1 & x2 & y & Hx & Hy & _ & _ & _ & _ & Hex) & _).
  exists x1, x2, y. split; [exact Hx | split; [exact Hy |]].
  exact (Hex Q_exact toy_net_additive).
Defined.

(** C9, as stated, fails for the mean loss of a loader that shuffles: its
    two iterations below yield the same six samples in batches of two, in
    different orders, and the binary64 running totals of the two calls
    round differently. *)
Lemma reshuffled_loader_changes_mean_loss :
  ∃ loader q1 q2 r1 r2,
    DataLoader_new alternate heavy_samples shuffling_kwargs = Ok loader ∧
    batches (loader 0) ≠ batches (loader 1) ∧
    enumerates (loader 0) ∧ enumerates (loader 1) ∧
    Search.test (A:=float) toy_net toy_model (loader 0)
      = Ok (model_eval toy_model, q1, PyNone) ∧
    Search.test (A:=float) toy_net (model_eval toy_model) (loader 1)
      = Ok (model_eval toy_model, q2, PyNone) ∧
    FineTune.test (A:=float) toy_net toy_model (loader 0) "Validation"
      = Ok (model_eval toy_model, r1, PyFloat 0%float) ∧
    FineTune.test (A:=float) toy_net (model_eval toy_model) (loader 1) "Validation"
      = Ok (model_eval toy_model, r2, PyFloat 0%float) ∧
    r_loss q1 ≠ r_loss q2 ∧ r_loss r1 ≠ r_loss r2.
Proof.
  eexists. do 4 eexists.
  split; [vm_compute; reflexivity|].
  split; [vm_compute; discriminate|].
  split; [unfold enumerates; reflexivity|].
  split; [unfold enumerates; exact (reverse_Permutation heavy_samples)|].
  split; [vm_compute; reflexivity|].
  split; [vm_compute; reflexivity|].
  split; [vm_compute; reflexivity|].
  split; [vm_compute; reflexivity|].
  split; apply float_neq; vm_compute; reflexivity.
Qed.

(** C10, as stated, fails for the mean loss: the two loaders below
    enumerate the same six samples in batches of two, in different orders;
    every batch sum is exact, and the binary64 running totals round
    differently, in either driver. *)
Lemma mean_loss_depends_on_batch_order :
  concat (batches order_a) ≡ₚ concat (batches order_b) ∧
  dataset order_a = dataset order_b ∧
  no_unit_batch order_a ∧ no_unit_batch order_b ∧
  ∃ qa qb ra rb,
    Search.test (A:=float) toy_net toy_model order_a = Ok (model_eval toy_model, qa, PyNone) ∧
    Search.test (A:=float) toy_net toy_model order_b = Ok (model_eval toy_model, qb, PyNone) ∧
    FineTune.test (A:=float) toy_net toy_model order_a "Validation"
      = Ok (model_eval toy_model, ra, PyFloat 0%float) ∧
    FineTune.test (A:=float) toy_net toy_model order_b "Validation"
      = Ok (model_eval toy_model, rb, PyFloat 0%float) ∧
    r_loss qa ≠ r_loss qb ∧ r_loss ra ≠ r_loss rb.
Proof.
  split; [|split; [reflexivity|split; [|split]]].
  - simpl.
    change ([(128%float, 0); (0%float, 0); (tiny, 0); (0%float, 0); (tiny, 0); (0%float, 0)])
      with ([(128%float, 0); (0%float, 0)]
            ++ [(tiny, 0); (0%float, 0); (tiny, 0); (0%float, 0)]).
    change ([(tiny, 0); (0%float, 0); (tiny, 0); (0%float, 0); (128%float, 0); (0%float, 0)])
      with ([(tiny, 0); (0%float, 0); (tiny, 0); (0%float, 0)]
            ++ [(128%float, 0); (0%float, 0)]).
    apply Permutation_app_comm.
  - repeat constructor; simpl; lia.
  - repeat constructor; simpl; lia.
  - do 4 eexists.
    split; [vm_compute; reflexivity|].
    split; [vm_compute; reflexivity|].
    split; [vm_compute; reflexivity|].
    split; [vm_compute; reflexivity|].
    split; apply float_neq; vm_compute; reflexivity.
Qed.

(** ** Binary64: signs, exact products and percentages *)

Lemma shr_1_nonneg (mrs : shr_record) : 0 ≤ shr_m mrs → 0 ≤ shr_m (shr_1 mrs).
Proof.
  destruct mrs as [m r s]. cbn [shr_m]. intros Hm.
  destruct m as [|p|p]; [cbn; lia | | lia].
  destruct p; cbn; lia.
Qed.

Lemma iter_pos_shr_1_nonneg (p : positive) :
  ∀ mrs, 0 ≤ shr_m mrs → 0 ≤ shr_m (SpecFloat.iter_pos shr_1 p mrs).
Proof.
  induction p as [p IH|p IH|]; intros mrs Hm; cbn [SpecFloat.iter_pos].
  - apply IH, IH, shr_1_nonneg, Hm.
  - apply IH, IH, Hm.
  - apply shr_1_nonneg, Hm.
Qed.

Lemma shr_fexp_nonneg (m e : Z) (l : location) :
  0 ≤ m → 0 ≤ shr_m (shr_fexp prec emax m e l).1.
Proof.
  intros Hm. unfold shr_fexp, shr.
  assert (H0 : 0 ≤ shr_m (shr_record_of_loc m l)).
  { destruct l as [|[| |]]; exact Hm. }
  destruct (fexp prec emax (Zdigits2 m + e) - e) as [|p|p]; cbn [fst]; try exact H0.
  apply iter_pos_shr_1_nonneg, H0.
Qed.

Lemma round_nearest_even_nonneg (m : Z) (l : location) :
  0 ≤ m → 0 ≤ round_nearest_even m l.
Proof.
  intros Hm. unfold round_nearest_even.
  destruct l as [|[| |]]; try lia. destruct (Z.even m); lia.
Qed.

Lemma binary_round_aux_nonneg (m e : Z) (l : location) :
  0 ≤ m → sf_nonneg (binary_round_aux prec emax false m e l) = true.
Proof.
  intros Hm. unfold binary_round_aux.
  pose proof (shr_fexp_nonneg m e l Hm) as H1.
  destruct (shr_fexp prec emax m e l) as [mrs' e']. cbn [fst] in H1.
  pose proof (shr_fexp_nonneg _ e' loc_Exact
                (round_nearest_even_nonneg _ (loc_of_shr_record mrs') H1)) as H2.
  destruct (shr_fexp prec emax (round_nearest_even (shr_m mrs') (loc_of_shr_record mrs'))
              e' loc_Exact) as [mrs'' e'']. cbn [fst] in H2.
  destruct (shr_m mrs'') as [|p|p]; [reflexivity | | lia].
  destruct (e'' <=? emax - prec); reflexivity.
Qed.

Lemma digits2_pos_size (p : positive) : digits2_pos p = Pos.size p.
Proof. induction p as [p IH|p IH|]; cbn; rewrite ?IH; reflexivity. Qed.

Lemma digits2_pos_bound (p : positive) (k : Z) :
  0 ≤ k → Zpos p < 2 ^ k → Zpos (digits2_pos p) ≤ k.
Proof.
  intros Hk Hp. rewrite digits2_pos_size.
  pose proof (Pos.size_le p) as Hle.
  apply Pos2Z.pos_le_pos in Hle. rewrite Pos2Z.inj_pow in Hle.
  change (Zpos p~0) with (2 * Zpos p) in Hle. change (Zpos 2) with 2 in Hle.
  destruct (Z.le_gt_cases (Zpos (Pos.size p)) k) as [Hok|Hbig]; [exact Hok|].
  exfalso.
  assert (H2 : 2 ^ (k + 1) ≤ 2 ^ Zpos (Pos.size p)) by (apply Z.pow_le_mono_r; lia).
  rewrite Z.pow_add_r in H2 by lia. lia.
Qed.

Lemma digits2_pos_iter_xO (k p : positive) :
  Zpos (digits2_pos (Pos.iter xO p k)) = Zpos (digits2_pos p) + Zpos k.
Proof.
  induction k as [|k IH] using Pos.peano_ind.
  - cbn. lia.
  - rewrite Pos.iter_succ. cbn [digits2_pos]. lia.
Qed.

Lemma fexp_small (d : Z) : -1021 ≤ d → fexp prec emax d = d - 53.
Proof. intros Hd. unfold fexp, emin, prec, emax. lia. Qed.

Lemma binary_round_aux_exact (mz : positive) (ez : Z) :
  Zpos (digits2_pos mz) = 53 → -1074 ≤ ez ≤ 971 →
  binary_round_aux prec emax false (Zpos mz) ez loc_Exact = S754_finite false mz ez.
Proof.
  intros Hd He. unfold binary_round_aux.
  assert (Hshr : ∀ l, l = loc_Exact →
            shr_fexp prec emax (Zpos mz) ez l
            = ({| shr_m := Zpos mz; shr_r := false; shr_s := false |}, ez)).
  { intros l ->. unfold shr_fexp, Zdigits2. rewrite Hd, fexp_small by lia.
    replace (53 + ez - 53 - ez) with 0 by lia. reflexivity. }
  rewrite Hshr by reflexivity. cbn [shr_m loc_of_shr_record round_nearest_even].
  rewrite Hshr by reflexivity. cbn [shr_m].
  replace (ez <=? emax - prec) with true; [reflexivity|].
  symmetry. apply Z.leb_le. unfold emax, prec. lia.
Qed.

Lemma valid_binary_exact (mz : positive) (ez : Z) :
  Zpos (digits2_pos mz) = 53 → -1074 ≤ ez ≤ 971 →
  valid_binary (S754_finite false mz ez) = true.
Proof.
  intros Hd He. unfold SpecFloat.valid_binary, bounded, canonical_mantissa.
  rewrite Hd, fexp_small by lia.
  apply andb_true_iff. split; [apply Z.eqb_eq; lia|].
  apply Z.leb_le. unfold emax, prec. lia.
Qed.

(** [float(n)] of a positive integer below 2^53 is a finite positive number. *)
Lemma float_of_Z_finite (n : Z) :
  0 < n < 2 ^ 53 → ∃ m e, Prim2SF (float_of_Z n) = S754_finite false m e.
Proof.
  intros Hn. destruct n as [|p|p]; try lia.
  assert (Hd : Zpos (digits2_pos p) ≤ 53) by (apply digits2_pos_bound; lia).
  assert (Hr : ∃ m e, binary_round prec emax false p 0 = S754_finite false m e ∧
                      valid_binary (S754_finite false m e) = true).
  { unfold binary_round. rewrite fexp_small by lia. unfold shl_align.
    destruct (Zpos (digits2_pos p) + 0 - 53 - 0) as [|k|k] eqn:Hk; [|lia|].
    - exists p, 0. split; [apply binary_round_aux_exact | apply valid_binary_exact]; lia.
    - pose proof (digits2_pos_iter_xO k p) as Hdig.
      exists (Pos.iter xO p k), (Zpos (digits2_pos p) + 0 - 53).
      split; [apply binary_round_aux_exact | apply valid_binary_exact]; lia. }
  destruct Hr as (m & e & Hr & Hv).
  exists m, e. unfold float_of_Z. cbn [binary_normalize]. rewrite Hr.
  apply Prim2SF_SF2Prim, Hv.
Qed.

Lemma float_of_Z_nonneg (n : Z) :
  0 ≤ n < 2 ^ 53 → sf_nonneg (Prim2SF (float_of_Z n)) = true.
Proof.
  intros Hn. destruct (Z.eq_dec n 0) as [->|Hnz]; [reflexivity|].
  destruct (float_of_Z_finite n) as (m & e & ->); [lia | reflexivity].
Qed.

Lemma SFmul_nonneg (x y : spec_float) :
  (∃ m e, x = S754_finite false m e) → sf_nonneg y = true → y ≠ S754_infinity false →
  sf_nonneg (SFmul prec emax x y) = true.
Proof.
  intros (m & e & ->) Hy Hinf.
  destruct y as [s|s| |s my ey]; cbn in Hy; try discriminate.
  - reflexivity.
  - destruct s; [discriminate | congruence].
  - destruct s; [discriminate|]. cbn [SFmul xorb].
    apply binary_round_aux_nonneg. lia.
Qed.

Lemma SFdiv_nonneg (x y : spec_float) :
  sf_nonneg x = true → (∃ m e, y = S754_finite false m e) →
  sf_nonneg (SFdiv prec emax x y) = true.
Proof.
  intros Hx (my & ey & ->).
  destruct x as [s|s| |s mx ex]; cbn in Hx; try discriminate.
  - reflexivity.
  - destruct s; [discriminate | reflexivity].
  - destruct s; [discriminate|]. cbn [SFdiv xorb].
    destruct (SFdiv_core_binary prec emax (Zpos mx) ex (Zpos my) ey) as [[mz ez] lz] eqn:Hcore.
    apply binary_round_aux_nonneg.
    unfold SFdiv_core_binary in Hcore. cbv zeta in Hcore.
    match type of Hcore with
    | context [Z.div_eucl ?a ?b] =>
        assert (Ha : 0 ≤ a);
        [| pose proof (Z.div_pos a b Ha ltac:(lia)) as Hq; unfold Z.div in Hq;
           destruct (Z.div_eucl a b) as [q r]; inversion Hcore; subst; exact Hq ]
    end.
    match goal with
    | |- 0 ≤ match ?s with _ => _ end => destruct s; [lia | apply Z.shiftl_nonneg; lia | lia]
    end.
Qed.

Lemma sf_nonneg_leb (x : float) :
  sf_nonneg (Prim2SF x) = true → PrimFloat.leb (float_of_Z 0) x = true.
Proof.
  intros Hx. rewrite leb_spec, float_zero_spec.
  destruct (Prim2SF x) as [s|s| |s m e]; cbn in Hx; try discriminate;
    try (destruct s; [discriminate|]); reflexivity.
Qed.

(** In binary64, the percentage of [c] correct predictions among [n]
    samples is a number that compares as at least zero. *)
Lemma float_percentage_nonneg (c n : Z) :
  0 ≤ c ≤ n → 0 < n < 2 ^ 53 →
  nonneg (s_div (s_mul (s_of_Z 100) (s_of_Z c)) (s_of_Z n) : float).
Proof.
  intros Hc Hn. unfold nonneg. cbn [s_leb s_of_Z s_div s_mul float_scalar].
  apply sf_nonneg_leb. rewrite div_spec, mul_spec.
  apply SFdiv_nonneg; [|apply float_of_Z_finite, Hn].
  apply SFmul_nonneg.
  - apply float_of_Z_finite. lia.
  - apply float_of_Z_nonneg. lia.
  - destruct (Z.eq_dec c 0) as [->|Hnz]; [discriminate|].
    destruct (float_of_Z_finite c) as (m & e & ->); [lia | discriminate].
Qed.

#[global] Instance float_percentage : PercentageOrder float.
Proof. exact float_percentage_nonneg. Qed.

(** ** Binary64 satisfies the laws of the size penalty *)

Lemma float_one_spec :
  Prim2SF (float_of_Z 1) = S754_finite false 4503599627370496 (-52).
Proof. reflexivity. Qed.

Lemma shr_1_xO (p : positive) :
  shr_1 {| shr_m := Zpos p~0; shr_r := false; shr_s := false |}
  = {| shr_m := Zpos p; shr_r := false; shr_s := false |}.
Proof. reflexivity. Qed.

(** Multiplying a binary64 number by 1.0 gives the number back. *)
Lemma SFmul_one (m : positive) (e : Z) :
  valid_binary (S754_finite false m e) = true →
  SFmul prec emax (S754_finite false m e) (S754_finite false 4503599627370496 (-52))
  = S754_finite false m e.
Proof.
  intros Hv. unfold SpecFloat.valid_binary, bounded, canonical_mantissa in Hv.
  apply andb_true_iff in Hv as [Hc He].
  apply Z.eqb_eq in Hc. apply Z.leb_le in He.
  cbn [SFmul xorb].
  assert (Hm : (m * 4503599627370496)%positive = Pos.iter xO m 52)
    by (rewrite Pos.mul_comm; reflexivity).
  rewrite Hm. unfold binary_round_aux.
  assert (Hd : Zdigits2 (Zpos (Pos.iter xO m 52)) = Zpos (digits2_pos m) + 52)
    by (unfold Zdigits2; apply digits2_pos_iter_xO).
  assert (H1 : shr_fexp prec emax (Zpos (Pos.iter xO m 52)) (e + -52) loc_Exact
               = ({| shr_m := Zpos m; shr_r := false; shr_s := false |}, e)).
  { unfold shr_fexp. rewrite Hd.
    replace (Zpos (digits2_pos m) + 52 + (e + -52)) with (Zpos (digits2_pos m) + e) by lia.
    rewrite Hc. replace (e - (e + -52)) with 52 by lia.
    unfold shr. cbn [shr_record_of_loc]. cbn [SpecFloat.iter_pos Pos.iter].
    rewrite !shr_1_xO. f_equal. lia. }
  rewrite H1. cbn [shr_m loc_of_shr_record round_nearest_even].
  assert (H2 : shr_fexp prec emax (Zpos m) e loc_Exact
               = ({| shr_m := Zpos m; shr_r := false; shr_s := false |}, e)).
  { unfold shr_fexp, Zdigits2. rewrite Hc, Z.sub_diag. reflexivity. }
  rewrite H2. cbn [shr_m].
  replace (e <=? emax - prec) with true; [reflexivity|].
  symmetry. apply Z.leb_le. exact He.
Qed.

Lemma valid_binary_abs (s : bool) (m : positive) (e : Z) :
  valid_binary (S754_finite s m e) = true → valid_binary (S754_finite false m e) = true.
Proof. intros Hv. exact Hv. Qed.

Lemma float_penalty_unit (x : float) :
  PrimFloat.mul (PrimFloat.abs (PrimFloat.sub x (float_of_Z 0))) (float_of_Z 1)
  = PrimFloat.abs x.
Proof.
  apply Prim2SF_inj.
  rewrite mul_spec, !abs_spec, sub_spec, float_zero_spec, float_one_spec.
  pose proof (Prim2SF_valid x) as Hv.
  destruct (Prim2SF x) as [s|s| |s m e].
  - destruct s; reflexivity.
  - destruct s; reflexivity.
  - reflexivity.
  - cbn [SF64sub SFsub SFabs]. apply SFmul_one, (valid_binary_abs s), Hv.
Qed.

(** ** Binary64: a sum is the negative zero only if both terms are *)

Lemma shr_1_half (mrs : shr_record) : 0 ≤ shr_m mrs → shr_m (shr_1 mrs) = shr_m mrs / 2.
Proof.
  destruct mrs as [m r s]. cbn [shr_m]. intros Hm.
  destruct m as [|p|p]; [reflexivity | | lia].
  destruct p as [p|p|]; cbn [shr_1 shr_m].
  - rewrite Pos2Z.inj_xI. apply (Z.div_unique (2 * Zpos p + 1) 2 (Zpos p) 1); lia.
  - rewrite Pos2Z.inj_xO. apply (Z.div_unique (2 * Zpos p) 2 (Zpos p) 0); lia.
  - reflexivity.
Qed.

Lemma pow2_xO (p : positive) : 2 ^ Zpos p~0 = 2 ^ Zpos p * 2 ^ Zpos p.
Proof. rewrite <- Z.pow_add_r by lia. f_equal. lia. Qed.

Lemma pow2_xI (p : positive) : 2 ^ Zpos p~1 = 2 * (2 ^ Zpos p * 2 ^ Zpos p).
Proof.
  rewrite <- Z.pow_add_r by lia. rewrite <- Z.pow_succ_r by lia. f_equal. lia.
Qed.

Lemma iter_pos_shr_1_div (p : positive) :
  ∀ mrs, 0 ≤ shr_m mrs →
  shr_m (SpecFloat.iter_pos shr_1 p mrs) = shr_m mrs / 2 ^ Zpos p.
Proof.
  induction p as [p IH|p IH|]; intros mrs Hm; cbn [SpecFloat.iter_pos].
  - rewrite IH by (apply iter_pos_shr_1_nonneg, shr_1_nonneg, Hm).
    rewrite IH by (apply shr_1_nonneg, Hm). rewrite shr_1_half by exact Hm.
    rewrite pow2_xI. rewrite !Z.div_div by lia. f_equal; ring.
  - rewrite IH by (apply iter_pos_shr_1_nonneg, Hm). rewrite IH by exact Hm.
    rewrite pow2_xO. rewrite Z.div_div by lia. reflexivity.
  - change (2 ^ 1) with 2. apply shr_1_half, Hm.
Qed.

Lemma digits2_pos_lower (p : positive) : 2 ^ (Zpos (digits2_pos p) - 1) ≤ Zpos p.
Proof.
  rewrite digits2_pos_size.
  pose proof (Pos.size_le p) as Hle.
  apply Pos2Z.pos_le_pos in Hle. rewrite Pos2Z.inj_pow in Hle.
  change (Zpos p~0) with (2 * Zpos p) in Hle. change (Zpos 2) with 2 in Hle.
  replace (Zpos (Pos.size p)) with (Z.succ (Zpos (Pos.size p) - 1)) in Hle by lia.
  rewrite Z.pow_succ_r in Hle by lia. lia.
Qed.

(** Rounding a mantissa above zero at an exponent that is not below the
    least one never gives zero: sums do not underflow. *)
Lemma shr_fexp_pos (m e : Z) (l : location) :
  0 < m → SpecFloat.emin prec emax ≤ e →
  0 < shr_m (shr_fexp prec emax m e l).1 ∧ SpecFloat.emin prec emax ≤ (shr_fexp prec emax m e l).2.
Proof.
  intros Hm He. unfold shr_fexp, shr.
  assert (H0 : shr_m (shr_record_of_loc m l) = m) by (destruct l as [|[| |]]; reflexivity).
  destruct (fexp prec emax (Zdigits2 m + e) - e) as [|k|k] eqn:Hk; cbn [fst snd];
    try (rewrite H0; split; assumption).
  destruct m as [|p|p]; try lia.
  rewrite iter_pos_shr_1_div by (rewrite H0; lia). rewrite H0.
  unfold fexp, SpecFloat.emin, Zdigits2 in Hk. unfold SpecFloat.emin.
  pose proof (digits2_pos_lower p) as Hlow.
  assert (Hkd : Zpos k ≤ Zpos (digits2_pos p) - 1)
    by (unfold SpecFloat.emin, prec, emax in *; lia).
  split; [|lia].
  apply Z.div_str_pos. split; [apply Z.pow_pos_nonneg; lia|].
  etransitivity; [|exact Hlow]. apply Z.pow_le_mono_r; lia.
Qed.

Lemma round_nearest_even_pos (m : Z) (l : location) : 0 < m → 0 < round_nearest_even m l.
Proof.
  intros Hm. unfold round_nearest_even.
  destruct l as [|[| |]]; try lia. destruct (Z.even m); lia.
Qed.

Lemma binary_round_aux_not_zero (sx s : bool) (m e : Z) (l : location) :
  0 < m → SpecFloat.emin prec emax ≤ e → binary_round_aux prec emax sx m e l ≠ S754_zero s.
Proof.
  intros Hm He. unfold binary_round_aux.
  pose proof (shr_fexp_pos m e l Hm He) as (H1 & He1).
  destruct (shr_fexp prec emax m e l) as [mrs' e']. cbn [fst snd] in H1, He1.
  pose proof (shr_fexp_pos _ e' loc_Exact
                (round_nearest_even_pos _ (loc_of_shr_record mrs') H1) He1) as (H2 & _).
  destruct (shr_fexp prec emax (round_nearest_even (shr_m mrs') (loc_of_shr_record mrs'))
              e' loc_Exact) as [mrs'' e'']. cbn [fst] in H2.
  destruct (shr_m mrs'') as [|p|p]; [lia | | lia].
  destruct (e'' <=? emax - prec); discriminate.
Qed.

Lemma binary_round_not_zero (sx s : bool) (mx : positive) (ex : Z) :
  SpecFloat.emin prec emax ≤ ex → binary_round prec emax sx mx ex ≠ S754_zero s.
Proof.
  intros He. unfold binary_round, shl_align.
  destruct (fexp prec emax (Zpos (digits2_pos mx) + ex) - ex) as [|d|d] eqn:Hd;
    apply binary_round_aux_not_zero; try lia.
  unfold fexp. lia.
Qed.

Lemma valid_binary_emin (s : bool) (m : positive) (e : Z) :
  valid_binary (S754_finite s m e) = true → SpecFloat.emin prec emax ≤ e.
Proof.
  unfold SpecFloat.valid_binary, bounded, canonical_mantissa. intros Hv.
  apply andb_true_iff in Hv as [Hc _]. apply Z.eqb_eq in Hc.
  unfold fexp in Hc. lia.
Qed.

Lemma SFadd_not_neg_zero (x y : spec_float) :
  valid_binary x = true → valid_binary y = true →
  x ≠ S754_zero true → SFadd prec emax x y ≠ S754_zero true.
Proof.
  intros Hx Hy Hnz.
  destruct x as [sx|sx| |sx mx ex], y as [sy|sy| |sy my ey]; cbn [SFadd];
    try discriminate; try exact Hnz;
    try (destruct sx, sy; cbn; first [discriminate | congruence]).
  apply valid_binary_emin in Hx, Hy.
  unfold binary_normalize.
  match goal with
  | |- match ?z with _ => _ end ≠ _ => destruct z
  end; [discriminate | |]; apply binary_round_not_zero; lia.
Qed.

Lemma float_add_not_neg_zero (x y : float) :
  Prim2SF x ≠ S754_zero true → Prim2SF (x + y) ≠ S754_zero true.
Proof.
  intros Hx. rewrite add_spec. apply SFadd_not_neg_zero; [apply Prim2SF_valid.. | exact Hx].
Qed.

(** A sum that starts from the integer 0 is never the negative zero. *)
Lemma float_aggregate_not_neg_zero (d : list (string * float)) :
  Prim2SF (aggregate d) ≠ S754_zero true.
Proof.
  unfold aggregate. cbn [s_add s_of_Z float_scalar].
  assert (H0 : Prim2SF (float_of_Z 0) ≠ S754_zero true) by (rewrite float_zero_spec; discriminate).
  revert H0. generalize (float_of_Z 0). induction (d.*2) as [|v vs IH]; intros acc Hacc.
  - exact Hacc.
  - cbn [fold_left]. apply IH, float_add_not_neg_zero, Hacc.
Qed.

Lemma float_abs_aggregate (d : list (string * float)) :
  nonneg (aggregate d) → PrimFloat.abs (aggregate d) = aggregate d.
Proof.
  intros Hpos. pose proof (float_aggregate_not_neg_zero d) as Hnz.
  unfold nonneg in Hpos. cbn [s_leb s_of_Z float_scalar] in Hpos.
  rewrite leb_spec, float_zero_spec in Hpos.
  apply Prim2SF_inj. rewrite abs_spec.
  destruct (Prim2SF (aggregate d)) as [s|s| |s m e]; try destruct s;
    try discriminate; try congruence; reflexivity.
Qed.

#[global] Instance float_penalty : PenaltyArith float.
Proof.
  split.
  - exact float_penalty_unit.
  - exact float_abs_aggregate.
Qed.

#[global] Instance Q_penalty : PenaltyArith Q.
Proof.
  split.
  - intros [n d]. cbn [s_mul s_abs s_sub s_of_Z Q_scalar].
    unfold Qmult, Qabs, Qminus, Qplus. simpl. f_equal; [|lia].
    rewrite Z.mul_1_r, Z.add_0_r, Z.mul_1_r. reflexivity.
  - intros d. generalize (aggregate d). intros [n dd]. unfold nonneg.
    cbn [s_leb s_abs s_of_Z Q_scalar].
    unfold Qle_bool, Qabs. simpl. intros Hn. f_equal. apply Z.abs_eq. lia.
Qed.

(** ** The training loops *)

Lemma sum_values_aggregate {A : Type} `{Scalar A} (d : list (string * A)) :
  d ≠ [] → sum_values d = Some (aggregate d).
Proof. destruct d as [|[k v] d]; [congruence | reflexivity]. Qed.

Lemma sum_values_default {A : Type} `{Scalar A} (d : list (string * A)) :
  default (s_of_Z 0) (sum_values d) = aggregate d.
Proof. destruct d as [|[k v] d]; reflexivity. Qed.

Section TrainTheorems.
Context {A Params Input Output OptState : Type} `{Scalar A}.
Context (net : Network A Params Input Output OptState).

Lemma train_loss_unfold (args : Args A) (p : Params) (nll : A) :
  size_dict net p ≠ [] →
  Search.train_loss net args p nll =
    Ok (s_add nll
          (s_add (s_mul (s_abs (s_sub (aggregate (size_dict net p)) (size_target args)))
                        (cd_size args))
                 (s_mul (aggregate (ops_dict net p)) (cd_ops args))),
        s_mul (s_abs (s_sub (aggregate (size_dict net p)) (size_target args))) (cd_size args),
        s_mul (aggregate (ops_dict net p)) (cd_ops args)).
Proof.
  intros Hne. unfold Search.train_loss.
  rewrite (sum_values_aggregate _ Hne), sum_values_default. reflexivity.
Qed.

(** C1.  In the search driver the loss that is back-propagated for a batch
    is the classification loss plus [|aggregate_size - size_target| * cd_size]
    plus [aggregate_ops * cd_ops], the aggregates being the sums of the
    per-layer dictionaries.  With [size_target = 0], [cd_size = 1] and an
    aggregate size that is not below zero (the complexity values of a model
    are not negative) the size sub-loss is the aggregate size itself.  This
    holds to the last bit in binary64, and in any arithmetic with the laws
    [PenaltyArith]. *)
Theorem search_loss_adds_size_and_ops_penalties
    (args : Args A) (p : Params) (nll : A) :
  size_dict net p ≠ [] →
  let size := aggregate (size_dict net p) in
  let ops := aggregate (ops_dict net p) in
  let loss_size := s_mul (s_abs (s_sub size (size_target args))) (cd_size args) in
  let loss_ops := s_mul ops (cd_ops args) in
  Search.train_loss net args p nll =
    Ok (s_add nll (s_add loss_size loss_ops), loss_size, loss_ops) ∧
  (PenaltyArith A → size_target args = s_of_Z 0 → cd_size args = s_of_Z 1 →
   nonneg size → loss_size = size).
Proof.
  intros Hne size ops loss_size loss_ops. split.
  - apply train_loss_unfold, Hne.
  - intros Hpen Ht Hc Hpos. subst loss_size. rewrite Ht, Hc, pen_unit.
    apply pen_abs, Hpos.
Qed.

(** C6.  With the dry-run flag set, a positive log interval and a loader of
    at least one batch, [train] performs the optimizer step of the first
    batch, prints the progress line of batch 0 and stops: one step and one
    line, whatever the number of batches.  For the search driver the model
    must track at least one layer, otherwise the loss cannot be formed; for
    the fine-tune driver the first batch must not hold a single sample,
    otherwise the call raises [IndexError] before any step. *)
Theorem dry_run_trains_on_one_batch
    (args : Args A) (m : Model Params) (ld : DataLoader Input)
    (opt : Optimizer OptState) (epoch : Z) (tr : list (event A Params))
    (b : list (Input * Z)) (bs : list (list (Input * Z))) :
  batches ld = b :: bs →
  0 < log_interval args →
  dry_run args = true →
  let groups := param_groups opt in
  let seen := 0 * Z.of_nat (length b) in
  let total := Z.of_nat (length (dataset ld)) in
  let percent :=
    s_div (s_mul (s_of_Z 100) (s_of_Z 0)) (s_of_Z (Z.of_nat (length (batches ld)))) in
  (length b ≠ 1%nat →
   ∃ new,
     let loss := batch_loss net (params m) b in
     let step := backward_step net groups (opt_state opt) (params m) b loss in
     FineTune.train net args m ld opt epoch tr =
       Ok ({| params := step.1; training := true |},
           {| param_groups := groups; opt_state := step.2 |}, tr ++ new) ∧
     new = [OptimizerStep epoch 0 groups;
            Print (TrainLine epoch seen total percent loss None)] ∧
     count_true (is_step <$> new) = 1 ∧ count_true (is_train_line <$> new) = 1) ∧
  (length b = 1%nat → FineTune.train net args m ld opt epoch tr = Raise IndexError) ∧
  (size_dict net (params m) ≠ [] → ops_dict net (params m) ≠ [] →
   ∃ new loss loss_size loss_ops,
     let step := backward_step net groups (opt_state opt) (params m) b loss in
     Search.train_loss net args (params m) (batch_loss net (params m) b) =
       Ok (loss, loss_size, loss_ops) ∧
     Search.train net args m ld opt epoch tr =
       Ok ({| params := step.1; training := true |},
           {| param_groups := groups; opt_state := step.2 |}, tr ++ new) ∧
     new = [OptimizerStep epoch 0 groups;
            Print (TrainLine epoch seen total percent loss (Some (loss_size, loss_ops)))] ∧
     count_true (is_step <$> new) = 1 ∧ count_true (is_train_line <$> new) = 1).
Proof.
  intros Hb Hli Hdry groups seen total percent.
  assert (Hli0 : (log_interval args =? 0) = false) by (apply Z.eqb_neq; lia).
  assert (Hlen : (Z.of_nat (length (batches ld)) =? 0) = false)
    by (rewrite Hb; apply Z.eqb_neq; simpl; lia).
  split; [|split].
  - intros Hb1. eexists. cbv zeta. split; [|split; [reflexivity|split; reflexivity]].
    unfold FineTune.train. rewrite Hb at 1. simpl.
    rewrite (model_input_ok b Hb1). simpl.
    destruct (backward_step _ _ _ _ _ _) as [p' os'] eqn:Hstep.
    rewrite Hli0. unfold py_div. rewrite Hlen. simpl. rewrite Hdry. simpl.
    rewrite <- app_assoc. reflexivity.
  - intros Hb1. unfold FineTune.train. rewrite Hb at 1. simpl.
    rewrite (model_input_unit b Hb1). reflexivity.
  - intros Hsize Hops. do 4 eexists. cbv zeta.
    split; [apply train_loss_unfold, Hsize|].
    split; [|split; [reflexivity|split; reflexivity]].
    unfold Search.train. rewrite Hb at 1. simpl.
    rewrite (train_loss_unfold _ _ _ Hsize). simpl.
    destruct (backward_step _ _ _ _ _ _) as [p' os'] eqn:Hstep.
    rewrite Hli0. unfold py_div. rewrite Hlen. simpl.
    rewrite (sum_values_aggregate _ Hops). simpl. rewrite Hdry. simpl.
    rewrite <- app_assoc. reflexivity.
Qed.

End TrainTheorems.

Lemma str_inj (a b : Z) : str a = str b → a = b.
Proof. unfold str. apply pretty_Z_inj. Qed.

Lemma group_rates_insert {OptState : Type} (groups : list (gmap string float))
    (os : OptState) (r : float) :
  group_rates {| param_groups := (λ g, <["lr" := r]> g) <$> groups; opt_state := os |}
  = replicate (length groups) (Some r).
Proof.
  unfold group_rates. simpl. induction groups as [|g groups IH]; simpl.
  - reflexivity.
  - rewrite lookup_insert_eq. f_equal. exact IH.
Qed.

Lemma adjust_twice {OptState : Type} (o : Optimizer OptState) (a b : Z) :
  param_groups (FineTune.adjust_learning_rate (FineTune.adjust_learning_rate o a) b)
  = param_groups (FineTune.adjust_learning_rate o b).
Proof.
  unfold FineTune.adjust_learning_rate. simpl. rewrite <- list_fmap_compose.
  apply list_fmap_ext. intros _ g _. simpl. apply insert_insert_eq.
Qed.

Lemma adjust_same_groups {OptState : Type} (o o' : Optimizer OptState) (e : Z) :
  param_groups o' = param_groups o →
  param_groups (FineTune.adjust_learning_rate o' e)
  = param_groups (FineTune.adjust_learning_rate o e).
Proof. intros Hg. unfold FineTune.adjust_learning_rate. simpl. rewrite Hg. reflexivity. Qed.

(** C7.  [adjust_learning_rate] writes into every parameter group a rate
    that depends on the epoch alone: 1e-2 below epoch 50, 5e-3 on [50,100),
    2.5e-3 on [100,150) and 1e-3 from 150 on; in particular the rates at
    epochs 1, 50, 100 and 150 are 1e-2, 5e-3, 2.5e-3 and 1e-3. *)
Theorem adjust_learning_rate_is_piecewise_constant
    {OptState : Type} (optimizer : Optimizer OptState) (epoch : Z) :
  let n := length (param_groups optimizer) in
  let rates e := group_rates (FineTune.adjust_learning_rate optimizer e) in
  (∃ rate, rates epoch = replicate n (Some rate) ∧
     (epoch < 50 ∧ rate = 1e-2%float ∨
      50 ≤ epoch < 100 ∧ rate = 5e-3%float ∨
      100 ≤ epoch < 150 ∧ rate = 2.5e-3%float ∨
      150 ≤ epoch ∧ rate = 1e-3%float)) ∧
  rates 1 = replicate n (Some 1e-2%float) ∧
  rates 50 = replicate n (Some 5e-3%float) ∧
  rates 100 = replicate n (Some 2.5e-3%float) ∧
  rates 150 = replicate n (Some 1e-3%float).
Proof.
  intros n rates. subst rates n. split.
  - unfold FineTune.adjust_learning_rate.
    destruct (Z.ltb_spec epoch 50); [|destruct (Z.ltb_spec epoch 100);
      [|destruct (Z.ltb_spec epoch 150)]];
      eexists; (split; [apply group_rates_insert |]).
    + left. split; [lia | reflexivity].
    + right; left. split; [lia | reflexivity].
    + right; right; left. split; [lia | reflexivity].
    + right; right; right. split; [lia | reflexivity].
  - repeat split; apply group_rates_insert.
Qed.

Lemma steps_of_nil {A Params : Type} (epoch : Z) (groups : list (gmap string float)) :
  steps_of (A:=A) (Params:=Params) epoch groups [].
Proof. intros ev Hin. inversion Hin. Qed.

Lemma steps_of_app {A Params : Type} (epoch : Z) (groups : list (gmap string float))
    (l1 l2 : list (event A Params)) :
  steps_of epoch groups l1 → steps_of epoch groups l2 → steps_of epoch groups (l1 ++ l2).
Proof.
  intros H1 H2 ev Hin. apply elem_of_app in Hin as [Hin|Hin]; [apply H1 | apply H2]; exact Hin.
Qed.

Lemma steps_of_step {A Params : Type} (epoch i : Z) (groups : list (gmap string float)) :
  steps_of (A:=A) (Params:=Params) epoch groups [OptimizerStep epoch i groups].
Proof.
  intros ev Hin _. apply list_elem_of_singleton in Hin. subst ev. eauto.
Qed.

Lemma steps_of_print {A Params : Type} (epoch : Z) (groups : list (gmap string float))
    (l : line A) :
  steps_of (A:=A) (Params:=Params) epoch groups [Print l].
Proof.
  intros ev Hin Hs. apply list_elem_of_singleton in Hin. subst ev. discriminate.
Qed.

Section FineTuneTrain.
Context {A Params Input Output OptState : Type} `{Scalar A}.
Context (net : Network A Params Input Output OptState).
Context (args : Args A) (tl : DataLoader Input).

Lemma ft_train_loop_shape (epoch : Z) (todo : list (list (Input * Z))) :
  ∀ idx p (o : Optimizer OptState) tr p' o' tr',
  FineTune.train_loop net args epoch tl todo idx p o tr = Ok (p', o', tr') →
  param_groups o' = param_groups o ∧
  ∃ new, tr' = tr ++ new ∧ steps_of epoch (param_groups o) new.
Proof.
  induction todo as [|b todo IH]; intros idx p o tr p' o' tr' Hrun; simpl in Hrun.
  - inversion Hrun; subst. split; [reflexivity|]. exists []. rewrite app_nil_r.
    split; [reflexivity | apply steps_of_nil].
  - apply bind_Ok_inv in Hrun as (b' & Hin & Hrun).
    apply model_input_Ok_inv in Hin as (_ & ->).
    destruct (backward_step _ _ _ _ _ _) as [p1 os1].
    destruct (log_interval args =? 0); [discriminate|].
    destruct (idx `mod` log_interval args =? 0).
    + apply bind_Ok_inv in Hrun as (percent & _ & Hrun).
      destruct (dry_run args).
      * inversion Hrun; subst. split; [reflexivity|].
        eexists. rewrite <- app_assoc. split; [reflexivity|].
        apply steps_of_app; [apply steps_of_step | apply steps_of_print].
      * apply IH in Hrun as (Hg & new & -> & Hnew). simpl in *.
        split; [exact Hg|]. eexists. rewrite <- !app_assoc. split; [reflexivity|].
        apply steps_of_app; [apply steps_of_step|].
        apply steps_of_app; [apply steps_of_print | exact Hnew].
    + apply IH in Hrun as (Hg & new & -> & Hnew). simpl in *.
      split; [exact Hg|]. eexists. rewrite <- !app_assoc. split; [reflexivity|].
      apply steps_of_app; [apply steps_of_step | exact Hnew].
Qed.

Lemma ft_train_loop_ok (epoch : Z) (todo : list (list (Input * Z))) :
  log_interval args ≠ 0 → batches tl ≠ [] →
  Forall (λ b, length b ≠ 1%nat) todo →
  ∀ idx p (o : Optimizer OptState) tr,
  ∃ r, FineTune.train_loop net args epoch tl todo idx p o tr = Ok r.
Proof.
  intros Hli Hne Hunit.
  assert (Hlen : (Z.of_nat (length (batches tl)) =? 0) = false).
  { apply Z.eqb_neq. destruct (batches tl); [congruence | simpl; lia]. }
  induction Hunit as [|b todo Hb _ IH]; intros idx p o tr; simpl.
  - eauto.
  - rewrite (model_input_ok b Hb). simpl.
    destruct (backward_step _ _ _ _ _ _) as [p1 os1].
    replace (log_interval args =? 0) with false by (symmetry; apply Z.eqb_neq, Hli).
    destruct (idx `mod` log_interval args =? 0); [|apply IH].
    unfold py_div. rewrite Hlen. simpl.
    destruct (dry_run args); [eauto | apply IH].
Qed.

Lemma ft_train_shape (m : Model Params) (o : Optimizer OptState) (epoch : Z)
    (tr : list (event A Params)) m' o' tr' :
  FineTune.train net args m tl o epoch tr = Ok (m', o', tr') →
  param_groups o' = param_groups o ∧
  ∃ new, tr' = tr ++ new ∧ steps_of epoch (param_groups o) new.
Proof.
  unfold FineTune.train. intros Hrun.
  apply bind_Ok_inv in Hrun as ([[p1 o1] tr1] & Hloop & Hret).
  inversion Hret; subst. eapply ft_train_loop_shape, Hloop.
Qed.

Lemma ft_train_ok (m : Model Params) (o : Optimizer OptState) (epoch : Z)
    (tr : list (event A Params)) :
  log_interval args ≠ 0 → no_unit_batch tl →
  ∃ r, FineTune.train net args m tl o epoch tr = Ok r.
Proof.
  intros Hli Hunit. unfold FineTune.train.
  destruct (batches tl) as [|b bs] eqn:Hb.
  - simpl. eauto.
  - assert (Hu : Forall (λ b, length b ≠ 1%nat) (b :: bs))
      by (unfold no_unit_batch in Hunit; rewrite Hb in Hunit; exact Hunit).
    destruct (ft_train_loop_ok epoch (b :: bs) Hli ltac:(rewrite Hb; discriminate) Hu
                0 (params (model_train m)) o tr) as ([[p1 o1] tr1] & ->).
    simpl. eauto.
Qed.

End FineTuneTrain.

Lemma getitem_insert_eq {V : Type} (d : gmap string V) (k : string) (v : V) :
  getitem (<[k := v]> d) k = Ok v.
Proof. unfold getitem. rewrite lookup_insert_eq. reflexivity. Qed.

Section FineTuneLoop.
Context {A Params Input Output OptState : Type} `{Scalar A}.
Context (net : Network A Params Input Output OptState) (fmt_1e : A → string).
Context (args : Args A) (tl vl tel : DataLoader Input).

Local Abbreviation body := (FineTune.main_epoch net fmt_1e args tl vl tel).
Local Abbreviation path := (FineTune.checkpoint_path fmt_1e args).

Lemma ft_test_Ok_inv (m : Model Params) (ld : DataLoader Input) (scope : string) m' r v :
  FineTune.test net m ld scope = Ok (m', r, v) →
  dataset ld ≠ [] ∧ m' = model_eval m ∧ ∃ a, v = PyFloat a ∧ r_accuracy r = a.
Proof.
  intros Hok. pose proof (ft_test_Ok_no_unit net _ _ _ _ _ _ Hok) as Hunit.
  revert Hok. rewrite ft_test_unfold by exact Hunit. cbv zeta.
  destruct (Z.eqb_spec (Z.of_nat (length (dataset ld))) 0) as [Hz|Hnz]; [discriminate|].
  intros Heq. inversion Heq; subst. split.
  - intros Hd. rewrite Hd in Hnz. apply Hnz. reflexivity.
  - split; [reflexivity|]. eauto.
Qed.

Lemma ft_test_ok (m : Model Params) (ld : DataLoader Input) (scope : string) :
  dataset ld ≠ [] → no_unit_batch ld →
  ∃ r a, FineTune.test net m ld scope = Ok (model_eval m, r, PyFloat a).
Proof.
  intros Hne Hunit. rewrite ft_test_unfold by exact Hunit. cbv zeta.
  destruct (Z.eqb_spec (Z.of_nat (length (dataset ld))) 0) as [Hz|Hnz]; [|eauto].
  destruct (dataset ld); [congruence | simpl in Hz; lia].
Qed.

(** What one pass of the epoch loop does to the state. *)
Lemma main_epoch_inv (st st' : FineTune.MainState) (e : Z) :
  body st e = Ok st' →
  ∃ m1 o1 tr1 rv a rt t vb,
    FineTune.train net args (FineTune.st_model st) tl (FineTune.st_optimizer st) e
      (FineTune.st_trace st) = Ok (m1, o1, tr1) ∧
    FineTune.test net m1 vl "Validation" = Ok (model_eval m1, rv, PyFloat a) ∧
    FineTune.test net (model_eval m1) tel "Test" = Ok (model_eval m1, rt, PyFloat t) ∧
    FineTune.st_model st' = model_eval m1 ∧
    FineTune.st_optimizer st' = FineTune.adjust_learning_rate o1 e ∧
    FineTune.st_val_acc st' = <[str e := PyFloat a]> (FineTune.st_val_acc st) ∧
    FineTune.st_test_acc st' = <[str e := PyFloat t]> (FineTune.st_test_acc st) ∧
    <[str e := PyFloat a]> (FineTune.st_val_acc st) !! str (FineTune.st_best_epoch st)
      = Some (PyFloat vb) ∧
    ((s_leb vb a = true ∧ FineTune.st_best_epoch st' = e ∧
      FineTune.st_fs st' = <[path := params m1]> (FineTune.st_fs st) ∧
      FineTune.st_trace st' =
        (tr1 ++ [Print (EvalLine rv); Print (EvalLine rt)]) ++ [Save path (params m1)]) ∨
     (s_leb vb a = false ∧ FineTune.st_best_epoch st' = FineTune.st_best_epoch st ∧
      FineTune.st_fs st' = FineTune.st_fs st ∧
      FineTune.st_trace st' = tr1 ++ [Print (EvalLine rv); Print (EvalLine rt)])).
Proof.
  unfold FineTune.main_epoch. intros Hrun.
  apply bind_Ok_inv in Hrun as ([[m1 o1] tr1] & Htrain & Hrun).
  apply bind_Ok_inv in Hrun as ([[m2 rv] v] & Hval & Hrun). cbv zeta in Hrun.
  apply bind_Ok_inv in Hrun as ([[m3 rt] t] & Htest & Hrun). cbv zeta in Hrun.
  apply ft_test_Ok_inv in Hval as Hv. destruct Hv as (_ & -> & a & -> & _).
  apply ft_test_Ok_inv in Htest as Ht. destruct Ht as (_ & -> & t' & -> & _).
  rewrite getitem_insert_eq, bind_Ok in Hrun. unfold getitem in Hrun.
  destruct (<[str e := PyFloat a]> (FineTune.st_val_acc st) !! str (FineTune.st_best_epoch st))
    as [[|vb]|] eqn:Hbest; try discriminate.
  simpl in Hrun.
  exists m1, o1, tr1, rv, a, rt, t', vb.
  split; [exact Htrain|]. split; [exact Hval|]. split; [exact Htest|].
  destruct (s_leb vb a); inversion Hrun; subst; simpl;
    (do 4 (split; [reflexivity|])); (split; [exact Hbest|]); [left | right]; auto.
Qed.
End FineTuneLoop.

(** ** The epoch loop of the fine-tune driver *)

Section FineTuneInvariant.
Context {A Params Input Output OptState : Type} `{Scalar A}.
Context (net : Network A Params Input Output OptState) (fmt_1e : A → string).
Context (args : Args A) (tl vl tel : Loader Input).
Context (init : FineTune.MainState (A:=A) (Params:=Params) (OptState:=OptState)).

Local Abbreviation body st e :=
  (FineTune.main_epoch net fmt_1e args (tl e%Z) (vl e%Z) (tel e%Z) st e%Z).
Local Abbreviation path := (FineTune.checkpoint_path fmt_1e args).
Local Abbreviation run k := (FineTune.run_epochs net fmt_1e args tl vl tel k init).
Local Abbreviation inv k st := (ft_inv net fmt_1e args tl vl tel init k st).

Hypothesis init_val : FineTune.st_val_acc init !! str 0 = Some (PyFloat (s_of_Z 0)).
Hypothesis init_best : FineTune.st_best_epoch init = 0.

Lemma run_succ (n : nat) :
  run (Z.of_nat (S n)) = (run (Z.of_nat n) ≫= λ s, body s (Z.of_nat (S n))).
Proof. unfold FineTune.run_epochs. rewrite seqZ_snoc, for_each_snoc. reflexivity. Qed.

Lemma ft_inv_init : inv 0 init.
Proof.
  unfold ft_inv. rewrite init_best. split; [lia|]. split; [|split].
  - intros e He. assert (e = 0) as -> by lia. eauto.
  - intros e He. lia.
  - left. auto.
Qed.

Lemma ft_inv_step (n : nat) (st st' : FineTune.MainState) :
  inv (Z.of_nat n) st → run (Z.of_nat n) = Ok st →
  body st (Z.of_nat (S n)) = Ok st' → inv (Z.of_nat (S n)) st'.
Proof.
  intros (Hb & Hval & Htest & Hfs) Hrun Hstep.
  assert (Hrun' : run (Z.of_nat (S n)) = Ok st') by (rewrite run_succ, Hrun; exact Hstep).
  apply main_epoch_inv in Hstep
    as (m1 & o1 & tr1 & rv & a & rt & t & vb & _ & _ & _ & Hm & _ & Hva & Hta & _ & Hsel).
  unfold ft_inv. rewrite Hva, Hta. split; [|split; [|split]].
  - destruct Hsel as [(_ & -> & _)|(_ & -> & _)]; lia.
  - intros e He. destruct (decide (e = Z.of_nat (S n))) as [->|Hne].
    + rewrite lookup_insert_eq. eauto.
    + rewrite lookup_insert_ne by (intros Hs; apply str_inj in Hs; lia).
      apply Hval. lia.
  - intros e He. destruct (decide (e = Z.of_nat (S n))) as [->|Hne].
    + rewrite lookup_insert_eq. eauto.
    + rewrite lookup_insert_ne by (intros Hs; apply str_inj in Hs; lia).
      apply Htest. lia.
  - destruct Hsel as [(_ & Hbe & Hf & _)|(_ & Hbe & Hf & _)]; rewrite Hbe, Hf.
    + right. split; [lia|]. exists st'. split; [exact Hrun'|].
      rewrite Hm. rewrite lookup_insert_eq. reflexivity.
    + exact Hfs.
Qed.

Lemma ft_inv_run (n : nat) (st : FineTune.MainState) :
  run (Z.of_nat n) = Ok st → inv (Z.of_nat n) st.
Proof.
  revert st. induction n as [|n IH]; intros st Hrun.
  - simpl in Hrun. injection Hrun as <-. apply ft_inv_init.
  - rewrite run_succ in Hrun. apply bind_Ok_inv in Hrun as (s & Hs & Hstep).
    eapply ft_inv_step; eauto.
Qed.

(** The loop never fails on loaders that are fit for its epochs. *)
Lemma ft_run_ok (n : nat) :
  log_interval args ≠ 0 → fit_for_epochs tl vl tel (Z.of_nat n) →
  ∃ st, run (Z.of_nat n) = Ok st.
Proof.
  intros Hli. induction n as [|n IH]; intros Hfit.
  - simpl. eauto.
  - destruct IH as [s Hs]; [intros e He; apply Hfit; lia|].
    destruct (Hfit (Z.of_nat (S n)) ltac:(lia)) as (Htl & Hvu & Hvl & Htu & Htel).
    rewrite run_succ, Hs. simpl.
    pose proof (ft_inv_run n s Hs) as (Hb & Hval & _).
    unfold FineTune.main_epoch.
    destruct (ft_train_ok net args (tl (Z.of_nat (S n))) (FineTune.st_model s)
                (FineTune.st_optimizer s)
                (Z.of_nat (S n)) (FineTune.st_trace s) Hli Htl) as ([[m1 o1] tr1] & ->).
    simpl.
    destruct (ft_test_ok net m1 (vl (Z.of_nat (S n))) "Validation" Hvl Hvu)
      as (rv & a & ->). simpl.
    destruct (ft_test_ok net (model_eval m1) (tel (Z.of_nat (S n))) "Test" Htel Htu)
      as (rt & t & ->). simpl.
    rewrite getitem_insert_eq. simpl. unfold getitem.
    destruct (Hval (FineTune.st_best_epoch s) Hb) as (vb & Hvb).
    destruct (decide (FineTune.st_best_epoch s = Z.of_nat (S n))) as [Heq|Hne]; [lia|].
    rewrite lookup_insert_ne by (intros Hk; apply str_inj in Hk; lia).
    rewrite Hvb. simpl. destruct (s_leb vb a); eauto.
Qed.

(** Every accuracy in the dictionary of a run is the value that [test]
    returned in its epoch. *)
Lemma ft_recorded_run (n : nat) (st : FineTune.MainState) :
  run (Z.of_nat n) = Ok st →
  ∀ e, 1 ≤ e ≤ Z.of_nat n → recorded_by_test net fmt_1e args tl vl tel init st e.
Proof.
  revert st. induction n as [|n IH]; intros st Hrun e He; [lia|].
  rewrite run_succ in Hrun. apply bind_Ok_inv in Hrun as (s & Hs & Hstep).
  apply main_epoch_inv in Hstep
    as (m1 & o1 & tr1 & rv & a & rt & t & vb & Htrain & Hvalid & _ & _ & _ & Hva & _).
  destruct (decide (e = Z.of_nat (S n))) as [->|Hne].
  - exists s, m1, o1, tr1, (model_eval m1), rv, a.
    replace (Z.of_nat (S n) - 1) with (Z.of_nat n) by lia.
    split; [exact Hs|]. split; [exact Htrain|]. split; [exact Hvalid|].
    rewrite Hva. apply lookup_insert_eq.
  - destruct (IH s Hs e ltac:(lia))
      as (before & m & o & tr & m' & r & x & Hbefore & Htr & Hte & Hx).
    exists before, m, o, tr, m', r, x.
    split; [exact Hbefore|]. split; [exact Htr|]. split; [exact Hte|].
    rewrite Hva, lookup_insert_ne by (intros Hk; apply str_inj in Hk; lia). exact Hx.
Qed.

(** Selection invariant: under the order laws, the recorded best epoch is
    the last maximum of the accuracies recorded so far (epoch 0 holding the
    baseline 0.0), as long as these are non-negative. *)
Lemma ft_sel_run `{!ScalarOrder A} (n : nat) (st : FineTune.MainState) :
  run (Z.of_nat n) = Ok st →
  all_nonneg (FineTune.st_val_acc st) (Z.of_nat n) →
  FineTune.st_val_acc st !! str 0 = Some (PyFloat (s_of_Z 0)) ∧
  is_last_max (FineTune.st_val_acc st) 0 (Z.of_nat n) (FineTune.st_best_epoch st).
Proof.
  revert st. induction n as [|n IH]; intros st Hrun Hpos.
  - simpl in Hrun. injection Hrun as <-. split; [exact init_val|].
    unfold is_last_max. rewrite init_best. split; [lia|].
    exists (s_of_Z 0). split; [exact init_val|]. split.
    + intros e a He Ha. assert (e = 0) as -> by lia. rewrite init_val in Ha.
      inversion Ha; subst. apply ord_refl, ord_zero.
    + intros e a He. lia.
  - rewrite run_succ in Hrun. apply bind_Ok_inv in Hrun as (s & Hs & Hstep).
    pose proof (ft_inv_run n s Hs) as (Hb & _).
    apply main_epoch_inv in Hstep
      as (m1 & o1 & tr1 & rv & a & rt & t & vb & _ & _ & _ & _ & _ & Hva & _ & Hvb & Hsel).
    assert (Hfresh : ∀ e, e ≤ Z.of_nat n → str (Z.of_nat (S n)) ≠ str e)
      by (intros e He Hk; apply str_inj in Hk; lia).
    rewrite Hva in Hpos |- *.
    assert (Hpos_s : all_nonneg (FineTune.st_val_acc s) (Z.of_nat n)).
    { intros e x He Hx. apply (Hpos e x); [lia|].
      rewrite lookup_insert_ne by (apply Hfresh; lia). exact Hx. }
    destruct (IH s Hs Hpos_s) as (H0 & _ & ab & Hab & Hmax & Hlast).
    rewrite lookup_insert_ne in Hvb by (apply Hfresh; lia).
    rewrite Hab in Hvb. inversion Hvb; subst vb. clear Hvb.
    assert (Ha : nonneg a).
    { apply (Hpos (Z.of_nat (S n)) a); [lia|]. apply lookup_insert_eq. }
    assert (Hnab : nonneg ab).
    { destruct (decide (FineTune.st_best_epoch s = 0)) as [Hz|Hnz].
      - rewrite Hz, H0 in Hab. inversion Hab; subst. apply ord_zero.
      - apply (Hpos_s (FineTune.st_best_epoch s) ab); [lia | exact Hab]. }
    assert (Hnn : ∀ e x, 0 ≤ e ≤ Z.of_nat n →
              FineTune.st_val_acc s !! str e = Some (PyFloat x) → nonneg x).
    { intros e x He Hx. destruct (decide (e = 0)) as [->|Hnz].
      - rewrite H0 in Hx. inversion Hx; subst. apply ord_zero.
      - apply (Hpos_s e x); [lia | exact Hx]. }
    split; [rewrite lookup_insert_ne by (apply Hfresh; lia); exact H0|].
    destruct Hsel as [(Hle & -> & _)|(Hle & -> & _)]; unfold is_last_max.
    + split; [lia|]. exists a. rewrite lookup_insert_eq. split; [reflexivity|]. split.
      * intros e x He Hx. destruct (decide (e = Z.of_nat (S n))) as [->|Hne].
        -- rewrite lookup_insert_eq in Hx. inversion Hx; subst. apply ord_refl, Ha.
        -- rewrite lookup_insert_ne in Hx by (apply Hfresh; lia).
           apply (ord_trans x ab a); auto.
           ++ apply (Hnn e x); [lia | exact Hx].
           ++ apply (Hmax e x); [lia | exact Hx].
      * intros e x He. lia.
    + split; [lia|]. exists ab.
      rewrite lookup_insert_ne by (apply Hfresh; lia). split; [exact Hab|]. split.
      * intros e x He Hx. destruct (decide (e = Z.of_nat (S n))) as [->|Hne].
        -- rewrite lookup_insert_eq in Hx. inversion Hx; subst.
           apply ord_total; assumption.
        -- rewrite lookup_insert_ne in Hx by (apply Hfresh; lia).
           apply (Hmax e x); [lia | exact Hx].
      * intros e x He Hx. destruct (decide (e = Z.of_nat (S n))) as [->|Hne].
        -- rewrite lookup_insert_eq in Hx. inversion Hx; subst. exact Hle.
        -- rewrite lookup_insert_ne in Hx by (apply Hfresh; lia).
           apply (Hlast e x); [lia | exact Hx].
Qed.

End FineTuneInvariant.

Section FineTuneTheorems.
Context {A Params Input Output OptState : Type} `{Scalar A}.
Context (net : Network A Params Input Output OptState) (fmt_1e : A → string).
Context (args : Args A) (tl vl tel : Loader Input).

Lemma main_init_val (model : Model Params) (opt : Optimizer OptState) fs tr0 :
  FineTune.st_val_acc (FineTune.main_init (A:=A) model opt fs tr0) !! str 0
  = Some (PyFloat (s_of_Z 0)).
Proof. simpl. apply lookup_insert_eq. Qed.

Lemma is_last_max_from_one `{!ScalarOrder A} (val_acc : gmap string (pyval A)) (n b : Z) :
  1 ≤ n → val_acc !! str 0 = Some (PyFloat (s_of_Z 0)) →
  all_nonneg val_acc n →
  (∀ e, 1 ≤ e ≤ n → ∃ a, val_acc !! str e = Some (PyFloat a)) →
  is_last_max val_acc 0 n b → is_last_max val_acc 1 n b.
Proof.
  intros Hn H0 Hpos Hall ((Hb0 & Hbn) & ab & Hab & Hmax & Hlast).
  assert (Hb1 : 1 ≤ b).
  { destruct (decide (b = 0)) as [->|Hne]; [|lia]. exfalso.
    rewrite H0 in Hab. inversion Hab; subst ab.
    destruct (Hall 1 ltac:(lia)) as (a1 & Ha1).
    pose proof (Hlast 1 a1 ltac:(lia) Ha1) as Hlt.
    pose proof (Hpos 1 a1 ltac:(lia) Ha1) as Hge. unfold nonneg in Hge. congruence. }
  split; [lia|]. exists ab. split; [exact Hab|]. split; [|exact Hlast].
  intros e a He. apply Hmax. lia.
Qed.

(** C3.  In the fine-tune driver, on a run of at least one epoch (with a
    non-zero log interval and loaders that are fit for the epochs: no batch
    of a single sample, no empty validation or test set, so that no step
    raises), the epoch loop completes, and the accuracy it has recorded for
    an epoch is the value that [test] returned for the validation loader
    after the training of that epoch.  If these accuracies are non-negative,
    the best epoch that the final lines report is the last epoch whose
    accuracy is the maximum of the sequence; and since the baseline of
    epoch 0 is 0.0, epoch 1 saves the first checkpoint. *)
Theorem best_epoch_is_last_maximum `{!ScalarOrder A}
    (model : Model Params) (opt : Optimizer OptState)
    (fs : gmap string Params) (tr0 : list (event A Params)) :
  log_interval args ≠ 0 →
  fit_for_epochs tl vl tel (epochs args) →
  0 < epochs args →
  checkpoint_selector_contract net fmt_1e args tl vl tel
    (FineTune.main_init model opt fs tr0).
Proof.
  intros Hli Hfit Hep.
  set (init := FineTune.main_init model opt fs tr0).
  assert (Hiv : FineTune.st_val_acc init !! str 0 = Some (PyFloat (s_of_Z 0)))
    by apply main_init_val.
  assert (Hib : FineTune.st_best_epoch init = 0) by reflexivity.
  destruct (ft_run_ok net fmt_1e args tl vl tel init Hiv Hib (Z.to_nat (epochs args)) Hli)
    as (st & Hrun); [rewrite Z2Nat.id by lia; exact Hfit|].
  pose proof (ft_inv_run net fmt_1e args tl vl tel init Hiv Hib _ _ Hrun)
    as (Hb & Hval & Htest & _).
  pose proof (ft_recorded_run net fmt_1e args tl vl tel init _ _ Hrun) as Hrec.
  rewrite Z2Nat.id in * by lia.
  exists st. split; [exact Hrun|]. split; [exact Hrec|]. split.
  - intros Hpos b.
    destruct (ft_sel_run net fmt_1e args tl vl tel init Hiv Hib (Z.to_nat (epochs args)) st)
      as (H0 & Hmax).
    { rewrite Z2Nat.id by lia. exact Hrun. }
    { rewrite Z2Nat.id by lia. exact Hpos. }
    rewrite Z2Nat.id in Hmax by lia.
    apply is_last_max_from_one in Hmax; auto; [|lia|intros e He; apply Hval; lia].
    split; [exact Hmax|].
    destruct Hmax as (Hb1 & _).
    destruct (Hval b ltac:(subst b; lia)) as (v & Hv).
    destruct (Htest b ltac:(subst b; lia)) as (t & Ht).
    unfold FineTune.log_results, getitem. fold b. rewrite Hv, Ht. simpl.
    eexists _, v, t. repeat split; reflexivity.
  - destruct (ft_run_ok net fmt_1e args tl vl tel init Hiv Hib 1 Hli)
      as (st1 & Hrun1); [intros e He; apply Hfit; lia|].
    unfold FineTune.run_epochs in Hrun1.
    change (seqZ 1 (Z.of_nat 1)) with [1] in Hrun1. simpl in Hrun1.
    apply bind_Ok_inv in Hrun1 as (s1 & Hstep & Hret). inversion Hret; subst s1.
    exists st1. split; [exact Hstep|]. intros a Ha Hpos.
    apply main_epoch_inv in Hstep
      as (m1 & o1 & tr1 & rv & a' & rt & t & vb & _ & _ & _ & Hm & _ & Hva & _ & Hvb & Hsel).
    rewrite Hva, lookup_insert_eq in Ha. inversion Ha; subst a'.
    rewrite lookup_insert_ne in Hvb by (intros Hk; apply str_inj in Hk; discriminate).
    change (FineTune.st_best_epoch init) with 0 in Hvb. rewrite Hiv in Hvb.
    inversion Hvb; subst vb. unfold nonneg in Hpos.
    destruct Hsel as [(_ & Hbe & Hfs & Htr)|(Hle & _)]; [|congruence].
    rewrite Hbe, Hfs, Htr, Hm, lookup_insert_eq, last_snoc. auto.
Qed.

End FineTuneTheorems.

Lemma steps_of_silent {A Params : Type} (epoch : Z) (groups : list (gmap string float))
    (l : list (event A Params)) :
  Forall (λ ev, is_step ev = false) l → steps_of epoch groups l.
Proof.
  intros Hall ev Hin Hs. rewrite Forall_forall in Hall. apply Hall in Hin. congruence.
Qed.

Section FineTuneEpochSteps.
Context {A Params Input Output OptState : Type} `{Scalar A}.
Context (net : Network A Params Input Output OptState) (fmt_1e : A → string).
Context (args : Args A) (tl vl tel : DataLoader Input).

Lemma main_epoch_steps (st st' : FineTune.MainState) (e : Z) :
  FineTune.main_epoch net fmt_1e args tl vl tel st e = Ok st' →
  param_groups (FineTune.st_optimizer st')
    = param_groups (FineTune.adjust_learning_rate (FineTune.st_optimizer st) e) ∧
  ∃ new, FineTune.st_trace st' = FineTune.st_trace st ++ new ∧
         steps_of e (param_groups (FineTune.st_optimizer st)) new.
Proof.
  intros Hstep. apply main_epoch_inv in Hstep
    as (m1 & o1 & tr1 & rv & a & rt & t & vb & Htrain & _ & _ & _ & Ho & _ & _ & _ & Hsel).
  apply ft_train_shape in Htrain as (Hg & new & -> & Hnew).
  split; [rewrite Ho; apply adjust_same_groups, Hg|].
  destruct Hsel as [(_ & _ & _ & ->)|(_ & _ & _ & ->)]; rewrite <- !app_assoc;
    eexists; (split; [reflexivity|]); apply steps_of_app; try exact Hnew;
    apply steps_of_silent; repeat constructor.
Qed.

End FineTuneEpochSteps.

Section FineTuneRates.
Context {A Params Input Output OptState : Type} `{Scalar A}.
Context (net : Network A Params Input Output OptState) (fmt_1e : A → string).
Context (args : Args A) (tl vl tel : Loader Input).
Context (init : FineTune.MainState (A:=A) (Params:=Params) (OptState:=OptState)).

Lemma ft_rates_run (n : nat) (st : FineTune.MainState) :
  FineTune.run_epochs net fmt_1e args tl vl tel (Z.of_nat n) init = Ok st →
  param_groups (FineTune.st_optimizer st)
    = groups_in_epoch (FineTune.st_optimizer init) (Z.of_nat n + 1) ∧
  ∃ new, FineTune.st_trace st = FineTune.st_trace init ++ new ∧
    ∀ e i groups, OptimizerStep e i groups ∈ new →
      1 ≤ e ≤ Z.of_nat n ∧ groups = groups_in_epoch (FineTune.st_optimizer init) e.
Proof.
  revert st. induction n as [|n IH]; intros st Hrun.
  - simpl in Hrun. inversion Hrun; subst. split; [reflexivity|].
    exists []. rewrite app_nil_r. split; [reflexivity|]. intros e i g Hin. inversion Hin.
  - rewrite run_succ in Hrun. apply bind_Ok_inv in Hrun as (s & Hs & Hstep).
    destruct (IH s Hs) as (Hg & new & Htr & Hnew).
    apply main_epoch_steps in Hstep as (Hg' & new' & Htr' & Hnew').
    split.
    + rewrite Hg'. unfold groups_in_epoch.
      replace (Z.of_nat (S n) + 1 =? 1) with false by (symmetry; apply Z.eqb_neq; lia).
      replace (Z.of_nat (S n) + 1 - 1) with (Z.of_nat (S n)) by lia.
      unfold groups_in_epoch in Hg. destruct (Z.of_nat n + 1 =? 1).
      * apply adjust_same_groups, Hg.
      * unfold FineTune.adjust_learning_rate at 1. simpl. rewrite Hg.
        apply (adjust_twice (FineTune.st_optimizer init)).
    + exists (new ++ new'). rewrite Htr', Htr, app_assoc. split; [reflexivity|].
      intros e i g Hin. apply elem_of_app in Hin as [Hin|Hin].
      * apply Hnew in Hin as (He & ->). split; [lia | reflexivity].
      * destruct (Hnew' _ Hin eq_refl) as (j & Hev). inversion Hev; subst.
        split; [lia|]. rewrite Hg. f_equal. lia.
Qed.

End FineTuneRates.

Lemma run_epochs_to_nat {A Params Input Output OptState : Type} `{Scalar A}
    (net : Network A Params Input Output OptState) (fmt_1e : A → string)
    (args : Args A) (tl vl tel : Loader Input) (n : Z)
    (init : FineTune.MainState (A:=A) (Params:=Params) (OptState:=OptState)) :
  FineTune.run_epochs net fmt_1e args tl vl tel (Z.of_nat (Z.to_nat n)) init
  = FineTune.run_epochs net fmt_1e args tl vl tel n init.
Proof.
  unfold FineTune.run_epochs.
  destruct (Z.le_gt_cases 0 n); [rewrite Z2Nat.id by lia; reflexivity|].
  unfold seqZ. replace (Z.to_nat n) with 0%nat by lia. reflexivity.
Qed.

Section RateTheorem.
Context {A Params Input Output OptState : Type} `{Scalar A}.
Context (net : Network A Params Input Output OptState) (fmt_1e : A → string).
Context (args : Args A) (tl vl tel : Loader Input).

(** C4 (amended).  In the fine-tune driver [adjust_learning_rate(optimizer,
    n)] runs after the training and evaluation of epoch n.  So, on a run
    whose loaders are fit for the epochs (no batch of a single sample, no
    empty validation or test set) and whose log interval is not zero, the
    loop completes, every optimizer step of epoch 1 uses the rate the
    optimizer was built with ([--lr]), every optimizer step of an epoch
    n >= 2 uses the rate the schedule assigns to n - 1, and the rate of
    epoch n is in the optimizer only once epoch n is over. *)
Theorem epoch_trains_with_previous_rate
    (model : Model Params) (opt : Optimizer OptState)
    (fs : gmap string Params) (tr0 : list (event A Params)) :
  log_interval args ≠ 0 →
  fit_for_epochs tl vl tel (epochs args) →
  rate_contract net fmt_1e args tl vl tel (FineTune.main_init model opt fs tr0).
Proof.
  intros Hli Hfit.
  set (init := FineTune.main_init model opt fs tr0).
  destruct (ft_run_ok net fmt_1e args tl vl tel init (main_init_val model opt fs tr0)
              eq_refl (Z.to_nat (epochs args)) Hli) as (st & Hrun).
  { intros e He. apply Hfit. lia. }
  destruct (ft_rates_run net fmt_1e args tl vl tel init _ _ Hrun)
    as (Hg & new & Htr & Hnew).
  rewrite run_epochs_to_nat in Hrun.
  exists st, new. unfold FineTune.main_loop.
  split; [exact Hrun|]. split; [exact Htr|]. split.
  - intros e i g Hin. apply Hnew in Hin as (He & ->). split; [lia | reflexivity].
  - intros Hep. rewrite Hg. unfold groups_in_epoch.
    rewrite Z2Nat.id by lia.
    replace (epochs args + 1 =? 1) with false by (symmetry; apply Z.eqb_neq; lia).
    replace (epochs args + 1 - 1) with (epochs args) by lia. reflexivity.
Qed.

End RateTheorem.

Lemma toy_loader_fit {A : Type} `{Scalar A} (n : Z) :
  fit_for_epochs (λ _, toy_loader (A:=A)) (λ _, toy_loader) (λ _, toy_loader) n.
Proof.
  intros e _. pose proof (toy_loader_no_unit_batch (A:=A)) as Hu.
  repeat split; try exact Hu; discriminate.
Qed.

(** C4, as stated, fails at epoch 50: both optimizer steps of that epoch
    run with the rate 1e-2 of epoch 49, while the schedule assigns 5e-3
    to epoch 50. *)
Lemma epoch_50_trains_with_rate_of_epoch_49 :
  ∃ st,
    FineTune.main_loop toy_net toy_fmt (toy_args 50 false)
      (λ _, toy_loader) (λ _, toy_loader) (λ _, toy_loader) (toy_init 0) = Ok st ∧
    step_rates 50 (FineTune.st_trace st) = [[Some 1e-2%float]; [Some 1e-2%float]] ∧
    group_rates (FineTune.adjust_learning_rate toy_optimizer 50) = [Some 5e-3%float] ∧
    1e-2%float ≠ 5e-3%float.
Proof.
  eexists. split; [vm_compute; reflexivity|].
  split; [vm_compute; reflexivity|]. split; [vm_compute; reflexivity|].
  apply float_neq; vm_compute; reflexivity.
Qed.

Lemma epoch_trains_with_previous_rate_witness :
  log_interval (toy_args (A:=float) 3 false) ≠ 0 ∧
  fit_for_epochs (λ _, toy_loader (A:=float)) (λ _, toy_loader) (λ _, toy_loader) 3 ∧
  rate_contract toy_net toy_fmt (toy_args 3 false)
    (λ _, toy_loader) (λ _, toy_loader) (λ _, toy_loader) (toy_init 0).
Proof.
  assert (H1 : log_interval (toy_args (A:=float) 3 false) ≠ 0) by discriminate.
  split; [exact H1 | split; [exact (toy_loader_fit 3)|]].
  exact (epoch_trains_with_previous_rate toy_net toy_fmt (toy_args 3 false)
           (λ _, toy_loader) (λ _, toy_loader) (λ _, toy_loader)
           {| params := 0; training := true |} toy_optimizer ∅ [] H1 (toy_loader_fit 3)).
Defined.

(** ** The search driver's checkpoint *)

Section SearchLemmas.
Context {A Params Input Output OptState : Type} `{Scalar A}.
Context (net : Network A Params Input Output OptState) (fmt_1e : A → string).
Context (args : Args A).

Lemma search_main_epoch_fs (tl tel : DataLoader Input) (st st' : Search.MainState) (e : Z) :
  Search.main_epoch net args tl tel st e = Ok st' → Search.st_fs st' = Search.st_fs st.
Proof.
  unfold Search.main_epoch. intros Hrun.
  apply bind_Ok_inv in Hrun as ([[m1 o1] tr1] & _ & Hrun).
  apply bind_Ok_inv in Hrun as ([[m2 r] v] & _ & Hrun).
  inversion Hrun; subst. reflexivity.
Qed.

Lemma search_loop_fs (tl tel : Loader Input) (es : list Z) :
  ∀ st st',
  for_each (λ st epoch, Search.main_epoch net args (tl epoch) (tel epoch) st epoch) es st
    = Ok st' →
  Search.st_fs st' = Search.st_fs st.
Proof.
  induction es as [|e es IH]; intros st st' Hrun; simpl in Hrun.
  - inversion Hrun; subst. reflexivity.
  - apply bind_Ok_inv in Hrun as (s & Hs & Hrun).
    rewrite (IH _ _ Hrun). eapply search_main_epoch_fs, Hs.
Qed.

Lemma search_main_finish_inv (size_i ops_i : A) (alive_i : list (string * A))
    (st st' : Search.MainState) :
  Search.main_finish net fmt_1e args size_i ops_i alive_i st = Ok st' →
  Search.st_model st' = Search.st_model st ∧
  Search.st_fs st' =
    <[Search.checkpoint_path fmt_1e args := params (Search.st_model st)]> (Search.st_fs st).
Proof.
  unfold Search.main_finish. intros Hrun.
  apply bind_Ok_inv in Hrun as ([size_f ops_f] & _ & Hrun).
  apply bind_Ok_inv in Hrun as (tr & _ & Hrun).
  inversion Hrun; subst. split; reflexivity.
Qed.

Lemma search_main_inv (env : Search.Env) (st : Search.MainState) :
  Search.main net fmt_1e args env = Ok st →
  if eval_complexity args then Search.st_fs st = Search.disk env
  else
    Search.st_fs st
      = <[Search.checkpoint_path fmt_1e args := params (Search.st_model st)]> (Search.disk env) ∧
    ∃ train_loader test_loader st0 after_loop,
      Search.main_loop net args train_loader test_loader st0 = Ok after_loop ∧
      Search.st_fs after_loop = Search.disk env ∧
      Search.st_model after_loop = Search.st_model st.
Proof.
  unfold Search.main. intros Hrun. cbv zeta in Hrun.
  apply bind_Ok_inv in Hrun as (train_loader & _ & Hrun).
  apply bind_Ok_inv in Hrun as (test_loader & _ & Hrun).
  apply bind_Ok_inv in Hrun as ([[m r] v] & _ & Hrun).
  apply bind_Ok_inv in Hrun as ([size_i ops_i] & _ & Hrun).
  destruct (eval_complexity args).
  - inversion Hrun; subst. reflexivity.
  - apply bind_Ok_inv in Hrun as (after_loop & Hloop & Hfin).
    apply search_main_finish_inv in Hfin as (Hm & Hfs).
    pose proof (search_loop_fs _ _ _ _ _ Hloop) as Hdisk. simpl in Hdisk.
    rewrite Hfs, Hdisk, Hm. split; [reflexivity|].
    eexists _, _, _, after_loop. split; [exact Hloop|]. split; [exact Hdisk | reflexivity].
Qed.

End SearchLemmas.

Section CheckpointTheorem.
Context {A Params Input Output OptState : Type} `{Scalar A}.
Context (net : Network A Params Input Output OptState) (fmt_1e : A → string).
Context (args : Args A) (tl vl tel : Loader Input).


(** C2: with [--no-cuda], or without CUDA, the fine-tune driver does not
    fall back: [cuda_kwargs] is bound only under [if use_cuda], and the
    first [DataLoader(..., **cuda_kwargs)] raises; no loader is built and
    nothing is trained.  (Without a single training sample [np.vstack]
    raises before that.) *)
Theorem fine_tune_main_raises_without_cuda (ft_env : FineTune.Env) :
  no_cuda args = true ∨ FineTune.cuda_is_available ft_env = false →
  FineTune.main net fmt_1e args ft_env
  = Raise (match FineTune.train_set ft_env with
           | [] => ValueError
           | _ => UnboundLocalError "cuda_kwargs"
           end).
Proof.
  intros Hcpu. unfold FineTune.main.
  assert (Huse : negb (no_cuda args) && FineTune.cuda_is_available ft_env = false).
  { destruct Hcpu as [-> | ->]; [reflexivity | apply andb_false_r]. }
  rewrite Huse. destruct (FineTune.train_set ft_env); reflexivity.
Qed.

End CheckpointTheorem.


Lemma search_loss_adds_size_and_ops_penalties_witness :
  size_dict (toy_net (A:=float)) 0 ≠ [] ∧
  size_target (toy_args (A:=float) 1 false) = s_of_Z 0 ∧
  cd_size (toy_args (A:=float) 1 false) = s_of_Z 1 ∧
  nonneg (aggregate (size_dict (toy_net (A:=float)) 0)) ∧
  Search.train_loss (A:=float) toy_net (toy_args 1 false) 0 1%float =
    Ok (s_add 1%float
          (s_add (s_mul (s_abs (s_sub (aggregate (size_dict (toy_net (A:=float)) 0))
                                      (size_target (toy_args 1 false))))
                        (cd_size (toy_args 1 false)))
                 (s_mul (aggregate (ops_dict (toy_net (A:=float)) 0))
                        (cd_ops (toy_args 1 false)))),
        s_mul (s_abs (s_sub (aggregate (size_dict (toy_net (A:=float)) 0))
                            (size_target (toy_args 1 false))))
              (cd_size (toy_args 1 false)),
        s_mul (aggregate (ops_dict (toy_net (A:=float)) 0)) (cd_ops (toy_args 1 false))) ∧
  s_mul (s_abs (s_sub (aggregate (size_dict (toy_net (A:=float)) 0))
                      (size_target (toy_args 1 false))))
        (cd_size (toy_args 1 false))
    = aggregate (size_dict (toy_net (A:=float)) 0).
Proof.
  assert (H1 : size_dict (toy_net (A:=float)) 0 ≠ []) by discriminate.
  assert (H4 : nonneg (aggregate (size_dict (toy_net (A:=float)) 0))) by reflexivity.
  pose proof (search_loss_adds_size_and_ops_penalties (A:=float) toy_net
                (toy_args 1 false) 0 1%float H1) as [H2 H3].
  split; [exact H1|]. split; [reflexivity|]. split; [reflexivity|].
  split; [exact H4|]. split; [exact H2|].
  exact (H3 float_penalty eq_refl eq_refl H4).
Defined.

Lemma dry_run_trains_on_one_batch_witness :
  batches (toy_loader (A:=float)) = take 2 toy_samples :: [drop 2 toy_samples] ∧
  0 < log_interval (toy_args (A:=float) 1 true) ∧
  dry_run (toy_args (A:=float) 1 true) = true ∧
  length (take 2 (toy_samples (A:=float))) ≠ 1%nat ∧
  (∃ new m o,
     FineTune.train (A:=float) toy_net (toy_args 1 true) toy_model toy_loader
       toy_optimizer 1 [] = Ok (m, o, new) ∧
     params m = 2 ∧
     count_true (is_step <$> new) = 1 ∧ count_true (is_train_line <$> new) = 1) ∧
  (∃ new m o,
     Search.train (A:=float) toy_net (toy_args 1 true) toy_model toy_loader
       toy_optimizer 1 [] = Ok (m, o, new) ∧
     params m = 2 ∧
     count_true (is_step <$> new) = 1 ∧ count_true (is_train_line <$> new) = 1).
Proof.
  assert (H1 : batches (toy_loader (A:=float)) = take 2 toy_samples :: [drop 2 toy_samples])
    by reflexivity.
  assert (H2 : 0 < log_interval (toy_args (A:=float) 1 true)) by reflexivity.
  assert (H3 : dry_run (toy_args (A:=float) 1 true) = true) by reflexivity.
  assert (H4 : length (take 2 (toy_samples (A:=float))) ≠ 1%nat) by (simpl; lia).
  pose proof (dry_run_trains_on_one_batch (A:=float) toy_net (toy_args 1 true) toy_model
                toy_loader toy_optimizer 1 [] _ _ H1 H2 H3) as (Hft & _ & Hsearch).
  split; [exact H1 | split; [exact H2 | split; [exact H3 | split; [exact H4 | split]]]].
  - destruct (Hft H4) as (new & Hrun & _ & Hs & Hl).
    eexists new, _, _. split; [exact Hrun|]. split; [reflexivity | split; assumption].
  - destruct Hsearch as (new & loss & ls & lo & _ & Hrun & _ & Hs & Hl);
      [discriminate | discriminate |].
    eexists new, _, _. split; [exact Hrun|]. split; [reflexivity | split; assumption].
Defined.

Lemma evaluation_is_batching_invariant_witness :
  concat (batches (toy_loader (A:=float))) ≡ₚ concat (batches (toy_loader_swapped (A:=float))) ∧
  length (dataset (toy_loader (A:=float))) = length (dataset (toy_loader_swapped (A:=float))) ∧
  dataset (toy_loader (A:=float)) ≠ [] ∧
  no_unit_batch (toy_loader (A:=float)) ∧ no_unit_batch (toy_loader_swapped (A:=float)) ∧
  (∃ q1 q2 w,
     Search.test (A:=float) toy_net toy_model toy_loader = Ok (model_eval toy_model, q1, w) ∧
     Search.test (A:=float) toy_net toy_model toy_loader_swapped
       = Ok (model_eval toy_model, q2, w) ∧
     r_correct q1 = r_correct q2 ∧ r_accuracy q1 = r_accuracy q2) ∧
  (∃ r1 r2 v,
     FineTune.test (A:=float) toy_net toy_model toy_loader "Validation"
       = Ok (model_eval toy_model, r1, v) ∧
     FineTune.test (A:=float) toy_net toy_model toy_loader_swapped "Validation"
       = Ok (model_eval toy_model, r2, v) ∧
     r_correct r1 = r_correct r2 ∧ r_accuracy r1 = r_accuracy r2) ∧
  (∃ r1 r2 v,
     FineTune.test (A:=Q) toy_net toy_model toy_loader "Validation"
       = Ok (model_eval toy_model, r1, v) ∧
     FineTune.test (A:=Q) toy_net toy_model toy_loader_swapped "Validation"
       = Ok (model_eval toy_model, r2, v) ∧
     r_loss r1 = r_loss r2).
Proof.
  assert (H1 : concat (batches (toy_loader (A:=float)))
               ≡ₚ concat (batches (toy_loader_swapped (A:=float))))
    by exact (Permutation_app_comm (take 2 (toy_samples (A:=float))) (drop 2 toy_samples)).
  assert (H1q : concat (batches (toy_loader (A:=Q)))
                ≡ₚ concat (batches (toy_loader_swapped (A:=Q))))
    by exact (Permutation_app_comm (take 2 (toy_samples (A:=Q))) (drop 2 toy_samples)).
  assert (H2 : length (dataset (toy_loader (A:=float)))
               = length (dataset (toy_loader_swapped (A:=float)))) by reflexivity.
  assert (H3 : dataset (toy_loader (A:=float)) ≠ []) by discriminate.
  assert (H3q : dataset (toy_loader (A:=Q)) ≠ []) by discriminate.
  split; [exact H1 | split; [exact H2 | split; [exact H3|]]].
  split; [exact toy_loader_no_unit_batch | split; [exact toy_loader_swapped_no_unit_batch|]].
  destruct (evaluation_is_batching_invariant (A:=float) toy_net toy_model toy_loader
              toy_loader_swapped "Validation" H1 H2 H3) as (Hs & Hf).
  split; [|split].
  - destruct Hs as (q1 & q2 & w & Ha & Hb & Hc & Hd & _).
    exists q1, q2, w. auto.
  - destruct (Hf toy_loader_no_unit_batch toy_loader_swapped_no_unit_batch)
      as (r1 & r2 & v & Ha & Hb & Hc & Hd & _).
    exists r1, r2, v. auto.
  - destruct (evaluation_is_batching_invariant (A:=Q) toy_net toy_model toy_loader
                toy_loader_swapped "Validation" H1q eq_refl H3q) as (_ & Hq).
    destruct (Hq toy_loader_no_unit_batch toy_loader_swapped_no_unit_batch)
      as (r1 & r2 & v & Ha & Hb & _ & _ & He).
    exists r1, r2, v. split; [exact Ha | split; [exact Hb |]].
    exact (He Q_exact toy_net_additive).
Defined.

Lemma best_epoch_is_last_maximum_witness :
  log_interval (toy_args (A:=float) 3 false) ≠ 0 ∧
  fit_for_epochs (λ _, toy_loader (A:=float)) (λ _, toy_loader) (λ _, toy_loader) 3 ∧
  0 < epochs (toy_args (A:=float) 3 false) ∧
  checkpoint_selector_contract toy_net toy_fmt (toy_args 3 false)
    (λ _, toy_loader) (λ _, toy_loader) (λ _, toy_loader) (toy_init (-1)).
Proof.
  assert (H1 : log_interval (toy_args (A:=float) 3 false) ≠ 0) by discriminate.
  assert (H3 : 0 < epochs (toy_args (A:=float) 3 false)) by reflexivity.
  split; [exact H1 | split; [exact (toy_loader_fit 3) | split; [exact H3|]]].
  exact (best_epoch_is_last_maximum toy_net toy_fmt (toy_args 3 false)
           (λ _, toy_loader) (λ _, toy_loader) (λ _, toy_loader)
           {| params := -1; training := true |} toy_optimizer ∅ [] H1 (toy_loader_fit 3) H3).
Defined.


Lemma fine_tune_main_raises_without_cuda_witness :
  (no_cuda (toy_args (A:=float) 3 false) = true ∨
   FineTune.cuda_is_available (toy_ft_env true) = false) ∧
  FineTune.main toy_net toy_fmt (toy_args 3 false) (toy_ft_env true)
    = Raise (UnboundLocalError "cuda_kwargs").
Proof.
  assert (H1 : no_cuda (toy_args (A:=float) 3 false) = true ∨
               FineTune.cuda_is_available (toy_ft_env true) = false)
    by (left; reflexivity).
  split; [exact H1|].
  exact (fine_tune_main_raises_without_cuda toy_net toy_fmt (toy_args 3 false)
           (toy_ft_env true) H1).
Defined.

(** ** Further properties of the drivers *)

Lemma seqZ_S (m : Z) (n : nat) : seqZ m (Z.of_nat (S n)) = m :: seqZ (m + 1) (Z.of_nat n).
Proof.
  rewrite seqZ_cons by lia. f_equal. f_equal; lia.
Qed.

Lemma log_points_S (li first : Z) (n : nat) :
  log_points li first (S n) = (if first `mod` li =? 0 then 1 else 0) + log_points li (first + 1) n.
Proof. unfold log_points. rewrite seqZ_S. reflexivity. Qed.

Section FullTrain.
Context {A Params Input Output OptState : Type} `{Scalar A}.
Context (net : Network A Params Input Output OptState).
Context (args : Args A) (tl : DataLoader Input).

Lemma ft_train_loop_full (epoch : Z) (todo : list (list (Input * Z))) :
  log_interval args ≠ 0 → dry_run args = false → batches tl ≠ [] →
  Forall (λ b, length b ≠ 1%nat) todo →
  ∀ idx p (o : Optimizer OptState) tr,
  ∃ new,
    FineTune.train_loop net args epoch tl todo idx p o tr =
      Ok ((steps_through net (param_groups o) (batch_loss net) todo (p, opt_state o)).1,
          {| param_groups := param_groups o;
             opt_state := (steps_through net (param_groups o) (batch_loss net) todo
                             (p, opt_state o)).2 |},
          tr ++ new) ∧
    count_true (is_step <$> new) = Z.of_nat (length todo) ∧
    count_true (is_train_line <$> new) = log_points (log_interval args) idx (length todo).
Proof.
  intros Hli Hdry Hne Hunit.
  assert (Hlen : (Z.of_nat (length (batches tl)) =? 0) = false).
  { apply Z.eqb_neq. destruct (batches tl); [congruence | simpl; lia]. }
  induction Hunit as [|b todo Hb1 _ IH]; intros idx p o tr.
  - exists []. simpl. rewrite app_nil_r. destruct o. auto.
  - cbn [FineTune.train_loop]. rewrite (model_input_ok b Hb1), bind_Ok.
    unfold steps_through. cbn [fold_left fst snd].
    destruct (backward_step net (param_groups o) (opt_state o) p b (batch_loss net p b))
      as [p1 os1] eqn:Hstep.
    replace (log_interval args =? 0) with false by (symmetry; apply Z.eqb_neq, Hli).
    change (length (b :: todo)) with (S (length todo)).
    rewrite log_points_S, Nat2Z.inj_succ.
    destruct (idx `mod` log_interval args =? 0).
    + unfold py_div. rewrite Hlen, bind_Ok, Hdry.
      destruct (IH (idx + 1) p1 {| param_groups := param_groups o; opt_state := os1 |}
                  ((tr ++ [OptimizerStep epoch idx (param_groups o)]) ++
                   [Print (TrainLine epoch (idx * Z.of_nat (length b))
                             (Z.of_nat (length (dataset tl)))
                             (s_div (s_mul (s_of_Z 100) (s_of_Z idx))
                                    (s_of_Z (Z.of_nat (length (batches tl)))))
                             (batch_loss net p b) None)]))
        as (new & Hrun & Hs & Hl).
      eexists. split; [rewrite Hrun; cbn [param_groups opt_state]; unfold steps_through;
                       rewrite <- !app_assoc; reflexivity|].
      rewrite !fmap_app, !count_true_app, Hs, Hl. cbn. split; lia.
    + destruct (IH (idx + 1) p1 {| param_groups := param_groups o; opt_state := os1 |}
                  (tr ++ [OptimizerStep epoch idx (param_groups o)]))
        as (new & Hrun & Hs & Hl).
      eexists. split; [rewrite Hrun; cbn [param_groups opt_state]; unfold steps_through;
                       rewrite <- !app_assoc; reflexivity|].
      rewrite !fmap_app, !count_true_app, Hs, Hl. cbn. split; lia.
Qed.

Lemma search_train_loop_full (epoch : Z) (todo : list (list (Input * Z))) :
  log_interval args ≠ 0 → dry_run args = false → batches tl ≠ [] →
  (∀ p, size_dict net p ≠ []) → (∀ p, ops_dict net p ≠ []) →
  ∀ idx p (o : Optimizer OptState) tr,
  ∃ new,
    Search.train_loop net args epoch tl todo idx p o tr =
      Ok ((steps_through net (param_groups o) (search_objective net args) todo
             (p, opt_state o)).1,
          {| param_groups := param_groups o;
             opt_state := (steps_through net (param_groups o) (search_objective net args)
                             todo (p, opt_state o)).2 |},
          tr ++ new) ∧
    count_true (is_step <$> new) = Z.of_nat (length todo) ∧
    count_true (is_train_line <$> new) = log_points (log_interval args) idx (length todo).
Proof.
  intros Hli Hdry Hne Hsize Hops.
  assert (Hlen : (Z.of_nat (length (batches tl)) =? 0) = false).
  { apply Z.eqb_neq. destruct (batches tl); [congruence | simpl; lia]. }
  induction todo as [|b todo IH]; intros idx p o tr.
  - exists []. simpl. rewrite app_nil_r. destruct o. auto.
  - cbn [Search.train_loop]. unfold steps_through. cbn [fold_left fst snd].
    rewrite (train_loss_unfold net args p (batch_loss net p b) (Hsize p)), bind_Ok.
    fold (search_objective net args p b).
    destruct (backward_step net (param_groups o) (opt_state o) p b
                (search_objective net args p b)) as [p1 os1] eqn:Hstep.
    replace (log_interval args =? 0) with false by (symmetry; apply Z.eqb_neq, Hli).
    change (length (b :: todo)) with (S (length todo)).
    rewrite log_points_S, Nat2Z.inj_succ.
    destruct (idx `mod` log_interval args =? 0).
    + unfold py_div. rewrite Hlen, bind_Ok.
      rewrite (sum_values_aggregate _ (Hops p)), bind_Ok, Hdry.
      match goal with
      | |- context [Search.train_loop net args epoch tl todo (idx + 1) p1 ?o1 ?tr1] =>
          destruct (IH (idx + 1) p1 o1 tr1) as (new & Hrun & Hs & Hl)
      end.
      eexists. split; [rewrite Hrun; cbn [param_groups opt_state]; unfold steps_through;
                       rewrite <- !app_assoc; reflexivity|].
      rewrite !fmap_app, !count_true_app, Hs, Hl. cbn. split; lia.
    + match goal with
      | |- context [Search.train_loop net args epoch tl todo (idx + 1) p1 ?o1 ?tr1] =>
          destruct (IH (idx + 1) p1 o1 tr1) as (new & Hrun & Hs & Hl)
      end.
      eexists. split; [rewrite Hrun; cbn [param_groups opt_state]; unfold steps_through;
                       rewrite <- !app_assoc; reflexivity|].
      rewrite !fmap_app, !count_true_app, Hs, Hl. cbn. split; lia.
Qed.

(** The fine-tune loop stops with [IndexError] at the first batch of a
    single sample. *)
Lemma ft_train_loop_unit (epoch : Z) (todo : list (list (Input * Z))) :
  log_interval args ≠ 0 → dry_run args = false → batches tl ≠ [] →
  Exists (λ b, length b = 1%nat) todo →
  ∀ idx p (o : Optimizer OptState) tr,
  FineTune.train_loop net args epoch tl todo idx p o tr = Raise IndexError.
Proof.
  intros Hli Hdry Hne.
  assert (Hlen : (Z.of_nat (length (batches tl)) =? 0) = false).
  { apply Z.eqb_neq. destruct (batches tl); [congruence | simpl; lia]. }
  induction todo as [|b todo IH]; intros Hex idx p o tr; [inversion Hex|].
  cbn [FineTune.train_loop].
  destruct (Nat.eq_dec (length b) 1%nat) as [H1|H1].
  - rewrite (model_input_unit b H1). reflexivity.
  - rewrite (model_input_ok b H1), bind_Ok.
    assert (Hex' : Exists (λ b, length b = 1%nat) todo)
      by (inversion Hex; subst; [contradiction | assumption]).
    destruct (backward_step _ _ _ _ _ _) as [p1 os1].
    replace (log_interval args =? 0) with false by (symmetry; apply Z.eqb_neq, Hli).
    destruct (idx `mod` log_interval args =? 0).
    + unfold py_div. rewrite Hlen, bind_Ok, Hdry. apply IH, Hex'.
    + apply IH, Hex'.
Qed.

(** X1.  Without the dry-run flag and with a non-zero log interval, [train]
    of either driver completes, performs exactly one optimizer step per
    batch, the batches taken in loader order and each step starting from
    the parameters the previous one left, prints as many progress lines as
    there are batch indices that are multiples of the log interval, and
    leaves the model in training mode; the parameter groups (learning rate)
    are those it was given.  For the search driver the model must track at
    least one layer in both dictionaries; for the fine-tune driver no batch
    may hold a single sample, and the call raises [IndexError] when one
    does. *)
Theorem train_steps_once_per_batch
    (m : Model Params) (o : Optimizer OptState) (epoch : Z) (tr : list (event A Params)) :
  log_interval args ≠ 0 →
  dry_run args = false →
  let n := length (batches tl) in
  (no_unit_batch tl →
   ∃ new,
     let after := steps_through net (param_groups o) (batch_loss net) (batches tl)
                    (params m, opt_state o) in
     FineTune.train net args m tl o epoch tr =
       Ok ({| params := after.1; training := true |},
           {| param_groups := param_groups o; opt_state := after.2 |}, tr ++ new) ∧
     count_true (is_step <$> new) = Z.of_nat n ∧
     count_true (is_train_line <$> new) = log_points (log_interval args) 0 n) ∧
  (¬ no_unit_batch tl → FineTune.train net args m tl o epoch tr = Raise IndexError) ∧
  ((∀ p, size_dict net p ≠ []) → (∀ p, ops_dict net p ≠ []) →
   ∃ new,
     let after := steps_through net (param_groups o) (search_objective net args)
                    (batches tl) (params m, opt_state o) in
     Search.train net args m tl o epoch tr =
       Ok ({| params := after.1; training := true |},
           {| param_groups := param_groups o; opt_state := after.2 |}, tr ++ new) ∧
     count_true (is_step <$> new) = Z.of_nat n ∧
     count_true (is_train_line <$> new) = log_points (log_interval args) 0 n).
Proof.
  intros Hli Hdry n. subst n. split; [|split; [|intros Hsize Hops]].
  - intros Hunit. unfold FineTune.train. unfold no_unit_batch in Hunit.
    destruct (batches tl) as [|b bs] eqn:Hb.
    + exists []. cbn. rewrite app_nil_r. destruct o. auto.
    + destruct (ft_train_loop_full epoch (b :: bs) Hli Hdry ltac:(rewrite Hb; discriminate)
                  Hunit 0 (params (model_train m)) o tr) as (new & Hrun & Hs & Hl).
      exists new. cbv zeta. rewrite Hrun. auto.
  - intros Hunit. unfold FineTune.train.
    apply not_Forall_Exists in Hunit; [|solve_decision].
    assert (Hex : Exists (λ b, length b = 1%nat) (batches tl)).
    { eapply Exists_impl; [exact Hunit|]. simpl. intros b Hb. lia. }
    rewrite (ft_train_loop_unit epoch (batches tl) Hli Hdry); [reflexivity| |exact Hex].
    intros Hnil. rewrite Hnil in Hex. inversion Hex.
  - unfold Search.train. destruct (batches tl) as [|b bs] eqn:Hb.
    + exists []. cbn. rewrite app_nil_r. destruct o. auto.
    + destruct (search_train_loop_full epoch (b :: bs) Hli Hdry
                  ltac:(rewrite Hb; discriminate) Hsize Hops
                  0 (params (model_train m)) o tr) as (new & Hrun & Hs & Hl).
      exists new. cbv zeta. rewrite Hrun. auto.
Qed.

(** X2.  A log interval of 0 makes [train] of either driver raise
    [ZeroDivisionError] as soon as the loader yields a batch (the first
    optimizer step has been taken by then, the exception discards the
    epoch); the fine-tune driver raises [IndexError] instead, before the
    step, when that batch holds a single sample.  On a loader without
    batches [train] returns at once, with the parameters and the trace
    untouched and the model in training mode. *)
Theorem train_with_zero_log_interval
    (m : Model Params) (o : Optimizer OptState) (epoch : Z) (tr : list (event A Params)) :
  log_interval args = 0 →
  (∀ b bs, batches tl = b :: bs →
   FineTune.train net args m tl o epoch tr
     = Raise (if (length b =? 1)%nat then IndexError else ZeroDivisionError) ∧
   (size_dict net (params m) ≠ [] →
    Search.train net args m tl o epoch tr = Raise ZeroDivisionError)) ∧
  (batches tl = [] →
   FineTune.train net args m tl o epoch tr = Ok (model_train m, o, tr) ∧
   Search.train net args m tl o epoch tr = Ok (model_train m, o, tr)).
Proof.
  intros Hli. split.
  - intros b bs Hb. split.
    + unfold FineTune.train. rewrite Hb. cbn [FineTune.train_loop].
      destruct (Nat.eqb_spec (length b) 1) as [H1|H1].
      * rewrite (model_input_unit b H1). reflexivity.
      * rewrite (model_input_ok b H1), bind_Ok.
        destruct (backward_step _ _ _ _ _ _) as [p1 os1]. rewrite Hli. reflexivity.
    + intros Hsize. unfold Search.train. rewrite Hb. cbn [Search.train_loop].
      rewrite (train_loss_unfold net args _ _ Hsize), bind_Ok.
      destruct (backward_step _ _ _ _ _ _) as [p1 os1]. rewrite Hli. reflexivity.
  - intros Hb. unfold FineTune.train, Search.train, model_train. rewrite Hb.
    split; reflexivity.
Qed.

End FullTrain.

Lemma train_steps_once_per_batch_witness :
  log_interval (toy_args (A:=float) 1 false) ≠ 0 ∧
  dry_run (toy_args (A:=float) 1 false) = false ∧
  (∃ new m o,
     FineTune.train (A:=float) toy_net (toy_args 1 false) toy_model toy_loader
       toy_optimizer 1 [] = Ok (m, o, new) ∧
     params m = 3 ∧ count_true (is_step <$> new) = 2 ∧
     count_true (is_train_line <$> new) = 1) ∧
  (∃ new m o,
     Search.train (A:=float) toy_net (toy_args 1 false) toy_model toy_loader
       toy_optimizer 1 [] = Ok (m, o, new) ∧
     params m = 3 ∧ count_true (is_step <$> new) = 2 ∧
     count_true (is_train_line <$> new) = 1).
Proof.
  assert (H1 : log_interval (toy_args (A:=float) 1 false) ≠ 0) by discriminate.
  assert (H2 : dry_run (toy_args (A:=float) 1 false) = false) by reflexivity.
  pose proof (train_steps_once_per_batch (A:=float) toy_net (toy_args 1 false) toy_loader
                toy_model toy_optimizer 1 [] H1 H2) as (Hft & _ & Hsearch).
  split; [exact H1 | split; [exact H2 | split]].
  - destruct (Hft toy_loader_no_unit_batch) as (new & Hrun & Hs & Hl).
    eexists new, _, _. split; [exact Hrun|]. split; [reflexivity|]. split; assumption.
  - destruct Hsearch as (new & Hrun & Hs & Hl); [discriminate | discriminate |].
    eexists new, _, _. split; [exact Hrun|]. split; [reflexivity|]. split; assumption.
Defined.

Lemma train_with_zero_log_interval_witness :
  log_interval zero_interval_args = 0 ∧
  batches (toy_loader (A:=float)) = take 2 toy_samples :: [drop 2 toy_samples] ∧
  FineTune.train toy_net zero_interval_args toy_model toy_loader toy_optimizer 1 []
    = Raise ZeroDivisionError ∧
  Search.train toy_net zero_interval_args toy_model toy_loader toy_optimizer 1 []
    = Raise ZeroDivisionError.
Proof.
  assert (H1 : log_interval zero_interval_args = 0) by reflexivity.
  assert (H2 : batches (toy_loader (A:=float)) = take 2 toy_samples :: [drop 2 toy_samples])
    by reflexivity.
  pose proof (train_with_zero_log_interval (A:=float) toy_net zero_interval_args toy_loader
                toy_model toy_optimizer 1 [] H1) as [Hraise _].
  destruct (Hraise _ _ H2) as [Hft Hsearch].
  split; [exact H1 | split; [exact H2 | split; [exact Hft|]]].
  apply Hsearch. discriminate.
Defined.


Lemma group_rates_decayed {OptState : Type} (gamma : float) (k : nat) (o : Optimizer OptState) :
  group_rates (decayed gamma k o)
  = (λ r : option float, Nat.iter k (λ x, PrimFloat.mul x gamma) <$> r) <$> group_rates o.
Proof.
  induction k as [|k IH].
  - unfold decayed, group_rates.
    change (Nat.iter 0 (Search.scheduler_step gamma) o) with o.
    induction (param_groups o) as [|g gs IHg]; [reflexivity|].
    rewrite !fmap_cons. f_equal; [destruct (g !! "lr"); reflexivity | exact IHg].
  - unfold decayed in *.
    change (Nat.iter (S k) (Search.scheduler_step gamma) o)
      with (Search.scheduler_step gamma (Nat.iter k (Search.scheduler_step gamma) o)).
    unfold group_rates at 1.
    unfold Search.scheduler_step at 1. cbn [param_groups].
    rewrite <- list_fmap_compose.
    unfold group_rates in IH.
    transitivity ((λ r : option float, (λ x, PrimFloat.mul x gamma) <$> r) <$>
                  ((λ g : gmap string float, g !! "lr") <$>
                   param_groups (Nat.iter k (Search.scheduler_step gamma) o))).
    + rewrite <- list_fmap_compose. apply list_fmap_ext. intros _ g _. simpl.
      rewrite lookup_alter_eq. reflexivity.
    + rewrite IH. unfold group_rates. rewrite <- list_fmap_compose.
      apply list_fmap_ext. intros _ r _. simpl. destruct r; reflexivity.
Qed.


Section SearchEpoch.
Context {A Params Input Output OptState : Type} `{Scalar A}.
Context (net : Network A Params Input Output OptState).
Context (args : Args A) (tl tel : DataLoader Input).
Hypothesis log_ok : log_interval args ≠ 0.
Hypothesis size_ok : ∀ p, size_dict net p ≠ [].
Hypothesis ops_ok : ∀ p, ops_dict net p ≠ [].

Lemma search_train_loop_spec (epoch : Z) (todo : list (list (Input * Z))) :
  batches tl ≠ [] →
  ∀ idx p (o : Optimizer OptState) tr,
  ∃ p' os' new,
    Search.train_loop net args epoch tl todo idx p o tr =
      Ok (p', {| param_groups := param_groups o; opt_state := os' |}, tr ++ new) ∧
    steps_of epoch (param_groups o) new.
Proof.
  intros Hne.
  assert (Hlen : (Z.of_nat (length (batches tl)) =? 0) = false).
  { apply Z.eqb_neq. destruct (batches tl); [congruence | simpl; lia]. }
  induction todo as [|b todo IH]; intros idx p o tr.
  - exists p, (opt_state o), []. simpl. rewrite app_nil_r. destruct o.
    split; [reflexivity | apply steps_of_nil].
  - cbn [Search.train_loop].
    rewrite (train_loss_unfold net args p (batch_loss net p b) (size_ok p)), bind_Ok.
    destruct (backward_step _ _ _ _ _ _) as [p1 os1].
    replace (log_interval args =? 0) with false by (symmetry; apply Z.eqb_neq, log_ok).
    destruct (idx `mod` log_interval args =? 0).
    + unfold py_div. rewrite Hlen, bind_Ok.
      rewrite (sum_values_aggregate _ (ops_ok p)), bind_Ok.
      destruct (dry_run args).
      * eexists _, _, _. rewrite <- app_assoc. split; [reflexivity|].
        apply steps_of_app; [apply steps_of_step | apply steps_of_print].
      * match goal with
        | |- context [Search.train_loop net args epoch tl todo (idx + 1) p1 ?o1 ?tr1] =>
            destruct (IH (idx + 1) p1 o1 tr1) as (p' & os' & new & Hrun & Hnew)
        end.
        rewrite Hrun. cbn [param_groups] in *. eexists _, _, _.
        rewrite <- !app_assoc. split; [reflexivity|].
        apply steps_of_app; [apply steps_of_step|].
        apply steps_of_app; [apply steps_of_print | exact Hnew].
    + match goal with
      | |- context [Search.train_loop net args epoch tl todo (idx + 1) p1 ?o1 ?tr1] =>
          destruct (IH (idx + 1) p1 o1 tr1) as (p' & os' & new & Hrun & Hnew)
      end.
      rewrite Hrun. cbn [param_groups] in *. eexists _, _, _.
      rewrite <- !app_assoc. split; [reflexivity|].
      apply steps_of_app; [apply steps_of_step | exact Hnew].
Qed.

Lemma search_train_spec (m : Model Params) (o : Optimizer OptState) (epoch : Z)
    (tr : list (event A Params)) :
  ∃ p' os' new,
    Search.train net args m tl o epoch tr =
      Ok ({| params := p'; training := true |},
          {| param_groups := param_groups o; opt_state := os' |}, tr ++ new) ∧
    steps_of epoch (param_groups o) new.
Proof.
  unfold Search.train. destruct (batches tl) as [|b bs] eqn:Hb.
  - exists (params m), (opt_state o), []. cbn. rewrite app_nil_r. destruct o.
    split; [reflexivity | apply steps_of_nil].
  - destruct (search_train_loop_spec epoch (b :: bs) ltac:(rewrite Hb; discriminate)
                0 (params (model_train m)) o tr) as (p' & os' & new & Hrun & Hnew).
    rewrite Hrun. cbn. eauto.
Qed.

Lemma search_main_epoch_spec (st : Search.MainState) (e : Z) :
  dataset tel ≠ [] →
  ∃ st' new,
    Search.main_epoch net args tl tel st e = Ok st' ∧
    Search.st_optimizer st'
      = Search.scheduler_step (gamma args)
          {| param_groups := param_groups (Search.st_optimizer st);
             opt_state := opt_state (Search.st_optimizer st') |} ∧
    Search.st_trace st' = Search.st_trace st ++ new ∧
    steps_of e (param_groups (Search.st_optimizer st)) new.
Proof.
  intros Htel. unfold Search.main_epoch.
  destruct (search_train_spec (Search.st_model st) (Search.st_optimizer st) e
              (Search.st_trace st)) as (p' & os' & new & -> & Hnew).
  rewrite bind_Ok. cbv beta iota.
  rewrite search_test_unfold. cbv zeta.
  replace (Z.of_nat (length (dataset tel)) =? 0) with false.
  2:{ symmetry. apply Z.eqb_neq. destruct (dataset tel); [congruence | simpl; lia]. }
  rewrite bind_Ok. cbv beta iota.
  eexists _, _. split; [reflexivity|]. cbn. split; [reflexivity|].
  rewrite <- app_assoc. split; [reflexivity|].
  apply steps_of_app; [exact Hnew | apply steps_of_silent; repeat constructor].
Qed.


End SearchEpoch.

Section SearchLoop.
Context {A Params Input Output OptState : Type} `{Scalar A}.
Context (net : Network A Params Input Output OptState).
Context (args : Args A) (tl tel : Loader Input).
Hypothesis log_ok : log_interval args ≠ 0.
Hypothesis size_ok : ∀ p, size_dict net p ≠ [].
Hypothesis ops_ok : ∀ p, ops_dict net p ≠ [].

Lemma search_rates_run (init : Search.MainState) (n : nat) :
  (∀ e, 1 ≤ e ≤ Z.of_nat n → dataset (tel e) ≠ []) →
  ∃ st new,
    Search.run_epochs net args tl tel (Z.of_nat n) init = Ok st ∧
    param_groups (Search.st_optimizer st)
      = param_groups (decayed (gamma args) n (Search.st_optimizer init)) ∧
    Search.st_trace st = Search.st_trace init ++ new ∧
    ∀ e i groups, OptimizerStep e i groups ∈ new →
      1 ≤ e ≤ Z.of_nat n ∧
      groups = param_groups (decayed (gamma args) (Z.to_nat (e - 1)) (Search.st_optimizer init)).
Proof.
  induction n as [|n IH]; intros Htel.
  - exists init, []. rewrite app_nil_r.
    split; [reflexivity|]. split; [reflexivity|]. split; [reflexivity|].
    intros e i g Hin. inversion Hin.
  - destruct IH as (s & new & Hs & Hg & Htr & Hnew); [intros e He; apply Htel; lia|].
    unfold Search.run_epochs in *. rewrite seqZ_snoc, for_each_snoc, Hs, bind_Ok.
    destruct (search_main_epoch_spec net args (tl (Z.of_nat (S n))) (tel (Z.of_nat (S n)))
                log_ok size_ok ops_ok s (Z.of_nat (S n)) (Htel (Z.of_nat (S n)) ltac:(lia)))
      as (st' & new' & Hstep & Ho & Htr' & Hnew').
    exists st', (new ++ new'). split; [exact Hstep|]. split; [|split].
    + rewrite Ho. unfold decayed. cbn [Nat.iter]. unfold Search.scheduler_step.
      cbn [param_groups]. unfold decayed in Hg. rewrite Hg. reflexivity.
    + rewrite Htr', Htr, app_assoc. reflexivity.
    + intros e i g Hin. apply elem_of_app in Hin as [Hin|Hin].
      * apply Hnew in Hin as (He & ->). split; [lia | reflexivity].
      * destruct (Hnew' _ Hin eq_refl) as (j & Hev). inversion Hev; subst.
        split; [lia|]. rewrite Hg. f_equal. f_equal. lia.
Qed.

Lemma search_run_epochs_to_nat (n : Z) (init : Search.MainState) :
  Search.run_epochs net args tl tel (Z.of_nat (Z.to_nat n)) init
  = Search.run_epochs net args tl tel n init.
Proof.
  unfold Search.run_epochs.
  destruct (Z.le_gt_cases 0 n); [rewrite Z2Nat.id by lia; reflexivity|].
  unfold seqZ. replace (Z.to_nat n) with 0%nat by lia. reflexivity.
Qed.

(** X3.  In the search driver [scheduler.step()] runs once at the end of
    every epoch and multiplies the rate of every parameter group by gamma:
    epoch e trains with the initial rate multiplied e - 1 times by gamma,
    and after the loop the rate has been multiplied once per epoch.  The
    loop itself completes for every model that tracks at least one layer,
    a non-zero log interval and a non-empty test set. *)
Theorem search_rate_decays_geometrically (init : Search.MainState) :
  (∀ e, 1 ≤ e ≤ epochs args → dataset (tel e) ≠ []) →
  decay_contract net args tl tel init.
Proof.
  intros Htel.
  destruct (search_rates_run init (Z.to_nat (epochs args)))
    as (st & new & Hrun & Hg & Htr & Hnew); [intros e He; apply Htel; lia|].
  rewrite search_run_epochs_to_nat in Hrun.
  exists st, new. unfold Search.main_loop.
  split; [exact Hrun|]. split; [exact Htr|]. split; [|split; [exact Hg|]].
  - intros e i g Hin. apply Hnew in Hin as (He & ->). split; [lia | reflexivity].
  - intros k. apply group_rates_decayed.
Qed.

End SearchLoop.

Lemma search_rate_decays_geometrically_witness :
  log_interval (toy_args (A:=float) 3 false) ≠ 0 ∧
  (∀ p, size_dict (toy_net (A:=float)) p ≠ []) ∧
  (∀ p, ops_dict (toy_net (A:=float)) p ≠ []) ∧
  (∀ e, 1 ≤ e ≤ epochs (toy_args (A:=float) 3 false) →
     dataset ((λ _ : Z, toy_loader (A:=float)) e) ≠ []) ∧
  decay_contract toy_net (toy_args 3 false) (λ _, toy_loader) (λ _, toy_loader)
    toy_search_init.
Proof.
  assert (H1 : log_interval (toy_args (A:=float) 3 false) ≠ 0) by discriminate.
  assert (H2 : ∀ p, size_dict (toy_net (A:=float)) p ≠ []) by (intros p; discriminate).
  assert (H3 : ∀ p, ops_dict (toy_net (A:=float)) p ≠ []) by (intros p; discriminate).
  assert (H4 : ∀ e, 1 ≤ e ≤ epochs (toy_args (A:=float) 3 false) →
                 dataset ((λ _ : Z, toy_loader (A:=float)) e) ≠ [])
    by (intros e _; discriminate).
  split; [exact H1 | split; [exact H2 | split; [exact H3 | split; [exact H4|]]]].
  exact (search_rate_decays_geometrically toy_net (toy_args 3 false)
           (λ _, toy_loader) (λ _, toy_loader) H1 H2 H3 toy_search_init H4).
Defined.


(** X4.  [adjust_learning_rate] writes the key "lr" of every parameter
    group and nothing else: the optimizer's internal state, the number of
    groups and every other entry of a group (weight decay, ...) are kept,
    a group that had no "lr" gets one, and of two calls in a row only the
    second shows. *)
Theorem adjust_learning_rate_touches_only_lr
    {OptState : Type} (optimizer : Optimizer OptState) (a b : Z) :
  let adjusted := FineTune.adjust_learning_rate optimizer a in
  opt_state adjusted = opt_state optimizer ∧
  length (param_groups adjusted) = length (param_groups optimizer) ∧
  (∀ (i : nat) (g : gmap string float), param_groups optimizer !! i = Some g →
     ∃ g', param_groups adjusted !! i = Some g' ∧
           is_Some (g' !! "lr") ∧
           ∀ k : string, k ≠ "lr" → g' !! k = g !! k) ∧
  FineTune.adjust_learning_rate adjusted b = FineTune.adjust_learning_rate optimizer b.
Proof.
  cbv zeta. split; [reflexivity|]. split; [|split].
  - unfold FineTune.adjust_learning_rate. cbn [param_groups]. apply length_fmap.
  - intros i g Hg. unfold FineTune.adjust_learning_rate. cbn [param_groups].
    rewrite list_lookup_fmap, Hg. eexists. split; [reflexivity|]. split.
    + rewrite lookup_insert_eq. eauto.
    + intros k Hk. apply lookup_insert_ne. congruence.
  - pose proof (adjust_twice optimizer a b) as Hg.
    unfold FineTune.adjust_learning_rate in *. cbn [param_groups opt_state] in *.
    rewrite Hg. reflexivity.
Qed.


Lemma ft_test_closed {A Params Input Output OptState : Type} `{Scalar A}
    (net : Network A Params Input Output OptState)
    (m m' : Model Params) (ld : DataLoader Input) (scope : string)
    (r : report A) (v : pyval A) :
  FineTune.test net m ld scope = Ok (m', r, v) →
  (let n := Z.of_nat (length (dataset ld)) in
   let correct := n_correct net (params m) (concat (batches ld)) in
   if n =? 0 then Raise ZeroDivisionError
   else Ok (model_eval m,
            {| r_scope := scope;
               r_loss := s_div (accumulated_loss net (params m) (batches ld)) (s_of_Z n);
               r_correct := correct; r_total := n;
               r_accuracy := s_div (s_mul (s_of_Z 100) (s_of_Z correct)) (s_of_Z n) |},
            PyFloat (s_div (s_mul (s_of_Z 100) (s_of_Z correct)) (s_of_Z n))))
  = Ok (m', r, v).
Proof.
  intros Hrun. rewrite <- Hrun. symmetry. apply ft_test_unfold.
  eapply ft_test_Ok_no_unit, Hrun.
Qed.

Section CountBounds.
Context {A Params Input Output OptState : Type} `{Scalar A}.
Context (net : Network A Params Input Output OptState).

(** X5.  When the loader enumerates its dataset (every sample once, in any
    order and batching), the number of correct predictions that either
    [test] reports lies between 0 and the dataset size N, the reported
    total is N, and N is not 0 (on an empty dataset both raise). *)
Theorem reported_correct_count_is_bounded
    (m m' : Model Params) (ld : DataLoader Input) (scope : string)
    (r : report A) (v : pyval A) :
  concat (batches ld) ≡ₚ dataset ld →
  FineTune.test net m ld scope = Ok (m', r, v) ∨ Search.test net m ld = Ok (m', r, v) →
  0 ≤ r_correct r ≤ r_total r ∧
  r_total r = Z.of_nat (length (dataset ld)) ∧
  0 < r_total r.
Proof.
  intros Hperm Hrun.
  pose proof (n_correct_bounds net (params m) (concat (batches ld))) as Hb.
  rewrite (Permutation_length Hperm) in Hb.
  destruct Hrun as [Hrun|Hrun];
    [apply ft_test_closed in Hrun | rewrite search_test_unfold in Hrun];
    cbv zeta in Hrun;
    (destruct (Z.eqb_spec (Z.of_nat (length (dataset ld))) 0) as [Hz|Hnz]; [discriminate|]);
    inversion Hrun; subst; cbn [r_correct r_total]; lia.
Qed.

End CountBounds.

Lemma reported_correct_count_is_bounded_witness :
  concat (batches (toy_loader (A:=float))) ≡ₚ dataset toy_loader ∧
  (∃ m' r v, FineTune.test (A:=float) toy_net toy_model toy_loader "Test" = Ok (m', r, v) ∧
             0 ≤ r_correct r ≤ r_total r ∧ r_total r = 4 ∧ 0 < r_total r).
Proof.
  assert (H1 : concat (batches (toy_loader (A:=float))) ≡ₚ dataset toy_loader)
    by exact toy_loader_enumerates.
  split; [exact H1|].
  eexists _, _, _. split; [vm_compute; reflexivity|].
  exact (reported_correct_count_is_bounded (A:=float) toy_net toy_model _ toy_loader "Test"
           _ _ H1 (or_introl eq_refl)).
Defined.


Section ExactAccuracy.
Context {Params Input Output OptState : Type}.
Context (net : Network Q Params Input Output OptState).

Lemma Q_percentage_bounds (c n : Z) :
  0 ≤ c ≤ n → 0 < n →
  (0 <= Qdiv (Qmult (inject_Z 100) (inject_Z c)) (inject_Z n) <= 100)%Q.
Proof.
  intros Hc Hn. unfold Qdiv, Qmult, Qinv, Qle, inject_Z. cbn [Qnum Qden].
  destruct n as [|pn|pn]; try lia. cbn. nia.
Qed.

(** X6.  In exact rational arithmetic, when the loader enumerates its
    dataset, the accuracy that [test] reports (and, for the fine-tune
    driver, returns) is a percentage: it lies between 0 and 100; in
    particular it is never below the baseline 0.0 of the checkpoint
    selector. *)
Theorem exact_accuracy_is_a_percentage
    (m m' : Model Params) (ld : DataLoader Input) (scope : string)
    (r : report Q) (v : pyval Q) :
  concat (batches ld) ≡ₚ dataset ld →
  FineTune.test net m ld scope = Ok (m', r, v) ∨ Search.test net m ld = Ok (m', r, v) →
  (0 <= r_accuracy r <= 100)%Q ∧ nonneg (r_accuracy r) ∧
  (v = PyNone ∨ v = PyFloat (r_accuracy r)).
Proof.
  intros Hperm Hrun0.
  pose proof (n_correct_bounds net (params m) (concat (batches ld))) as Hb.
  rewrite (Permutation_length Hperm) in Hb.
  assert (Hrun : (let n := Z.of_nat (length (dataset ld)) in
                  let correct := n_correct net (params m) (concat (batches ld)) in
                  if n =? 0 then Raise ZeroDivisionError
                  else Ok (model_eval m,
                           {| r_scope := scope;
                              r_loss := s_div (accumulated_loss net (params m) (batches ld))
                                          (s_of_Z n);
                              r_correct := correct; r_total := n;
                              r_accuracy := s_div (s_mul (s_of_Z 100) (s_of_Z correct))
                                              (s_of_Z n) |},
                           PyFloat (s_div (s_mul (s_of_Z 100) (s_of_Z correct)) (s_of_Z n))))
                 = Ok (m', r, v)
                 ∨ Search.test net m ld = Ok (m', r, v)).
  { destruct Hrun0 as [Hrun|Hrun]; [left; apply ft_test_closed, Hrun | right; exact Hrun]. }
  clear Hrun0.
  rewrite search_test_unfold in Hrun. cbv zeta in Hrun.
  destruct (Z.eqb_spec (Z.of_nat (length (dataset ld))) 0) as [Hz|Hnz].
  - destruct Hrun; discriminate.
  - assert (Hacc : (0 <= Qdiv (Qmult (inject_Z 100)
                                 (inject_Z (n_correct net (params m) (concat (batches ld)))))
                                 (inject_Z (Z.of_nat (length (dataset ld)))) <= 100)%Q)
      by (apply Q_percentage_bounds; lia).
    destruct Hrun as [Hrun|Hrun]; inversion Hrun; subst; cbn [r_accuracy].
    + split; [exact Hacc|]. split; [|right; reflexivity].
      unfold nonneg. cbn. apply Qle_bool_iff. apply Hacc.
    + split; [exact Hacc|]. split; [|left; reflexivity].
      unfold nonneg. cbn. apply Qle_bool_iff. apply Hacc.
Qed.

End ExactAccuracy.

Lemma exact_accuracy_is_a_percentage_witness :
  concat (batches (toy_loader (A:=Q))) ≡ₚ dataset toy_loader ∧
  (∃ m' r v, FineTune.test (A:=Q) toy_net toy_model toy_loader "Test" = Ok (m', r, v) ∧
             (0 <= r_accuracy r <= 100)%Q).
Proof.
  assert (H1 : concat (batches (toy_loader (A:=Q))) ≡ₚ dataset toy_loader)
    by exact toy_loader_enumerates.
  split; [exact H1|].
  eexists _, _, _. split; [vm_compute; reflexivity|].
  exact (proj1 (exact_accuracy_is_a_percentage toy_net toy_model _ toy_loader "Test"
                  _ _ H1 (or_introl eq_refl))).
Defined.


(** ** The two [main] procedures *)

Lemma seqZ_nonpos (m n : Z) : n ≤ 0 → seqZ m n = [].
Proof. intros Hn. unfold seqZ. replace (Z.to_nat n) with 0%nat by lia. reflexivity. Qed.

Lemma length_zero_eqb {X : Type} (l : list X) : l ≠ [] → (length l =? 0)%nat = false.
Proof. destruct l; [congruence | reflexivity]. Qed.

(** The loader that the fine-tune driver builds under CUDA. *)
Lemma DataLoader_new_cuda {Input : Type}
    (draw : Z → list (Input * Z) → list (Input * Z)) (ds : list (Input * Z))
    (workers n : Z) :
  0 < n → ds ≠ [] →
  DataLoader_new draw ds
    (<["batch_size" := PInt n]>
       (<["num_workers" := PInt workers]>
          (<["pin_memory" := PBool true]> {["shuffle" := PBool true]})))
  = Ok (loader_of draw true ds n).
Proof.
  intros Hn Hds. unfold DataLoader_new.
  rewrite !lookup_insert_ne by discriminate. rewrite lookup_singleton_eq.
  rewrite (length_zero_eqb ds Hds). cbn [andb].
  rewrite lookup_insert_eq. unfold default, from_option, id.
  replace (n <=? 0) with false by (symmetry; apply Z.leb_gt, Hn). reflexivity.
Qed.

Lemma DataLoader_new_cases {Input : Type}
    (draw : Z → list (Input * Z) → list (Input * Z)) (ds : list (Input * Z))
    (kw : gmap string pyarg) :
  DataLoader_new draw ds kw = Raise ValueError ∨ ∃ ld, DataLoader_new draw ds kw = Ok ld.
Proof.
  unfold DataLoader_new.
  destruct (_ && _); [left; reflexivity|].
  destruct (default (PInt 1) (kw !! "batch_size")) as [n|b]; [|left; reflexivity].
  destruct (n <=? 0); [left; reflexivity | right; eauto].
Qed.

Section FineTuneMain.
Context {A Params Input Output OptState : Type} `{Scalar A}.
Context (net : Network A Params Input Output OptState) (fmt_1e : A → string).
Context (args : Args A) (env : FineTune.Env (Params:=Params) (Input:=Input) (OptState:=OptState)).

Lemma ft_main_unfold :
  negb (no_cuda args) && FineTune.cuda_is_available env = true →
  0 < batch_size args → 0 < test_batch_size args →
  FineTune.train_set env ≠ [] → FineTune.val_set env ≠ [] → FineTune.test_set env ≠ [] →
  FineTune.main net fmt_1e args env =
    (FineTune.main_loop net fmt_1e args
       (loader_of (FineTune.draw_train env) true (FineTune.train_set env) (batch_size args))
       (loader_of (FineTune.draw_val env) true (FineTune.val_set env) (test_batch_size args))
       (loader_of (FineTune.draw_test env) true (FineTune.test_set env) (test_batch_size args))
       (ft_start args env) ≫= FineTune.log_results).
Proof.
  intros Hcuda Hb Htb Htrain Hval Htest. unfold FineTune.main. rewrite Hcuda. cbv zeta.
  cbn [read_local]. unfold np_vstack.
  destruct (FineTune.train_set env) as [|s1 l1] eqn:E1; [congruence|].
  destruct (FineTune.val_set env) as [|s2 l2] eqn:E2; [congruence|].
  destruct (FineTune.test_set env) as [|s3 l3] eqn:E3; [congruence|].
  repeat first [rewrite bind_Ok | rewrite DataLoader_new_cuda by (assumption || discriminate)].
  reflexivity.
Qed.

(** Without a sample in one of the three splits, [np.vstack] (or, for a
    batch size that is not positive, the loader before it) raises
    [ValueError]. *)
Lemma ft_main_empty_split :
  negb (no_cuda args) && FineTune.cuda_is_available env = true →
  FineTune.train_set env = [] ∨ FineTune.val_set env = [] ∨ FineTune.test_set env = [] →
  FineTune.main net fmt_1e args env = Raise ValueError.
Proof.
  intros Hcuda Hempty. unfold FineTune.main. rewrite Hcuda. cbv zeta.
  cbn [read_local]. unfold np_vstack.
  destruct (FineTune.train_set env) as [|s1 l1] eqn:E1; [reflexivity|].
  rewrite !bind_Ok.
  match goal with
  | |- context [DataLoader_new ?d (s1 :: l1) ?kw] =>
      destruct (DataLoader_new_cases d (s1 :: l1) kw) as [Hr|[tl Hr]]; rewrite Hr
  end; [reflexivity|].
  rewrite bind_Ok.
  destruct (FineTune.val_set env) as [|s2 l2] eqn:E2; [reflexivity|].
  rewrite !bind_Ok.
  match goal with
  | |- context [DataLoader_new ?d (s2 :: l2) ?kw] =>
      destruct (DataLoader_new_cases d (s2 :: l2) kw) as [Hr'|[vl Hr']]; rewrite Hr'
  end; [reflexivity|].
  rewrite bind_Ok.
  destruct (FineTune.test_set env) as [|s3 l3] eqn:E3; [reflexivity|].
  destruct Hempty as [?|[?|?]]; discriminate.
Qed.

(** X7.  With CUDA, three splits that are not empty and [--epochs 0] (or a
    negative number) the fine-tune driver builds its loaders, model and
    optimizer, skips the loop, and then fails in the final report:
    [best_epoch] is still 0 and [test_acc] has no entry "0".  (With an
    empty split it fails before that, in [np.vstack].) *)
Theorem fine_tune_without_epochs_raises_key_error :
  negb (no_cuda args) && FineTune.cuda_is_available env = true →
  0 < batch_size args → 0 < test_batch_size args →
  epochs args ≤ 0 →
  FineTune.main net fmt_1e args env
  = Raise (match FineTune.train_set env, FineTune.val_set env, FineTune.test_set env with
           | _ :: _, _ :: _, _ :: _ => KeyError "0"
           | _, _, _ => ValueError
           end).
Proof.
  intros Hcuda Hb Htb Hep.
  destruct (FineTune.train_set env) as [|s1 l1] eqn:E1;
    [apply ft_main_empty_split; auto|].
  destruct (FineTune.val_set env) as [|s2 l2] eqn:E2;
    [apply ft_main_empty_split; auto|].
  destruct (FineTune.test_set env) as [|s3 l3] eqn:E3;
    [apply ft_main_empty_split; auto|].
  rewrite ft_main_unfold by (assumption || (rewrite ?E1, ?E2, ?E3; discriminate)).
  unfold FineTune.main_loop, FineTune.run_epochs. rewrite seqZ_nonpos by assumption.
  cbn [for_each]. rewrite bind_Ok. unfold FineTune.log_results, ft_start, FineTune.main_init.
  cbv zeta. cbn [FineTune.st_val_acc FineTune.st_best_epoch FineTune.st_test_acc].
  rewrite getitem_insert_eq, !bind_Ok. reflexivity.
Qed.

End FineTuneMain.

Lemma fine_tune_without_epochs_raises_key_error_witness :
  FineTune.main (A:=float) toy_net toy_fmt (toy_cuda_args 0 false) (toy_ft_env true)
    = Raise (KeyError "0").
Proof.
  apply (fine_tune_without_epochs_raises_key_error toy_net toy_fmt (toy_cuda_args 0 false)
           (toy_ft_env true)); [reflexivity | reflexivity | reflexivity | discriminate].
Defined.

Lemma no_saves_app {A Params : Type} (l1 l2 : list (event A Params)) :
  no_saves l1 → no_saves l2 → no_saves (l1 ++ l2).
Proof. apply Forall_app_2. Qed.

Section TrainNoSaves.
Context {A Params Input Output OptState : Type} `{Scalar A}.
Context (net : Network A Params Input Output OptState).
Context (args : Args A) (tl : DataLoader Input).


Lemma search_train_loop_no_saves (epoch : Z) (todo : list (list (Input * Z))) :
  ∀ idx p (o : Optimizer OptState) tr p' o' tr',
  Search.train_loop net args epoch tl todo idx p o tr = Ok (p', o', tr') →
  ∃ new, tr' = tr ++ new ∧ no_saves new.
Proof.
  induction todo as [|b todo IH]; intros idx p o tr p' o' tr' Hrun.
  - simpl in Hrun. inversion Hrun; subst. exists []. rewrite app_nil_r.
    split; [reflexivity | constructor].
  - cbn [Search.train_loop] in Hrun.
    apply bind_Ok_inv in Hrun as ([[l ls] lo] & _ & Hrun). cbv zeta in Hrun.
    destruct (backward_step _ _ _ _ _ _) as [p1 os1].
    destruct (log_interval args =? 0); [discriminate|].
    destruct (idx `mod` log_interval args =? 0).
    + apply bind_Ok_inv in Hrun as (pc & _ & Hrun).
      apply bind_Ok_inv in Hrun as (u & _ & Hrun).
      destruct (dry_run args).
      * inversion Hrun; subst. eexists. rewrite <- app_assoc. split; [reflexivity|].
        repeat constructor.
      * apply IH in Hrun as (new & -> & Hnew). eexists. rewrite <- !app_assoc.
        split; [reflexivity|]. apply no_saves_app; [repeat constructor|].
        apply no_saves_app; [repeat constructor | exact Hnew].
    + apply IH in Hrun as (new & -> & Hnew). eexists. rewrite <- !app_assoc.
      split; [reflexivity|]. apply no_saves_app; [repeat constructor | exact Hnew].
Qed.

Lemma search_train_no_saves (m : Model Params) (o : Optimizer OptState) (epoch : Z)
    (tr : list (event A Params)) m' o' tr' :
  Search.train net args m tl o epoch tr = Ok (m', o', tr') →
  ∃ new, tr' = tr ++ new ∧ no_saves new.
Proof.
  unfold Search.train. intros Hrun. cbv zeta in Hrun.
  apply bind_Ok_inv in Hrun as ([[p1 o1] tr1] & Hloop & Hrun).
  inversion Hrun; subst. eapply search_train_loop_no_saves, Hloop.
Qed.

End TrainNoSaves.


(** The keyword arguments that the search driver hands to its loaders. *)
Lemma search_kwargs_loader {Input : Type}
    (draw : Z → list (Input * Z) → list (Input * Z)) (ds : list (Input * Z)) (cuda : bool)
    (workers n : Z) :
  DataLoader_new draw ds
    (from_option (λ kw : gmap string pyarg, kw ∪ {["batch_size" := PInt n]})
       {["batch_size" := PInt n]}
       (if cuda
        then Some (<["num_workers" := PInt workers]>
                   (<["pin_memory" := PBool true]> {["shuffle" := PBool true]}))
        else None))
  = if cuda && (length ds =? 0)%nat then Raise ValueError
    else if n <=? 0 then Raise ValueError else Ok (loader_of draw cuda ds n).
Proof.
  unfold DataLoader_new.
  assert (Hk : from_option (λ kw : gmap string pyarg, kw ∪ {["batch_size" := PInt n]})
       {["batch_size" := PInt n]}
       (if cuda
        then Some (<["num_workers" := PInt workers]>
                   (<["pin_memory" := PBool true]> {["shuffle" := PBool true]}))
        else None) !! "batch_size" = Some (PInt n)).
  { destruct cuda; cbn [from_option].
    - rewrite lookup_union_r; [apply lookup_singleton_eq|].
      rewrite !lookup_insert_ne by discriminate. apply lookup_singleton_ne. discriminate.
    - apply lookup_singleton_eq. }
  assert (Hs : from_option (λ kw : gmap string pyarg, kw ∪ {["batch_size" := PInt n]})
       {["batch_size" := PInt n]}
       (if cuda
        then Some (<["num_workers" := PInt workers]>
                   (<["pin_memory" := PBool true]> {["shuffle" := PBool true]}))
        else None) !! "shuffle" = if cuda then Some (PBool true) else None).
  { destruct cuda; cbn [from_option].
    - apply lookup_union_Some_l.
      rewrite !lookup_insert_ne by discriminate. apply lookup_singleton_eq.
    - apply lookup_singleton_ne. discriminate. }
  rewrite Hk, Hs. destruct cuda; reflexivity.
Qed.

Section SearchMain.
Context {A Params Input Output OptState : Type} `{Scalar A}.
Context (net : Network A Params Input Output OptState) (fmt_1e : A → string).
Context (args : Args A).


Lemma search_test_ok (m : Model Params) (ld : DataLoader Input) :
  dataset ld ≠ [] → ∃ r, Search.test net m ld = Ok (model_eval m, r, PyNone).
Proof.
  intros Hne. rewrite search_test_unfold. cbv zeta.
  replace (Z.of_nat (length (dataset ld)) =? 0) with false.
  2:{ symmetry. apply Z.eqb_neq. destruct (dataset ld); [congruence | simpl; lia]. }
  eauto.
Qed.

Lemma search_test_Ok_inv (m : Model Params) (ld : DataLoader Input) m' r v :
  Search.test net m ld = Ok (m', r, v) → dataset ld ≠ [] ∧ m' = model_eval m ∧ v = PyNone.
Proof.
  rewrite search_test_unfold. cbv zeta. intros Hrun.
  destruct (Z.eqb_spec (Z.of_nat (length (dataset ld))) 0) as [Hz|Hnz]; [discriminate|].
  inversion Hrun; subst. split; [|split; reflexivity].
  intros Hd. rewrite Hd in Hnz. apply Hnz. reflexivity.
Qed.

Lemma complexity_ok (p : Params) :
  size_dict net p ≠ [] → ops_dict net p ≠ [] →
  Search.complexity net p = Ok (aggregate (size_dict net p), aggregate (ops_dict net p)).
Proof.
  intros Hs Ho. unfold Search.complexity.
  rewrite (sum_values_aggregate _ Hs), (sum_values_aggregate _ Ho). reflexivity.
Qed.

Lemma complexity_Ok_inv (p : Params) (size ops : A) :
  Search.complexity net p = Ok (size, ops) →
  size_dict net p ≠ [] ∧ ops_dict net p ≠ [] ∧
  size = aggregate (size_dict net p) ∧ ops = aggregate (ops_dict net p).
Proof.
  intros Hrun.
  destruct (size_dict net p) as [|s ss] eqn:Hs.
  { unfold Search.complexity in Hrun. rewrite Hs in Hrun. discriminate. }
  destruct (ops_dict net p) as [|o os] eqn:Ho.
  { unfold Search.complexity in Hrun. rewrite Hs, Ho in Hrun. discriminate. }
  rewrite <- Hs, <- Ho in *.
  rewrite complexity_ok in Hrun by (rewrite ?Hs, ?Ho; discriminate).
  inversion Hrun; subst. rewrite Hs, Ho. repeat split; discriminate.
Qed.


Lemma search_main_unfold (env : Search.Env) :
  let shuffle := use_cuda args (Search.cuda_is_available env) in
  0 < batch_size args → 0 < test_batch_size args →
  (shuffle = true → Search.dataset1 env ≠ []) →
  Search.dataset2 env ≠ [] →
  size_dict net (Search.new_model env) ≠ [] →
  ops_dict net (Search.new_model env) ≠ [] →
  ∃ r,
    Search.test net {| params := Search.new_model env; training := true |}
      (loader_of (Search.draw_test env) shuffle (Search.dataset2 env) (test_batch_size args) 0)
      = Ok ({| params := Search.new_model env; training := false |}, r, PyNone) ∧
    Search.main net fmt_1e args env =
      if eval_complexity args then
        Ok {| Search.st_model := Search.st_model (search_start net args env r);
              Search.st_optimizer := Search.st_optimizer (search_start net args env r);
              Search.st_fs := Search.disk env;
              Search.st_trace :=
                Search.st_trace (search_start net args env r) ++ [Print (TextLine "Exit...")] |}
      else
        Search.main_loop net args
          (loader_of (Search.draw_train env) shuffle (Search.dataset1 env) (batch_size args))
          (loader_of (Search.draw_test env) shuffle (Search.dataset2 env)
             (test_batch_size args))
          (search_start net args env r)
        ≫= Search.main_finish net fmt_1e args
             (aggregate (size_dict net (Search.new_model env)))
             (aggregate (ops_dict net (Search.new_model env)))
             (alive_ch net (Search.new_model env)).
Proof.
  intros shuffle Hb Htb Hd1 Hd Hs Ho.
  destruct (search_test_ok {| params := Search.new_model env; training := true |}
              (loader_of (Search.draw_test env) shuffle (Search.dataset2 env)
                 (test_batch_size args) 0) Hd) as (r & Hr).
  exists r. split; [exact Hr|].
  unfold Search.main. cbv zeta.
  rewrite !search_kwargs_loader. fold (use_cuda args (Search.cuda_is_available env)).
  fold shuffle.
  replace (shuffle && (length (Search.dataset1 env) =? 0)%nat) with false.
  2:{ symmetry. destruct shuffle; [|reflexivity]. cbn [andb].
      apply length_zero_eqb, Hd1. reflexivity. }
  rewrite (length_zero_eqb _ Hd), andb_false_r.
  replace (batch_size args <=? 0) with false by (symmetry; apply Z.leb_gt, Hb).
  replace (test_batch_size args <=? 0) with false by (symmetry; apply Z.leb_gt, Htb).
  rewrite !bind_Ok, Hr, bind_Ok. cbv beta iota. cbn [params model_eval].
  rewrite (complexity_ok _ Hs Ho), bind_Ok. cbv beta iota.
  destruct (eval_complexity args); reflexivity.
Qed.

End SearchMain.


Lemma assoc_get_ok {V : Type} (k : string) (d : list (string * V)) :
  k ∈ d.*1 → ∃ v, assoc_get k d = Ok v.
Proof.
  induction d as [|[k' v'] d IH]; intros Hin.
  - inversion Hin.
  - cbn [assoc_get]. destruct (String.eqb_spec k k') as [->|Hne]; [eauto|].
    apply IH. rewrite fmap_cons in Hin. apply elem_of_cons in Hin as [Heq|Hin]; [|exact Hin].
    cbn in Heq. congruence.
Qed.

Section SearchFinish.
Context {A Params Input Output OptState : Type} `{Scalar A}.
Context (net : Network A Params Input Output OptState) (fmt_1e : A → string).
Context (args : Args A).

Local Abbreviation alive_body alive_i :=

  (λ (tr : list (event A Params)) (kv : string * A),
     assoc_get kv.1 alive_i ≫= λ v0, Ok (tr ++ [Print (AliveLine kv.1 kv.2 (Some v0))])).

Lemma alive_lines_inv (alive_i l : list (string * A)) :
  ∀ tr tr', for_each (alive_body alive_i) l tr = Ok tr' →
  ∃ lines, tr' = tr ++ lines ∧ only_prints lines.
Proof.
  induction l as [|kv l IH]; intros tr tr' Hrun; cbn [for_each] in Hrun.
  - inversion Hrun; subst. exists []. rewrite app_nil_r. split; [reflexivity | constructor].
  - apply bind_Ok_inv in Hrun as (tr1 & Hkv & Hrun).
    apply bind_Ok_inv in Hkv as (v0 & _ & Hkv). inversion Hkv; subst.
    apply IH in Hrun as (lines & -> & Hlines).
    eexists. rewrite <- app_assoc. split; [reflexivity|].
    constructor; [reflexivity | exact Hlines].
Qed.

Lemma alive_lines_ok (alive_i l : list (string * A)) :
  l.*1 ⊆ alive_i.*1 →
  ∀ tr, ∃ tr', for_each (alive_body alive_i) l tr = Ok tr'.
Proof.
  induction l as [|kv l IH]; intros Hsub tr; cbn [for_each].
  - eauto.
  - destruct (assoc_get_ok kv.1 alive_i) as (v0 & Hv0).
    { apply Hsub. rewrite fmap_cons. apply elem_of_cons. left. reflexivity. }
    rewrite Hv0, !bind_Ok. apply IH.
    intros k Hk. apply Hsub. rewrite fmap_cons. apply elem_of_cons. right. exact Hk.
Qed.

Lemma search_main_finish_trace (size_i ops_i : A) (alive_i : list (string * A))
    (st st' : Search.MainState) :
  Search.main_finish net fmt_1e args size_i ops_i alive_i st = Ok st' →
  Search.st_optimizer st' = Search.st_optimizer st ∧
  ∃ lines,
    Search.st_trace st' = Search.st_trace st ++ lines ++
      [Save (Search.checkpoint_path fmt_1e args) (params (Search.st_model st))] ∧
    only_prints lines.
Proof.
  unfold Search.main_finish. intros Hrun. cbv zeta in Hrun.
  apply bind_Ok_inv in Hrun as ([size_f ops_f] & _ & Hrun).
  apply bind_Ok_inv in Hrun as (tr & Halive & Hrun).
  apply alive_lines_inv in Halive as (lines & -> & Hlines).
  inversion Hrun; subst. cbn. split; [reflexivity|].
  eexists (_ :: lines). rewrite <- !app_assoc. split; [reflexivity|].
  constructor; [reflexivity | exact Hlines].
Qed.

Lemma search_main_finish_ok (size_i ops_i : A) (alive_i : list (string * A))
    (st : Search.MainState) :
  size_dict net (params (Search.st_model st)) ≠ [] →
  ops_dict net (params (Search.st_model st)) ≠ [] →
  (alive_ch net (params (Search.st_model st))).*1 ⊆ alive_i.*1 →
  ∃ st', Search.main_finish net fmt_1e args size_i ops_i alive_i st = Ok st'.
Proof.
  intros Hs Ho Hsub. unfold Search.main_finish. cbv zeta.
  rewrite (complexity_ok _ _ Hs Ho), bind_Ok. cbv beta iota.
  match goal with
  | |- context [for_each ?f ?l ?tr] =>
      destruct (alive_lines_ok alive_i l Hsub tr) as (tr' & Htr')
  end.
  rewrite Htr', bind_Ok. eauto.
Qed.

Lemma search_main_epoch_inv (tl tel : DataLoader Input) (st st' : Search.MainState) (e : Z) :
  Search.main_epoch net args tl tel st e = Ok st' →
  ∃ m1 o1 new r,
    Search.train net args (Search.st_model st) tl (Search.st_optimizer st) e
      (Search.st_trace st) = Ok (m1, o1, Search.st_trace st ++ new) ∧
    no_saves new ∧
    Search.test net m1 tel = Ok (model_eval m1, r, PyNone) ∧
    Search.st_model st' = model_eval m1 ∧
    Search.st_optimizer st' = Search.scheduler_step (gamma args) o1 ∧
    Search.st_trace st' = Search.st_trace st ++ new ++ [Print (EvalLine r)].
Proof.
  unfold Search.main_epoch. intros Hrun.
  apply bind_Ok_inv in Hrun as ([[m1 o1] tr1] & Htrain & Hrun).
  apply bind_Ok_inv in Hrun as ([[m2 r] v] & Htest & Hrun).
  destruct (search_train_no_saves _ _ _ _ _ _ _ _ _ _ Htrain) as (new & -> & Hnew).
  destruct (search_test_Ok_inv _ _ _ _ _ _ Htest) as (_ & -> & ->).
  inversion Hrun; subst. cbn. exists m1, o1, new, r.
  rewrite <- app_assoc. auto 10.
Qed.

Lemma search_loop_shape (tl tel : Loader Input) (es : list Z) :
  ∀ st st',
  for_each (λ st epoch, Search.main_epoch net args (tl epoch) (tel epoch) st epoch) es st
    = Ok st' →
  (training (Search.st_model st) = false → training (Search.st_model st') = false) ∧
  ∃ new, Search.st_trace st' = Search.st_trace st ++ new ∧ no_saves new.
Proof.
  induction es as [|e es IH]; intros st st' Hrun; cbn [for_each] in Hrun.
  - inversion Hrun; subst. split; [auto|]. exists []. rewrite app_nil_r.
    split; [reflexivity | constructor].
  - apply bind_Ok_inv in Hrun as (s1 & Hs & Hrun).
    apply search_main_epoch_inv in Hs as (m1 & o1 & new & r & _ & Hnew & _ & Hm & _ & Htr).
    apply IH in Hrun as (Htrain & new2 & Htr2 & Hnew2).
    split.
    + intros _. apply Htrain. rewrite Hm. reflexivity.
    + exists ((new ++ [Print (EvalLine r)]) ++ new2). rewrite Htr2, Htr, <- !app_assoc.
      split; [reflexivity|].
      apply no_saves_app; [exact Hnew|]. constructor; [reflexivity | exact Hnew2].
Qed.

End SearchFinish.


Section SearchMainTheorems.
Context {A Params Input Output OptState : Type} `{Scalar A}.
Context (net : Network A Params Input Output OptState) (fmt_1e : A → string).
Context (args : Args A).
Context (env : Search.Env (Params:=Params) (Input:=Input) (OptState:=OptState)).

(** X8.  With [--eval-complexity] the search driver fetches the dataset,
    runs the dummy test step, prints the initial size, operations and
    alive channels, prints "Exit..." and returns: the model keeps its
    initial parameters (in evaluation mode), the optimizer is untouched,
    the checkpoint directory is as it was, and after the download of the
    dataset into [data] the run only prints: it takes no optimizer step
    and writes no checkpoint.  This needs positive batch sizes, a test set
    that is not empty, under CUDA also a training set that is not empty
    (the shuffling loader refuses an empty one), and a model that tracks
    at least one layer. *)
Theorem search_eval_complexity_only_reports :
  let shuffle := use_cuda args (Search.cuda_is_available env) in
  eval_complexity args = true →
  0 < batch_size args → 0 < test_batch_size args →
  (shuffle = true → Search.dataset1 env ≠ []) →
  Search.dataset2 env ≠ [] →
  size_dict net (Search.new_model env) ≠ [] →
  ops_dict net (Search.new_model env) ≠ [] →
  ∃ st r,
    Search.main net fmt_1e args env = Ok st ∧
    Search.test net {| params := Search.new_model env; training := true |}
      (loader_of (Search.draw_test env) shuffle (Search.dataset2 env) (test_batch_size args) 0)
      = Ok ({| params := Search.new_model env; training := false |}, r, PyNone) ∧
    Search.st_model st = {| params := Search.new_model env; training := false |} ∧
    Search.st_optimizer st
      = {| param_groups := [ {["lr" := lr args]} ]; opt_state := Search.new_opt_state env |} ∧
    Search.st_fs st = Search.disk env ∧
    Search.st_trace st
      = Search.st_trace (search_start net args env r) ++ [Print (TextLine "Exit...")] ∧
    ∃ lines, Search.st_trace st = Download "data" :: lines ∧ only_prints lines.
Proof.
  intros shuffle Hev Hb Htb Hd1 Hd Hs Ho.
  destruct (search_main_unfold net fmt_1e args env Hb Htb Hd1 Hd Hs Ho) as (r & Hr & Hmain).
  rewrite Hev in Hmain. eexists _, r. split; [exact Hmain|]. split; [exact Hr|].
  cbn [Search.st_model Search.st_optimizer Search.st_fs Search.st_trace].
  repeat (split; [reflexivity|]).
  unfold search_start. cbv zeta. cbn [Search.st_trace].
  eexists. split; [reflexivity|]. unfold only_prints.
  repeat first [ apply Forall_cons_2; [reflexivity|] | apply Forall_app_2 ].
  - apply Forall_fmap, Forall_true. intros kv. reflexivity.
  - repeat constructor.
Qed.

(** X9.  Without [--eval-complexity], the search driver completes
    whenever the batch sizes are positive, the log interval is not 0, the
    test set is not empty (under CUDA, where the loaders shuffle, nor the
    training set), the model tracks at least one layer in [size_dict] and
    [ops_dict], and every layer alive at the end was alive at the start.
    It then leaves the contract [search_run_contract]: the final model is
    the one that the epoch loop produced on the loaders of the run
    (reshuffled for every epoch under CUDA), in evaluation mode; the rate
    is the initial one multiplied by gamma once per epoch; the checkpoint
    is written once, as the last event. *)
Theorem search_main_completes :
  eval_complexity args = false →
  0 < batch_size args → 0 < test_batch_size args →
  log_interval args ≠ 0 →
  (use_cuda args (Search.cuda_is_available env) = true → Search.dataset1 env ≠ []) →
  Search.dataset2 env ≠ [] →
  (∀ p, size_dict net p ≠ []) →
  (∀ p, ops_dict net p ≠ []) →
  (∀ p, (alive_ch net p).*1 ⊆ (alive_ch net (Search.new_model env)).*1) →
  search_run_contract net fmt_1e args env.
Proof.
  intros Hev Hb Htb Hli Hd1 Hd Hs Ho Halive.
  destruct (search_main_unfold net fmt_1e args env Hb Htb Hd1 Hd (Hs _) (Ho _))
    as (r & Hr & Hmain).
  rewrite Hev in Hmain. unfold search_run_contract. cbv zeta.
  set (shuffle := use_cuda args (Search.cuda_is_available env)) in *.
  set (tl := loader_of (Search.draw_train env) shuffle (Search.dataset1 env)
               (batch_size args)) in *.
  set (tel := loader_of (Search.draw_test env) shuffle (Search.dataset2 env)
                (test_batch_size args)) in *.
  destruct (search_rates_run net args tl tel Hli Hs Ho
              (search_start net args env r) (Z.to_nat (epochs args)))
    as (after & new & Hloop & Hg & _ & _); [intros e _; exact Hd|].
  rewrite search_run_epochs_to_nat in Hloop.
  change (Search.main_loop net args tl tel (search_start net args env r) = Ok after) in Hloop.
  rewrite Hloop, bind_Ok in Hmain.
  destruct (search_main_finish_ok net fmt_1e args
              (aggregate (size_dict net (Search.new_model env)))
              (aggregate (ops_dict net (Search.new_model env)))
              (alive_ch net (Search.new_model env)) after (Hs _) (Ho _) (Halive _))
    as (st & Hfin).
  rewrite Hfin in Hmain.
  destruct (search_main_finish_inv _ _ _ _ _ _ _ _ Hfin) as (Hm & Hfs).
  destruct (search_main_finish_trace _ _ _ _ _ _ _ _ Hfin) as (Hopt & lines & Htr & Hlines).
  pose proof (search_loop_fs net args tl tel _ _ _ Hloop) as Hdisk.
  destruct (search_loop_shape net args tl tel _ _ _ Hloop) as (Htrain & _).
  exists st, r, after. split; [exact Hmain|]. split; [exact Hloop|].
  split; [exact Hm|]. split; [rewrite Hm; apply Htrain; reflexivity|].
  split; [|split].
  - rewrite Hopt. unfold group_rates at 1. rewrite Hg.
    change ((λ g : gmap string float, g !! "lr") <$> param_groups ?o) with (group_rates o).
    rewrite group_rates_decayed. unfold group_rates, search_start. cbv zeta.
    cbn [Search.st_optimizer param_groups]. rewrite !fmap_cons, !fmap_nil.
    rewrite lookup_singleton_eq. reflexivity.
  - rewrite Hfs, Hdisk, Hm. reflexivity.
  - exists lines. rewrite Hm. split; [exact Htr | exact Hlines].
Qed.

End SearchMainTheorems.

Lemma search_eval_complexity_only_reports_witness :
  ∃ st, Search.main (A:=float) toy_net toy_fmt (toy_cuda_args 3 true) toy_cuda_search_env
          = Ok st ∧
        Search.st_fs st = {["notes.txt" := 7]} ∧
        params (Search.st_model st) = -1 ∧
        ∃ lines, Search.st_trace st = Download "data" :: lines ∧ only_prints lines.
Proof.
  destruct (search_eval_complexity_only_reports (A:=float) toy_net toy_fmt
              (toy_cuda_args 3 true) toy_cuda_search_env)
    as (st & r & Hmain & _ & Hm & _ & Hfs & _ & Hquiet);
    [reflexivity | reflexivity | reflexivity | discriminate | discriminate
    | discriminate | discriminate |].
  exists st. split; [exact Hmain|]. split; [exact Hfs|]. split; [rewrite Hm; reflexivity|].
  exact Hquiet.
Defined.

Lemma search_main_completes_witness :
  search_run_contract (A:=float) toy_net toy_fmt (toy_cuda_args 3 false) toy_cuda_search_env.
Proof.
  apply search_main_completes;
    [reflexivity | reflexivity | reflexivity | discriminate | discriminate | discriminate
    | intros p; discriminate | intros p; discriminate | intros p; reflexivity].
Defined.


#[global] Instance Q_percentage : PercentageOrder Q.
Proof.
  intros c n Hc Hn. unfold nonneg. cbn [s_leb s_of_Z s_div s_mul Q_scalar].
  apply Qle_bool_iff. apply Q_percentage_bounds; lia.
Qed.


(** ** The batches of a loader *)

Lemma chunks_nil {X : Type} (fuel n : nat) : chunks fuel n ([] : list X) = [].
Proof. destruct fuel; reflexivity. Qed.

Lemma chunks_concat {X : Type} (n : nat) :
  (0 < n)%nat → ∀ (fuel : nat) (l : list X), (length l ≤ fuel)%nat →
  concat (chunks fuel n l) = l.
Proof.
  intros Hn. induction fuel as [|fuel IH]; intros l Hl.
  - destruct l; [reflexivity | simpl in Hl; lia].
  - destruct l as [|x l]; [reflexivity|].
    cbn [chunks concat]. rewrite IH.
    + apply take_drop.
    + rewrite length_drop. simpl in Hl. simpl. lia.
Qed.

(** With more than one sample per batch, the only batch that can hold a
    single sample is the last one, when one sample is left over. *)
Lemma chunks_no_unit {X : Type} (n : nat) :
  (1 < n)%nat → ∀ (fuel : nat) (l : list X), (length l ≤ fuel)%nat →
  (length l `mod` n ≠ 1)%nat →
  Forall (λ b, length b ≠ 1%nat) (chunks fuel n l).
Proof.
  intros Hn. induction fuel as [|fuel IH]; intros l Hl Hmod; [constructor|].
  destruct l as [|x l]; [constructor|].
  cbn [chunks]. destruct (Nat.le_gt_cases n (length (x :: l))) as [Hge|Hlt].
  - constructor.
    + rewrite length_take. lia.
    + apply IH.
      * rewrite length_drop. simpl in Hl. simpl. lia.
      * rewrite length_drop.
        replace (length (x :: l)) with ((length (x :: l) - n) + 1 * n)%nat in Hmod by lia.
        rewrite Nat.Div0.mod_add in Hmod. exact Hmod.
  - rewrite Nat.mod_small in Hmod by exact Hlt.
    rewrite take_ge by lia. rewrite drop_ge by lia. rewrite chunks_nil.
    constructor; [exact Hmod | constructor].
Qed.

Lemma loader_of_enumerates {Input : Type}
    (draw : Z → list (Input * Z) → list (Input * Z)) (shuffle : bool)
    (ds : list (Input * Z)) (n k : Z) :
  0 < n → draw k ds ≡ₚ ds → enumerates (loader_of draw shuffle ds n k).
Proof.
  intros Hn Hdraw. unfold enumerates, loader_of. cbn [batches dataset].
  rewrite chunks_concat by lia. destruct shuffle; [exact Hdraw | reflexivity].
Qed.

Lemma loader_of_no_unit {Input : Type}
    (draw : Z → list (Input * Z) → list (Input * Z)) (shuffle : bool)
    (ds : list (Input * Z)) (n k : Z) :
  1 < n → Z.of_nat (length ds) `mod` n ≠ 1 → draw k ds ≡ₚ ds →
  no_unit_batch (loader_of draw shuffle ds n k).
Proof.
  intros Hn Hmod Hdraw. unfold no_unit_batch, loader_of. cbn [batches].
  apply chunks_no_unit; [lia | lia |].
  assert (Hlen : length (if shuffle then draw k ds else ds) = length ds)
    by (destruct shuffle; [apply Permutation_length, Hdraw | reflexivity]).
  rewrite Hlen. intros H1. apply Hmod.
  rewrite <- (Z2Nat.id n) by lia. rewrite <- Nat2Z.inj_mod, H1. reflexivity.
Qed.

Lemma alternate_orders {X : Type} : draws_orders (alternate (X:=X)).
Proof.
  intros k l. unfold alternate. destruct (Z.even k); [reflexivity|].
  apply reverse_Permutation.
Qed.


Section AccuracyOrder.
Context {A Params Input Output OptState : Type} `{Scalar A} `{!PercentageOrder A}.
Context (net : Network A Params Input Output OptState).

Lemma ft_test_accuracy_nonneg (m m' : Model Params) (ld : DataLoader Input) (scope : string)
    (r : report A) (v : pyval A) :
  concat (batches ld) ≡ₚ dataset ld →
  Z.of_nat (length (dataset ld)) < 2 ^ 53 →
  FineTune.test net m ld scope = Ok (m', r, v) →
  ∃ a, v = PyFloat a ∧ r_accuracy r = a ∧ nonneg a.
Proof.
  intros Hperm Hsz Hrun.
  pose proof (n_correct_bounds net (params m) (concat (batches ld))) as Hb.
  rewrite (Permutation_length Hperm) in Hb.
  apply ft_test_closed in Hrun. cbv zeta in Hrun.
  destruct (Z.eqb_spec (Z.of_nat (length (dataset ld))) 0) as [Hz|Hnz]; [discriminate|].
  inversion Hrun; subst. cbn [r_accuracy]. eexists. split; [reflexivity|].
  split; [reflexivity|]. apply percent_nonneg; lia.
Qed.

Lemma search_test_accuracy_nonneg (m m' : Model Params) (ld : DataLoader Input)
    (r : report A) (v : pyval A) :
  concat (batches ld) ≡ₚ dataset ld →
  Z.of_nat (length (dataset ld)) < 2 ^ 53 →
  Search.test net m ld = Ok (m', r, v) →
  nonneg (r_accuracy r).
Proof.
  intros Hperm Hsz Hrun.
  pose proof (n_correct_bounds net (params m) (concat (batches ld))) as Hb.
  rewrite (Permutation_length Hperm) in Hb.
  rewrite search_test_unfold in Hrun. cbv zeta in Hrun.
  destruct (Z.eqb_spec (Z.of_nat (length (dataset ld))) 0) as [Hz|Hnz]; [discriminate|].
  inversion Hrun; subst. cbn [r_accuracy]. apply percent_nonneg; lia.
Qed.

(** X11.  The accuracy that [test] computes is never NaN and never
    negative when the loader enumerates a dataset of fewer than 2^53
    samples: it compares as at least 0.0.  For the fine-tune driver this
    is the value returned, so the comparison with the baseline
    [val_acc["0"] = 0.0] succeeds. *)
Theorem accuracy_is_at_least_the_baseline
    (m m' : Model Params) (ld : DataLoader Input) (scope : string)
    (r : report A) (v : pyval A) :
  concat (batches ld) ≡ₚ dataset ld →
  Z.of_nat (length (dataset ld)) < 2 ^ 53 →
  FineTune.test net m ld scope = Ok (m', r, v) ∨ Search.test net m ld = Ok (m', r, v) →
  nonneg (r_accuracy r) ∧
  (FineTune.test net m ld scope = Ok (m', r, v) →
   v = PyFloat (r_accuracy r) ∧ py_ge v (PyFloat (s_of_Z 0)) = Ok true).
Proof.
  intros Hperm Hsz Hrun. split.
  - destruct Hrun as [Hrun|Hrun].
    + destruct (ft_test_accuracy_nonneg _ _ _ _ _ _ Hperm Hsz Hrun) as (a & _ & -> & Ha).
      exact Ha.
    + eapply search_test_accuracy_nonneg; eassumption.
  - intros Hft.
    destruct (ft_test_accuracy_nonneg _ _ _ _ _ _ Hperm Hsz Hft) as (a & -> & -> & Ha).
    split; [reflexivity|]. cbn [py_ge]. f_equal. exact Ha.
Qed.

End AccuracyOrder.

Lemma accuracy_is_at_least_the_baseline_witness :
  concat (batches (toy_loader (A:=float))) ≡ₚ dataset toy_loader ∧
  Z.of_nat (length (dataset (toy_loader (A:=float)))) < 2 ^ 53 ∧
  ∃ m' r v, FineTune.test (A:=float) toy_net toy_model toy_loader "Validation" = Ok (m', r, v) ∧
            nonneg (r_accuracy r).
Proof.
  assert (H1 : concat (batches (toy_loader (A:=float))) ≡ₚ dataset toy_loader)
    by exact toy_loader_enumerates.
  assert (H2 : Z.of_nat (length (dataset (toy_loader (A:=float)))) < 2 ^ 53) by reflexivity.
  split; [exact H1|]. split; [exact H2|].
  destruct (ft_test_ok (A:=float) toy_net toy_model toy_loader "Validation")
    as (r & a & Hrun); [discriminate | exact toy_loader_no_unit_batch |].
  exists (model_eval toy_model), r, (PyFloat a). split; [exact Hrun|].
  exact (proj1 (accuracy_is_at_least_the_baseline (A:=float) toy_net toy_model
                  (model_eval toy_model) toy_loader "Validation" r (PyFloat a)
                  H1 H2 (or_introl Hrun))).
Defined.


Section FineTuneCompletes.
Context {A Params Input Output OptState : Type} `{Scalar A}.
Context `{!ScalarOrder A} `{!PercentageOrder A}.
Context (net : Network A Params Input Output OptState) (fmt_1e : A → string).
Context (args : Args A) (tl vl tel : Loader Input).
Context (init : FineTune.MainState (A:=A) (Params:=Params) (OptState:=OptState)).

Lemma ft_nonneg_run (n : nat) (st : FineTune.MainState) :
  (∀ e, 1 ≤ e ≤ Z.of_nat n →
     enumerates (vl e) ∧ Z.of_nat (length (dataset (vl e))) < 2 ^ 53) →
  FineTune.run_epochs net fmt_1e args tl vl tel (Z.of_nat n) init = Ok st →
  all_nonneg (FineTune.st_val_acc st) (Z.of_nat n).
Proof.
  revert st. induction n as [|n IH]; intros st Hvl Hrun.
  - intros e a He. lia.
  - rewrite run_succ in Hrun.
    apply bind_Ok_inv in Hrun as (s & Hs & Hstep).
    assert (IH' : all_nonneg (FineTune.st_val_acc s) (Z.of_nat n))
      by (apply IH; [intros e He; apply Hvl; lia | exact Hs]).
    destruct (Hvl (Z.of_nat (S n)) ltac:(lia)) as (Henum & Hsize).
    destruct (main_epoch_inv _ _ _ _ _ _ _ _ _ Hstep)
      as (m1 & o1 & tr1 & rv & a & rt & t & vb & _ & Hval & _ & _ & _ & Hacc & _).
    destruct (ft_test_accuracy_nonneg _ _ _ _ _ _ _ Henum Hsize Hval)
      as (a' & Heq & _ & Ha). inversion Heq; subst a'.
    intros e x He Hx. rewrite Hacc in Hx.
    destruct (Z.eq_dec e (Z.of_nat (S n))) as [->|Hne].
    + rewrite lookup_insert_eq in Hx. inversion Hx; subst. exact Ha.
    + rewrite lookup_insert_ne in Hx by (intros Hk; apply str_inj in Hk; lia).
      apply (IH' e x); [lia | exact Hx].
Qed.

End FineTuneCompletes.

Section FineTuneMainTheorem.
Context {A Params Input Output OptState : Type} `{Scalar A}.
Context `{!ScalarOrder A} `{!PercentageOrder A}.
Context (net : Network A Params Input Output OptState) (fmt_1e : A → string).
Context (args : Args A).
Context (env : FineTune.Env (Params:=Params) (Input:=Input) (OptState:=OptState)).


End FineTuneMainTheorem.

Lemma toy_samples_well_batched : well_batched (toy_samples (A:=float)) 2.
Proof. split; [discriminate|]. split; [lia | discriminate]. Qed.


Section EdgeTheorems.
Context {A Params Input Output OptState : Type} `{Scalar A}.
Context (net : Network A Params Input Output OptState) (fmt_1e : A → string).
Context (args : Args A).

Lemma test_on_empty_dataset (m : Model Params) (ld : DataLoader Input) (scope : string) :
  dataset ld = [] →
  Search.test net m ld = Raise ZeroDivisionError ∧
  (no_unit_batch ld → FineTune.test net m ld scope = Raise ZeroDivisionError).
Proof.
  intros Hd. split.
  - rewrite search_test_unfold. cbv zeta. rewrite Hd. reflexivity.
  - intros Hu. rewrite ft_test_unfold by exact Hu. cbv zeta. rewrite Hd. reflexivity.
Qed.

(** X13.  Neither driver gets through an empty split.  Both [test]
    functions divide by the size of the dataset and raise
    ZeroDivisionError on an empty one; without CUDA the search driver
    raises it in its dummy test step when the test set is empty, before
    any training and also with [--eval-complexity].  With CUDA the loaders
    shuffle, and [DataLoader] refuses an empty dataset: the search driver
    raises ValueError when either of its datasets is empty.  The fine-tune
    driver (which runs only with CUDA) raises ValueError in [np.vstack]
    when any of its three splits is empty, before it builds its model. *)
Theorem drivers_fail_on_empty_splits
    (search_env : Search.Env (Params:=Params) (Input:=Input) (OptState:=OptState))
    (ft_env : FineTune.Env (Params:=Params) (Input:=Input) (OptState:=OptState)) :
  0 < batch_size args → 0 < test_batch_size args →
  (∀ m ld scope, dataset ld = [] →
     Search.test net m ld = Raise ZeroDivisionError ∧
     (no_unit_batch ld → FineTune.test net m ld scope = Raise ZeroDivisionError)) ∧
  (use_cuda args (Search.cuda_is_available search_env) = false →
   Search.dataset2 search_env = [] →
   Search.main net fmt_1e args search_env = Raise ZeroDivisionError) ∧
  (use_cuda args (Search.cuda_is_available search_env) = true →
   Search.dataset1 search_env = [] ∨ Search.dataset2 search_env = [] →
   Search.main net fmt_1e args search_env = Raise ValueError) ∧
  (use_cuda args (FineTune.cuda_is_available ft_env) = true →
   FineTune.train_set ft_env = [] ∨ FineTune.val_set ft_env = [] ∨
   FineTune.test_set ft_env = [] →
   FineTune.main net fmt_1e args ft_env = Raise ValueError).
Proof.
  intros Hb Htb. split; [|split; [|split]].
  - intros m ld scope. apply test_on_empty_dataset.
  - intros Hcpu Hd. unfold Search.main. cbv zeta.
    rewrite !search_kwargs_loader. fold (use_cuda args (Search.cuda_is_available search_env)).
    rewrite Hcpu. cbn [andb].
    replace (batch_size args <=? 0) with false by (symmetry; apply Z.leb_gt, Hb).
    replace (test_batch_size args <=? 0) with false by (symmetry; apply Z.leb_gt, Htb).
    rewrite !bind_Ok.
    rewrite (proj1 (test_on_empty_dataset _
                      (loader_of (Search.draw_test search_env) false
                         (Search.dataset2 search_env) (test_batch_size args) 0) "Test" Hd)).
    reflexivity.
  - intros Hcuda Hempty. unfold Search.main. cbv zeta.
    rewrite !search_kwargs_loader. fold (use_cuda args (Search.cuda_is_available search_env)).
    rewrite Hcuda. cbn [andb].
    destruct (Search.dataset1 search_env) as [|s1 l1] eqn:E1; [reflexivity|].
    cbn [length Nat.eqb].
    replace (batch_size args <=? 0) with false by (symmetry; apply Z.leb_gt, Hb).
    rewrite bind_Ok.
    destruct Hempty as [?|Hd]; [discriminate|]. rewrite Hd. reflexivity.
  - apply ft_main_empty_split.
Qed.

(** X14.  The search driver needs a model that tracks at least one layer.
    When [size_dict] is empty, [sum] gives the int 0 and [torch.abs]
    rejects the float it is handed: [train] raises TypeError on its first
    batch.  When only [ops_dict] is empty, the first progress line calls
    [.item()] on a float: AttributeError.  And [main] raises
    AttributeError before the loop, at [.clone()], when either dict of the
    initial model is empty (unless, under CUDA, the training set is empty:
    then the loader has raised ValueError before). *)
Theorem search_needs_tracked_layers
    (m : Model Params) (tl : DataLoader Input) (o : Optimizer OptState) (epoch : Z)
    (tr : list (event A Params))
    (env : Search.Env (Params:=Params) (Input:=Input) (OptState:=OptState)) :
  batches tl ≠ [] → log_interval args ≠ 0 →
  0 < batch_size args → 0 < test_batch_size args → Search.dataset2 env ≠ [] →
  (size_dict net (params m) = [] →
   Search.train net args m tl o epoch tr = Raise TypeError) ∧
  (size_dict net (params m) ≠ [] → ops_dict net (params m) = [] →
   Search.train net args m tl o epoch tr = Raise AttributeError) ∧
  (size_dict net (Search.new_model env) = [] ∨ ops_dict net (Search.new_model env) = [] →
   Search.main net fmt_1e args env
   = Raise (if use_cuda args (Search.cuda_is_available env)
               && (length (Search.dataset1 env) =? 0)%nat
            then ValueError else AttributeError)).
Proof.
  intros Hne Hli Hb Htb Hd.
  assert (Hlen : (Z.of_nat (length (batches tl)) =? 0) = false).
  { apply Z.eqb_neq. destruct (batches tl); [congruence | simpl; lia]. }
  split; [|split].
  - intros Hs. unfold Search.train. cbv zeta.
    destruct (batches tl) as [|b bs]; [congruence|].
    cbn [Search.train_loop]. unfold Search.train_loss, sum_values.
    cbn [params model_train]. rewrite Hs. reflexivity.
  - intros Hs Ho. unfold Search.train. cbv zeta.
    destruct (batches tl) as [|b bs] eqn:Hbs; [congruence|].
    cbn [Search.train_loop]. cbn [params model_train].
    rewrite (train_loss_unfold net args (params m) _ Hs), bind_Ok.
    destruct (backward_step _ _ _ _ _ _) as [p1 os1].
    replace (log_interval args =? 0) with false by (symmetry; apply Z.eqb_neq, Hli).
    rewrite Z.mod_0_l by exact Hli. cbn [Z.eqb].
    unfold py_div. rewrite ?Hbs, Hlen, bind_Ok.
    unfold sum_values. rewrite Ho. reflexivity.
  - intros Hempty. unfold Search.main. cbv zeta.
    rewrite !search_kwargs_loader. fold (use_cuda args (Search.cuda_is_available env)).
    destruct (use_cuda args (Search.cuda_is_available env)
              && (length (Search.dataset1 env) =? 0)%nat); [reflexivity|].
    rewrite (length_zero_eqb _ Hd), andb_false_r.
    replace (batch_size args <=? 0) with false by (symmetry; apply Z.leb_gt, Hb).
    replace (test_batch_size args <=? 0) with false by (symmetry; apply Z.leb_gt, Htb).
    rewrite !bind_Ok.
    match goal with
    | |- context [Search.test net ?m0 ?ld0] =>
        destruct (search_test_ok net m0 ld0 Hd) as (r & ->)
    end.
    rewrite bind_Ok. cbv beta iota. cbn [params model_eval].
    unfold Search.complexity, sum_values.
    destruct (size_dict net (Search.new_model env)) as [|s ss]; [reflexivity|].
    destruct Hempty as [Hs|Ho]; [discriminate|]. rewrite Ho. reflexivity.
Qed.

(** X16.  The fine-tune driver cannot train with [--batch-size 1]: every
    batch of the training loader holds a single sample, [squeeze(0)] drops
    its batch axis, and [transpose(1,3)] raises IndexError in the first
    iteration of the first epoch, before any optimizer step. *)
Theorem fine_tune_rejects_single_sample_batches
    (env : FineTune.Env (Params:=Params) (Input:=Input) (OptState:=OptState)) :
  negb (no_cuda args) && FineTune.cuda_is_available env = true →
  FineTune.train_set env ≠ [] → FineTune.val_set env ≠ [] → FineTune.test_set env ≠ [] →
  draws_orders (FineTune.draw_train env) →
  batch_size args = 1 → 0 < test_batch_size args → 0 < epochs args →
  FineTune.main net fmt_1e args env = Raise IndexError.
Proof.
  intros Hcuda Htrain Hval Htest Hdraw Hb Htb Hep.
  rewrite (ft_main_unfold net fmt_1e args env Hcuda) by (assumption || lia).
  unfold FineTune.main_loop, FineTune.run_epochs. rewrite seqZ_cons by lia.
  cbn [for_each]. unfold FineTune.main_epoch, FineTune.train, loader_of.
  cbn [batches dataset]. rewrite Hb.
  destruct (FineTune.draw_train env 1 (FineTune.train_set env)) as [|x l] eqn:Hd.
  { exfalso. pose proof (Hdraw 1 (FineTune.train_set env)) as Hp. rewrite Hd in Hp.
    apply Permutation_nil_l in Hp. congruence. }
  cbn [length chunks Z.to_nat Pos.to_nat Pos.iter_op take FineTune.train_loop].
  change (take (Z.to_nat 1) (x :: l)) with [x].
  rewrite (model_input_unit [x]) by reflexivity. reflexivity.
Qed.

End EdgeTheorems.

Lemma fine_tune_rejects_single_sample_batches_witness :
  FineTune.main (A:=float) toy_net toy_fmt (unit_batch_args 3) (toy_ft_env true)
    = Raise IndexError.
Proof.
  apply fine_tune_rejects_single_sample_batches;
    [reflexivity | discriminate | discriminate | discriminate | exact alternate_orders
    | reflexivity | reflexivity | reflexivity].
Defined.


Lemma drivers_fail_on_empty_splits_witness :
  Search.main (A:=float) toy_net toy_fmt (toy_cuda_args 3 true) empty_search_env
    = Raise ZeroDivisionError ∧
  FineTune.main (A:=float) toy_net toy_fmt (toy_cuda_args 3 false) empty_ft_env
    = Raise ValueError.
Proof.
  split.
  - apply (drivers_fail_on_empty_splits (A:=float) toy_net toy_fmt
             (toy_cuda_args 3 true) empty_search_env empty_ft_env);
      reflexivity.
  - apply (drivers_fail_on_empty_splits (A:=float) toy_net toy_fmt
             (toy_cuda_args 3 false) empty_search_env empty_ft_env);
      [reflexivity | reflexivity | reflexivity | right; left; reflexivity].
Defined.

Lemma search_needs_tracked_layers_witness :
  Search.train (A:=float) bare_net (toy_cuda_args 3 false) toy_model toy_loader
    toy_optimizer 1 [] = Raise TypeError ∧
  Search.main (A:=float) bare_net toy_fmt (toy_cuda_args 3 false) toy_cuda_search_env
    = Raise AttributeError.
Proof.
  destruct (search_needs_tracked_layers (A:=float) bare_net toy_fmt (toy_cuda_args 3 false)
              toy_model toy_loader toy_optimizer 1 [] toy_cuda_search_env)
    as (Htrain & _ & Hmain);
    [discriminate | discriminate | reflexivity | reflexivity | discriminate |].
  split; [apply Htrain; reflexivity | apply Hmain; left; reflexivity].
Defined.


#[global] Instance str_le_total : Total str_le.
Proof. intros a b. apply String.leb_total. Qed.

#[global] Instance str_le_antisym : AntiSymm (=) str_le.
Proof. intros a b. apply String.leb_antisym. Qed.

#[global] Instance str_le_trans : Transitive str_le.
Proof.
  unfold str_le, String.leb. intros a.
  induction a as [|x a IH]; intros [|y b] [|z c]; cbn; try easy.
  unfold Ascii.compare.
  destruct (N.compare_spec (Ascii.N_of_ascii x) (Ascii.N_of_ascii y)),
           (N.compare_spec (Ascii.N_of_ascii y) (Ascii.N_of_ascii z)),
           (N.compare_spec (Ascii.N_of_ascii x) (Ascii.N_of_ascii z));
    try lia; try easy.
  apply IH.
Qed.

(** X15.  [model_names] lists exactly the names of the module dictionary
    that are lowercase, do not start with two underscores and are bound to
    a callable; so every architecture that [argparse] accepts through
    [choices=model_names] can be looked up and called.  The list is in
    ascending order, has no duplicates, and does not depend on the order
    in which the module defines its names. *)
Theorem model_names_lists_the_callable_lowercase_names (module_dict : list (string * bool)) :
  (∀ name, name ∈ model_names module_dict ↔
     (name, true) ∈ module_dict ∧ islower name = true ∧ startswith name "__" = false) ∧
  Sorted str_le (model_names module_dict) ∧
  (NoDup module_dict.*1 → NoDup (model_names module_dict)) ∧
  (∀ module_dict', module_dict ≡ₚ module_dict' →
     model_names module_dict' = model_names module_dict).
Proof.
  unfold model_names. split; [|split; [|split]].
  - intros name. rewrite merge_sort_Permutation, list_elem_of_fmap. split.
    + intros ([k c] & -> & Hin). apply list_elem_of_filter in Hin as (Hkeep & Hin).
      cbn [fst snd] in *.
      apply Is_true_true in Hkeep. apply andb_true_iff in Hkeep as (Hkeep & ->).
      apply andb_true_iff in Hkeep as (Hlow & Hpre). apply negb_true_iff in Hpre. auto.
    + intros (Hin & Hlow & Hpre). exists (name, true). split; [reflexivity|].
      apply list_elem_of_filter. split; [|exact Hin].
      cbn [fst snd]. rewrite Hlow, Hpre. exact I.
  - apply Sorted_merge_sort. apply _.
  - intros Hnd. rewrite merge_sort_Permutation.
    induction module_dict as [|[k c] d IH]; [constructor|].
    rewrite fmap_cons in Hnd. apply NoDup_cons in Hnd as (Hk & Hnd).
    rewrite filter_cons. destruct (decide _) as [Hkeep|Hdrop]; [|apply IH, Hnd].
    rewrite fmap_cons. apply NoDup_cons. split; [|apply IH, Hnd].
    intros Hin. apply Hk. cbn [fst] in *.
    apply list_elem_of_fmap in Hin as ([k' c'] & -> & Hin).
    apply list_elem_of_filter in Hin as (_ & Hin).
    apply list_elem_of_fmap. exists (k', c'). auto.
  - intros d' Hperm. apply (Sorted_unique str_le).
    + apply Sorted_merge_sort. apply _.
    + apply Sorted_merge_sort. apply _.
    + rewrite !merge_sort_Permutation, Hperm. reflexivity.
Qed.

Lemma model_names_lists_the_callable_lowercase_names_witness :
  model_names [("plain_cnn", true); ("__name__", false); ("PlainCNN", true);
               ("nn", false); ("__getattr__", true); ("plain_dscnn", true)]
    = ["plain_cnn"; "plain_dscnn"] ∧
  model_names [("plain_dscnn", true); ("plain_cnn", true)] = ["plain_cnn"; "plain_dscnn"] ∧
  ("plain_cnn" ∈ model_names [("plain_dscnn", true); ("plain_cnn", true)] ↔
   ("plain_cnn", true) ∈ [("plain_dscnn", true); ("plain_cnn", true)] ∧
   islower "plain_cnn" = true ∧ startswith "plain_cnn" "__" = false).
Proof.
  split; [vm_compute; reflexivity|]. split; [vm_compute; reflexivity|].
  apply (model_names_lists_the_callable_lowercase_names
           [("plain_dscnn", true); ("plain_cnn", true)]).
Defined.


